(** * A shallow embedding of the xstate transition engine

    Two interpreters live in the repository:

    - [packages/xstate-fsm/src/index.ts], the flat finite-state machine
      ([Module Fsm]); an earlier revision of the same file
      ([Module FsmEarly]) differs in how a missing target is handled;
    - [packages/core/src/StateNode.ts] and [State.ts], the hierarchical
      statechart interpreter ([Module Core]).

    Thrown JavaScript exceptions are values of [Result]. *)

From Stdlib Require Import ZArith Lia Ascii.
From stdpp Require Import base option list strings gmap sorting.

Set Warnings "-register-all,-inconsistent-scopes".
Open Scope string_scope.
Open Scope list_scope.

(** ** Exceptions *)

Inductive Error : Type :=
| StateNotFound (value : string)
| TypeError
| WildcardEvent
| EventNotAccepted (machine : string) (name : string)
| ChildNotFound (key : string)
| GuardError (name : string)
| StackOverflow.

Inductive Result (A : Type) : Type :=
| Ok (a : A)
| Throw (e : Error).
Arguments Ok {A} a.
Arguments Throw {A} e.

Definition bind {A B} (r : Result A) (k : A -> Result B) : Result B :=
  match r with
  | Ok a => k a
  | Throw e => Throw e
  end.

Notation "'try' x := r 'in' k" := (bind r (fun x => k))
  (at level 10, x name, r at level 100, k at level 200).

(** * Properties of plain objects

    The configs, the contexts, the state values and the tables of the
    interpreters are plain objects: they come from an object literal
    and have [Object.prototype] as their prototype.  Such an object is
    modelled by its own properties.  Reading [obj[key]] finds an own
    property first and a member of [Object.prototype] otherwise: a
    function, or for [__proto__] the prototype object itself.  Writing
    [obj[key] = v] makes an own property, except for the key
    [__proto__], which runs the setter of [Object.prototype] and leaves
    the own properties as they are. *)

Definition objectPrototypeNames : list string :=
  ["constructor"; "__defineGetter__"; "__defineSetter__"; "hasOwnProperty";
   "__lookupGetter__"; "__lookupSetter__"; "isPrototypeOf";
   "propertyIsEnumerable"; "toString"; "valueOf"; "__proto__";
   "toLocaleString"].

Definition inheritedName (key : string) : bool :=
  bool_decide (key ∈ objectPrototypeNames).

Inductive Property (T : Type) : Type :=
| Own (v : T)
| Inherited (name : string)
| Absent.
Arguments Own {T} v.
Arguments Inherited {T} name.
Arguments Absent {T}.

(** [obj[key]] *)
Definition getProperty {T} (obj : gmap string T) (key : string)
    : Property T :=
  match obj !! key with
  | Some v => Own v
  | None => if inheritedName key then Inherited key else Absent
  end.

(** [obj[key] = v] *)
Definition setProperty {T} (key : string) (v : T) (obj : gmap string T)
    : gmap string T :=
  if String.eqb key "__proto__" then obj else <[key := v]> obj.

(** [Object.assign({}, obj)]: every own property of [obj] is written
    to a new object. *)
Definition copyProperties {T} (obj : gmap string T) : gmap string T :=
  delete "__proto__" obj.

(** The [name] of the function that [Object.prototype] holds under a
    key. *)
Definition memberName (key : string) : string :=
  if String.eqb key "constructor" then "Object" else key.

(** The functions of [Object.prototype], as values of the type of the
    functions a config holds. *)
Class ObjectPrototype (Fn : Type) := memberFunction : string -> Fn.

(** * The flat machine of xstate-fsm *)

Module Fsm.

(** [T | T[] | undefined]; array slots may hold [undefined]. *)
Inductive SingleOrArray (T : Type) :=
| Undefined
| Single (x : T)
| Array (l : list (option T)).
Arguments Undefined {T}.
Arguments Single {T} x.
Arguments Array {T} l.

Section Fsm.

(** Property values of a context object, and the body of an [exec]
    function, are opaque to the machine. *)
Context {Value Exec : Type} `{!ObjectPrototype Exec}.

Record EventObject := mkEvent {
  ev_type : string;
  ev_payload : gmap string Value
}.

Inductive PropertyAssignment :=
| PropFn (f : gmap string Value -> EventObject -> Value)
| PropValue (v : Value).

Inductive Assignment :=
| Assigner (f : gmap string Value -> EventObject -> gmap string Value)
| PropertyAssigner (props : list (string * PropertyAssignment)).

(** An action object; [Object.prototype], which [toActionObject] can
    come back with, has no [type]. *)
Record ActionObject := mkAction {
  act_type : option string;
  exec : option Exec;
  assignment : option Assignment
}.

(** An action as written in a config: a name, a function, or an object. *)
Inductive Action :=
| ActionName (name : string)
| ActionFunction (name : string) (f : Exec)
| ActionObj (a : ActionObject).

Inductive Transition :=
| TransitionTarget (target : string)
| TransitionObj (target : option string)
                (actions : option (SingleOrArray Action))
                (cond : option (gmap string Value -> EventObject -> bool)).

Record StateConfig := mkStateConfig {
  on : option (gmap string (SingleOrArray Transition));
  entry : SingleOrArray Action;
  exit : SingleOrArray Action
}.

Record Config := mkConfig {
  id : option string;
  initial : string;
  context : gmap string Value;
  states : gmap string StateConfig
}.

Record Machine := mkMachine {
  config : Config;
  _options : option (gmap string Action)
}.

Record State := mkState {
  value : string;
  st_context : gmap string Value;
  st_actions : list ActionObject;
  changed : option bool
}.

Definition INIT_EVENT : EventObject := mkEvent "xstate.init" ∅.
Definition ASSIGN_ACTION : string := "xstate.assign".

(** [toArray]: [undefined] gives the empty array, anything else is
    concatenated onto an empty array. *)
Definition toArray {T} (item : SingleOrArray T) : list (option T) :=
  match item with
  | Undefined => []
  | Single x => [Some x]
  | Array l => l
  end.

(** One argument of [Array.prototype.concat]: arrays are spread, any
    other value (also [undefined]) is appended as one element. *)
Definition concat_arg {T} (item : SingleOrArray T) : list (option T) :=
  match item with
  | Undefined => [None]
  | Single x => [Some x]
  | Array l => l
  end.

(** JavaScript truthiness of an action slot: [undefined] and the empty
    string are falsy, functions and objects are truthy. *)
Definition truthy (a : option Action) : bool :=
  match a with
  | None => false
  | Some (ActionName "") => false
  | Some _ => true
  end.

(** A member of [Object.prototype] where an action is expected: the
    function under that key, or the prototype object, which has no
    [type], [exec] or [assignment]. *)
Definition memberAction (key : string) : Action :=
  if String.eqb key "__proto__" then ActionObj (mkAction None None None)
  else ActionFunction (memberName key) (memberFunction key).

Definition toActionObject (action : Action)
    (actionMap : option (gmap string Action)) : ActionObject :=
  let action :=
    match action, actionMap with
    | ActionName name, Some map =>
        match getProperty map name with
        | Own mapped => if truthy (Some mapped) then mapped else action
        | Inherited key => memberAction key
        | Absent => action
        end
    | _, _ => action
    end in
  match action with
  | ActionName name => mkAction (Some name) None None
  | ActionFunction name f => mkAction (Some name) (Some f) None
  | ActionObj a => a
  end.

Definition toEventObject (event : string + EventObject) : EventObject :=
  match event with
  | inl name => mkEvent name ∅
  | inr e => e
  end.

Definition createMatcher (value : string) : string -> bool :=
  fun stateValue => String.eqb value stateValue.

Definition matches (s : State) : string -> bool := createMatcher (value s).

Definition createUnchangedState (value : string)
    (context : gmap string Value) : State :=
  mkState value context [] (Some false).

(** The body of the [filter] callback for an assign action: the next
    value of [nextContext].  [tmpContext] starts as a copy of
    [nextContext] and gets the properties by assignment, so the key
    [__proto__] never becomes a property of it (what the setter does to
    the prototype of the context is outside the model).  An assign
    object without [assignment] makes [Object.keys] throw. *)
Definition applyAssignment (a : ActionObject)
    (nextContext : gmap string Value) (eventObject : EventObject)
    : Result (gmap string Value) :=
  match assignment a with
  | Some (Assigner f) => Ok (f nextContext eventObject)
  | Some (PropertyAssigner props) =>
      Ok (fold_left
            (fun tmpContext '(key, p) =>
               setProperty key
                 match p with
                 | PropFn f => f nextContext eventObject
                 | PropValue v => v
                 end tmpContext)
            props (copyProperties nextContext))
  | None => Throw TypeError
  end.

Definition isAssign (a : ActionObject) : bool :=
  match act_type a with
  | Some type => String.eqb type ASSIGN_ACTION
  | None => false
  end.

(** The side-effecting [filter]: walks the action objects in order,
    threading [nextContext] and [assigned], keeping the other actions. *)
Fixpoint filterAssign (acts : list ActionObject)
    (nextContext : gmap string Value) (assigned : bool)
    (eventObject : EventObject)
    : Result (list ActionObject * gmap string Value * bool) :=
  match acts with
  | [] => Ok ([], nextContext, assigned)
  | a :: rest =>
      if isAssign a then
        try tmpContext := applyAssignment a nextContext eventObject in
        filterAssign rest tmpContext true eventObject
      else
        try r := filterAssign rest nextContext assigned eventObject in
        let '(kept, ctx, asg) := r in
        Ok (a :: kept, ctx, asg)
  end.

(** The list handed to the side-effecting filter:
    [[].concat(exit, actions, entry).filter(a => a).map(toActionObject)]. *)
Definition collectActions (m : Machine) (stateConfig : StateConfig)
    (actions : SingleOrArray Action) (nextStateConfig : StateConfig)
    : list ActionObject :=
  map (fun a => toActionObject a (_options m))
      (omap (fun a => if truthy a then a else None)
            (concat_arg (exit stateConfig) ++ concat_arg actions
               ++ concat_arg (entry nextStateConfig))).

Definition destructure (value : string) (transition : Transition)
    : string * SingleOrArray Action
      * (gmap string Value -> EventObject -> bool) :=
  match transition with
  | TransitionTarget target => (target, Array [], fun _ _ => true)
  | TransitionObj target actions cond =>
      (default value target, default (Array []) actions,
       default (fun _ _ => true) cond)
  end.

(** A member of [Object.prototype] where a state config is expected:
    it has no [on], [entry] or [exit]. *)
Definition memberStateConfig : StateConfig :=
  mkStateConfig None Undefined Undefined.

(** [fsmConfig.states[value]] *)
Definition stateConfigAt (fsmConfig : Config) (value : string)
    : option StateConfig :=
  match getProperty (states fsmConfig) value with
  | Own stateConfig => Some stateConfig
  | Inherited _ => Some memberStateConfig
  | Absent => None
  end.

(** The body of the [if (cond(...))] branch. *)
Definition takeTransition (m : Machine) (stateConfig : StateConfig)
    (value : string) (context : gmap string Value)
    (eventObject : EventObject) (target : string)
    (actions : SingleOrArray Action) : Result State :=
  match stateConfigAt (config m) target with
  | None => Throw TypeError
  | Some nextStateConfig =>
      try r := filterAssign
                 (collectActions m stateConfig actions nextStateConfig)
                 context false eventObject in
      let '(allActions, nextContext, assigned) := r in
      Ok (mkState target nextContext allActions
            (Some (negb (String.eqb target value)
                   || bool_decide (0 < length allActions)%nat
                   || assigned)))
  end.

(** The [for (const transition of transitions)] loop. *)
Fixpoint forTransitions (m : Machine) (stateConfig : StateConfig)
    (value : string) (context : gmap string Value)
    (eventObject : EventObject) (transitions : list (option Transition))
    : Result State :=
  match transitions with
  | [] => Ok (createUnchangedState value context)
  | None :: _ => Ok (createUnchangedState value context)
  | Some transition :: rest =>
      let '(target, actions, cond) := destructure value transition in
      if cond context eventObject then
        takeTransition m stateConfig value context eventObject target actions
      else
        forTransitions m stateConfig value context eventObject rest
  end.

(** A member of [Object.prototype] where a transition is expected: it
    is not a string and has no [target], [actions] or [cond]. *)
Definition memberTransition : Transition := TransitionObj None None None.

(** [toArray(stateConfig.on[eventObject.type])], when there is an
    [on]. *)
Definition lookupOn (stateConfig : StateConfig) (type : string)
    : option (list (option Transition)) :=
  match on stateConfig with
  | None => None
  | Some onMap =>
      Some (toArray match getProperty onMap type with
                    | Own item => item
                    | Inherited _ => Single memberTransition
                    | Absent => Undefined
                    end)
  end.

(** [transition] of the machine.  A [value] under which
    [fsmConfig.states] holds nothing ends in an error: the one thrown
    outside production, or the type error of [stateConfig.on] in
    production. *)
Definition transition (m : Machine) (state : string + State)
    (event : string + EventObject) : Result State :=
  let '(value, context) :=
    match state with
    | inl s => (s, context (config m))
    | inr st => (value st, st_context st)
    end in
  let eventObject := toEventObject event in
  match stateConfigAt (config m) value with
  | None => Throw (StateNotFound value)
  | Some stateConfig =>
      match lookupOn stateConfig (ev_type eventObject) with
      | Some transitions =>
          forTransitions m stateConfig value context eventObject transitions
      | None => Ok (createUnchangedState value context)
      end
  end.

End Fsm.
End Fsm.

(** * The earlier revision of the flat machine

    Same data as [Fsm]; [toActionObject] takes no action map, and a
    transition without a (truthy) target stays in the current state
    configuration instead of defaulting the target to the current value. *)

Module FsmEarly.
Import Fsm.
Section FsmEarly.

Context {Value Exec : Type}.
Abbreviation EventObject := (@Fsm.EventObject Value).
Abbreviation ActionObject := (@Fsm.ActionObject Value Exec).
Abbreviation Action := (@Fsm.Action Value Exec).
Abbreviation Transition := (@Fsm.Transition Value Exec).
Abbreviation StateConfig := (@Fsm.StateConfig Value Exec).
Abbreviation Config := (@Fsm.Config Value Exec).
Abbreviation State := (@Fsm.State Value Exec).

Definition assignActionType : string := "xstate.assign".

Definition toActionObject (action : Action) : ActionObject :=
  match action with
  | ActionName name => mkAction (Some name) None None
  | ActionFunction name f => mkAction (Some name) (Some f) None
  | ActionObj a => a
  end.

Definition collectActions (stateConfig : StateConfig)
    (actions : SingleOrArray Action) (nextStateConfig : StateConfig)
    : list ActionObject :=
  map toActionObject
      (omap (fun a => if truthy a then a else None)
            (concat_arg (exit stateConfig) ++ concat_arg actions
               ++ concat_arg (entry nextStateConfig))).

Definition destructure (transition : Transition)
    : option string * SingleOrArray Action
      * (gmap string Value -> EventObject -> bool) :=
  match transition with
  | TransitionTarget target => (Some target, Array [], fun _ _ => true)
  | TransitionObj target actions cond =>
      (target, default (Array []) actions, default (fun _ _ => true) cond)
  end.

(** [target ? a : b]: an absent target and the empty string are falsy. *)
Definition truthyTarget (target : option string) : option string :=
  match target with
  | Some "" => None
  | other => other
  end.

Definition takeTransition (fsmConfig : Config) (stateConfig : StateConfig)
    (value : string) (context : gmap string Value)
    (eventObject : EventObject) (target : option string)
    (actions : SingleOrArray Action) : Result State :=
  match (match truthyTarget target with
         | Some t => stateConfigAt fsmConfig t
         | None => Some stateConfig
         end) with
  | None => Throw TypeError
  | Some nextStateConfig =>
      try r := filterAssign
                 (collectActions stateConfig actions nextStateConfig)
                 context false eventObject in
      let '(allActions, nextContext, assigned) := r in
      let nextValue := default value (truthyTarget target) in
      Ok (mkState nextValue nextContext allActions
            (Some (negb (String.eqb nextValue value)
                   || bool_decide (0 < length allActions)%nat
                   || assigned)))
  end.

Fixpoint forTransitions (fsmConfig : Config) (stateConfig : StateConfig)
    (value : string) (context : gmap string Value)
    (eventObject : EventObject) (transitions : list (option Transition))
    : Result State :=
  match transitions with
  | [] => Ok (mkState value context [] (Some false))
  | None :: _ => Ok (mkState value context [] (Some false))
  | Some transition :: rest =>
      let '(target, actions, cond) := destructure transition in
      if cond context eventObject then
        takeTransition fsmConfig stateConfig value context eventObject
          target actions
      else
        forTransitions fsmConfig stateConfig value context eventObject rest
  end.

Definition transition (fsmConfig : Config) (state : string + State)
    (event : string + EventObject) : Result State :=
  let '(value, context) :=
    match state with
    | inl s => (s, Fsm.context fsmConfig)
    | inr st => (Fsm.value st, st_context st)
    end in
  let eventObject := toEventObject event in
  match stateConfigAt fsmConfig value with
  | None => Throw (StateNotFound value)
  | Some stateConfig =>
      match lookupOn stateConfig (ev_type eventObject) with
      | Some transitions =>
          forTransitions fsmConfig stateConfig value context eventObject
            transitions
      | None => Ok (mkState value context [] (Some false))
      end
  end.

End FsmEarly.
End FsmEarly.

(** * The hierarchical interpreter of [packages/core] *)

Module Core.

Definition NULL_EVENT : string := "".
Definition STATE_IDENTIFIER : string := "#".
Definition WILDCARD : string := "*".

(** A state node is referred to by its position in the definition tree:
    the child indexes from the root machine node.  Two references are
    the same JavaScript object exactly when the positions are equal. *)
Definition NodeRef := list nat.

(** What a lookup in [states] or in [idMap], both plain objects, hands
    back where a state node is expected: a node, or a truthy value that
    is no state node, read under [name] ([Object.prototype.toString]
    for [toString], and so on). *)
Inductive Found :=
| FoundNode (ref : NodeRef)
| NotANode (name : string).

Inductive NodeType := atomic | compound | parallel | final | history.

(** The discriminator of an action object: the built-in types of
    [actionTypes], or the [type] string of a custom action. *)
Module actionTypes.
Inductive ActionType :=
| assign | raise | send | log | start | stop | pure
| custom (name : string).
End actionTypes.
Export actionTypes (ActionType).

Inductive SendTarget := Internal | OtherTarget (id : string).

Inductive StateValue :=
| Leaf (key : string)
| Branch (entries : list (string * StateValue)).

Section Core.

(** [TContext] and the event objects [TEvent] are the type parameters of
    the source.  [Payload] stands for the fields of an action object
    that the interpreter only passes along (assignment, exec, label,
    delay, ...), [Activity] for an activity definition, [Data] for the
    [data] of a final node, [StateIn] for an [in] guard and
    [HistoryValue] for the history tree. *)
Context {TContext TEvent Payload Activity Data StateIn HistoryValue : Type}.

Record SCXMLEvent := mkSCXML {
  name : string;
  data : TEvent
}.

Inductive Event :=
| EventName (type : string)
| EventObj (e : TEvent)
| EventSCXML (e : SCXMLEvent).

Inductive ActionObject := mkAction {
  type : ActionType;
  act_event : option Event;
  _event : option SCXMLEvent;
  to : option SendTarget;
  activity : option Activity;
  get : option (TContext -> TEvent -> list ActionObject);
  payload : option Payload
}.

Inductive Guard :=
| GuardPredicate (name : string) (predicate : TContext -> TEvent -> Result bool)
| GuardNamed (type : string).

Record TransitionDefinition := mkTransition {
  eventType : string;
  cond : option Guard;
  in_ : option StateIn;
  target : option (list NodeRef);
  actions : list ActionObject;
  internal : bool;
  source : NodeRef
}.

Inductive StateNode := mkStateNode {
  key : string;
  id : string;
  node_type : NodeType;
  order : Z;
  initial : option string;
  onEntry : list ActionObject;
  onExit : list ActionObject;
  activities : list Activity;
  transitions : list TransitionDefinition;
  strict : bool;
  _transient : bool;
  node_data : option Data;
  states : list StateNode
}.

Inductive State := mkState {
  value : StateValue;
  context : TContext;
  st_event : SCXMLEvent;
  event : TEvent;
  historyValue : option HistoryValue;
  st_history : option State;
  st_actions : list ActionObject;
  configuration : list NodeRef;
  st_transitions : list TransitionDefinition;
  changed : option bool
}.

Record StateTransition := mkStateTransition {
  tr_transitions : list TransitionDefinition;
  entrySet : list NodeRef;
  exitSet : list NodeRef;
  tr_configuration : list NodeRef;
  tr_source : option State;
  tr_actions : list ActionObject
}.

(** What [transition] accepts as its first argument. *)
Inductive StateArg :=
| ArgState (s : State)
| ArgValue (v : StateValue)
| ArgString (s : string).


(** ** The definition tree *)

(** [getChildren]: the child nodes in the key order of [states]. *)
Definition getChildren (sn : StateNode) : list StateNode := states sn.

(** The node at a position, if there is one. *)
Fixpoint nodeAt (sn : StateNode) (ref : NodeRef) : option StateNode :=
  match ref with
  | [] => Some sn
  | i :: rest =>
      match states sn !! i with
      | Some child => nodeAt child rest
      | None => None
      end
  end.

(** The [parent] link of the node at a position. *)
Definition parent (ref : NodeRef) : option NodeRef :=
  match ref with
  | [] => None
  | _ => Some (removelast ref)
  end.

(** Document order, as the constructor assigns it: the local [dfs]
    numbers the node, then its children from left to right.  The
    constructor of every child has already numbered that child's subtree
    from 0; the root's pass, which runs last, overwrites all of them. *)
Fixpoint dfs (next : Z) (sn : StateNode) : StateNode * Z :=
  let fix dfsChildren (next : Z) (children : list StateNode)
      : list StateNode * Z :=
    match children with
    | [] => ([], next)
    | child :: rest =>
        let '(child', next') := dfs next child in
        let '(rest', next'') := dfsChildren next' rest in
        (child' :: rest', next'')
    end in
  let '(children', next') := dfsChildren (next + 1)%Z (states sn) in
  (mkStateNode (key sn) (id sn) (node_type sn) next (initial sn)
     (onEntry sn) (onExit sn) (activities sn) (transitions sn)
     (strict sn) (_transient sn) (node_data sn) children',
   next').

(** The machine a config tree denotes once [new StateNode(config)] has
    returned. *)
Definition Machine (config : StateNode) : StateNode := (dfs 0 config).1.

(** The [order] read through a reference; a field that was never
    written holds its initialiser [-1]. *)
Definition orderOf (machine : StateNode) (ref : NodeRef) : Z :=
  match nodeAt machine ref with
  | Some sn => order sn
  | None => (-1)%Z
  end.

(** ** Candidate transitions *)

(** What [getCandidates] returns: an array of transitions, or the
    member of [Object.prototype] that the memo table, a plain object,
    holds under the event name. *)
Inductive Candidates :=
| CandidateList (candidates : list TransitionDefinition)
| CandidatesMember (name : string).

(** The filter inside [getCandidates]. *)
Definition filterCandidates (sn : StateNode) (eventName : string)
    : list TransitionDefinition :=
  let transient := String.eqb eventName NULL_EVENT in
  filter (fun transition =>
            let sameEventType := String.eqb (eventType transition) eventName in
            Is_true (if transient then sameEventType
                     else sameEventType
                          || String.eqb (eventType transition) WILDCARD))
         (transitions sn).

(** [getCandidates] with [__cache.candidates]: what the table holds
    under the event name, when that is truthy (an array is, also when
    empty, and so is a member of [Object.prototype]), is returned as it
    is; otherwise the filter runs and its result is stored. *)
Definition getCandidatesCached
    (cache : gmap string (list TransitionDefinition))
    (sn : StateNode) (eventName : string)
    : Candidates * gmap string (list TransitionDefinition) :=
  match getProperty cache eventName with
  | Own candidates => (CandidateList candidates, cache)
  | Inherited key => (CandidatesMember key, cache)
  | Absent =>
      let candidates := filterCandidates sn eventName in
      (CandidateList candidates, <[eventName := candidates]> cache)
  end.

(** The memo table only ever holds what the filter computes, and
    nothing of its own under the name of a member of
    [Object.prototype], where nothing is ever stored. *)
Definition cacheCoherent (cache : gmap string (list TransitionDefinition))
    (sn : StateNode) : Prop :=
  forall eventName candidates,
    cache !! eventName = Some candidates ->
    inheritedName eventName = false
    /\ candidates = filterCandidates sn eventName.

(** [getCandidates] on a memo table that holds what the filter
    computes, as it is from the empty table of a new node on. *)
Definition getCandidates (sn : StateNode) (eventName : string)
    : Candidates :=
  if inheritedName eventName then CandidatesMember eventName
  else CandidateList (filterCandidates sn eventName).

(** ** Declared events *)

(** First occurrences, in order: [Array.from(new Set(xs))]. *)
Fixpoint setFrom {A} `{EqDecision A} (seen : list A) (xs : list A) : list A :=
  match xs with
  | [] => []
  | x :: rest =>
      if bool_decide (x ∈ seen) then setFrom seen rest
      else x :: setFrom (x :: seen) rest
  end.

Definition isInert (transition : TransitionDefinition) : bool :=
  match target transition with
  | None => bool_decide (length (actions transition) = 0%nat)
            && internal transition
  | Some _ => false
  end.

Definition ownEvents (sn : StateNode) : list string :=
  setFrom []
    (map eventType
       (filter (fun transition => Is_true (negb (isInert transition)))
          (transitions sn))).

Fixpoint events (sn : StateNode) : list string :=
  setFrom [] (ownEvents sn ++ flat_map events (states sn)).


(** ** What the interpreter imports

    [StateNode.ts] imports these from [./utils], [./stateUtils],
    [./actions] and [./actionTypes]; [guards] is [options.guards] of
    the machine and [machineContext] its [context].  The interpreter is
    modelled over any implementation of them.
    [resolveCurrentState] stands for the first statement of
    [transition] when its argument is not a ready [State]
    ([resolve], [resolveState], [State.from] over [pathToStateValue]);
    [getStateNodes], [getRelativeStateNodes] and [machineHistoryValue]
    stand for the methods of the same names, which are compositions of
    [toStateValue], [toStatePaths], [nestedPath] and [mapFilterValues];
    [getStateNodes] is taken where it returns state nodes.  An [in]
    guard is a state id ([stateInId]) or a relative state value;
    [matchesPath] stands for [state.matches(toStateValue(found.path))]
    and [matchesRelative] for the [matchesState] over the grandparent's
    part of the value; either may throw.  [memberGuard] is a member function of
    [Object.prototype] called as a guard, and [nodeProperty] a property
    of a state node object read by name. *)

Class Imports := {
  toSCXMLEvent : Event -> SCXMLEvent;
  isBuiltInEvent : string -> bool;
  update : string;
  IS_PRODUCTION : bool;
  guards : gmap string (TContext -> TEvent -> Result bool);
  memberGuard : string -> TContext -> TEvent -> Result bool;
  machineContext : TContext;
  getConfiguration : StateNode -> list NodeRef -> list NodeRef -> list NodeRef;
  getStateNodes : StateNode -> StateValue -> Result (list NodeRef);
  getValue : StateNode -> list NodeRef -> StateValue;
  isInFinalState : StateNode -> list NodeRef -> NodeRef -> bool;
  mapContext : Data -> TContext -> SCXMLEvent -> Data;
  getRelativeStateNodes :
    StateNode -> NodeRef -> option HistoryValue -> list NodeRef;
  stateInId : StateIn -> option string;
  matchesPath : StateNode -> Found -> State -> Result bool;
  matchesRelative : StateNode -> NodeRef -> StateIn -> State -> Result bool;
  nodeProperty : StateNode -> NodeRef -> string -> Result Found;
  machineHistoryValue : StateNode -> StateValue -> option HistoryValue;
  updateHistoryValue : HistoryValue -> StateValue -> HistoryValue;
  updateContext :
    TContext -> SCXMLEvent -> list ActionObject -> option State -> TContext;
  resolveRaise : ActionObject -> ActionObject;
  resolveSend : ActionObject -> TContext -> SCXMLEvent -> ActionObject;
  resolveLog : ActionObject -> TContext -> SCXMLEvent -> ActionObject;
  toActionObject : ActionObject -> ActionObject;
  start : Activity -> ActionObject;
  stop : Activity -> ActionObject;
  raise : TEvent -> ActionObject;
  done : string -> option Data -> TEvent;
  resolveCurrentState :
    StateNode -> StateArg -> option TContext -> Result State
}.

Context `{Imports}.

(** ** Looking nodes up *)

Definition isStateId (str : string) : bool :=
  match str with
  | String c _ => bool_decide (c = "#"%char)
  | EmptyString => false
  end.

(** The own properties of [idMap]: every descendant under its id, in
    the order the constructors assign them with [Object.assign] (a later
    assignment of the same id replaces an earlier one).  Assigning under
    [__proto__] makes no own property. *)
Fixpoint idMap (ref : NodeRef) (sn : StateNode) : list (string * NodeRef) :=
  let fix ofChildren (i : nat) (children : list StateNode) :=
    match children with
    | [] => []
    | child :: rest =>
        (if String.eqb (id child) "__proto__" then []
         else [(id child, ref ++ [i])])
          ++ idMap (ref ++ [i]) child
          ++ ofChildren (S i) rest
    end in
  ofChildren 0%nat (states sn).

(** The prototype of the machine's [idMap] after the constructor: the
    assignment under [__proto__], which only a child of the machine with
    that id makes there, replaces [Object.prototype] by that child. *)
Definition idMapPrototype (machine : StateNode) : option NodeRef :=
  (fun entry => [entry.1])
    <$> last (filter (fun entry => id entry.2 = "__proto__")
                     (imap (fun i child => (i, child)) (states machine))).

Definition lastBinding (stateId : string) (m : list (string * NodeRef))
    : option NodeRef :=
  snd <$> last (filter (fun entry => entry.1 = stateId) m).

Definition dropIdentifier (stateId : string) : string :=
  match stateId with
  | String _ rest => if isStateId stateId then rest else stateId
  | EmptyString => stateId
  end.

(** [getStateNodeById] called on the node [this]: [idMap] is the
    machine's.  An id that is no own property of it is looked up along
    its prototype chain: in [Object.prototype], or in the child that
    replaced it ([nodeProperty] reads a property of a state node
    object). *)
Definition getStateNodeById (machine : StateNode) (this : NodeRef)
    (stateId : string) : Result Found :=
  let resolvedStateId := dropIdentifier stateId in
  match nodeAt machine this with
  | None => Throw TypeError
  | Some sn =>
      if String.eqb resolvedStateId (id sn) then Ok (FoundNode this)
      else match lastBinding resolvedStateId (idMap [] machine) with
           | Some ref => Ok (FoundNode ref)
           | None =>
               match idMapPrototype machine with
               | Some child => nodeProperty machine child resolvedStateId
               | None =>
                   if inheritedName resolvedStateId
                   then Ok (NotANode resolvedStateId)
                   else Throw (ChildNotFound resolvedStateId)
               end
           end
  end.

(** [getStateNode]: [this.states[stateKey]], where [states] of the model
    lists the own properties of [this.states]. *)
Definition getStateNode (machine : StateNode) (this : NodeRef)
    (stateKey : string) : Result Found :=
  if isStateId stateKey then getStateNodeById machine [] stateKey
  else match nodeAt machine this with
       | None => Throw TypeError
       | Some sn =>
           match list_find (fun child => key child = stateKey) (states sn) with
           | Some (i, _) => Ok (FoundNode (this ++ [i]))
           | None =>
               if inheritedName stateKey then Ok (NotANode stateKey)
               else Throw (ChildNotFound stateKey)
           end
       end.

(** Calling a method of [StateNode] on what a lookup found: a value
    that is no state node has no such method. *)
Definition asStateNode (found : Found) : Result NodeRef :=
  match found with
  | FoundNode ref => Ok ref
  | NotANode _ => Throw TypeError
  end.

(** ** Selecting a transition at one node *)

(** [evaluateGuard] inside the [try] of [next]: whatever the guard
    throws is rethrown as the "Unable to evaluate guard" error.
    [guards] is a plain object: under the name of a member of
    [Object.prototype] it holds that function, which is called
    ([memberGuard]), or for [__proto__] the prototype itself, which
    cannot be called. *)
Definition evaluateGuard (guard : Guard) (context : TContext)
    (_event : SCXMLEvent) : Result bool :=
  match guard with
  | GuardPredicate name predicate =>
      match predicate context (data _event) with
      | Ok b => Ok b
      | Throw _ => Throw (GuardError name)
      end
  | GuardNamed type =>
      match getProperty guards type with
      | Own condFn =>
          match condFn context (data _event) with
          | Ok b => Ok b
          | Throw _ => Throw (GuardError type)
          end
      | Inherited key =>
          if String.eqb key "__proto__" then Throw (GuardError type)
          else match memberGuard key context (data _event) with
               | Ok b => Ok b
               | Throw _ => Throw (GuardError type)
               end
      | Absent => Throw (GuardError type)
      end
  end.

(** The [isInState] of [next], computed before the guard and outside
    its [try]: an [in] that is a state id goes through
    [getStateNodeById]; no error of the check is caught. *)
Definition isInState (machine : StateNode) (this : NodeRef)
    (state : State) (candidate : TransitionDefinition) : Result bool :=
  match in_ candidate with
  | Some stateIn =>
      match stateInId stateIn with
      | Some stateId =>
          try found := getStateNodeById machine this stateId in
          matchesPath machine found state
      | None => matchesRelative machine this stateIn state
      end
  | None => Ok true
  end.

(** The [for (const candidate of ...)] loop of [next]: the first
    candidate whose guard passes and whose [in] state matches. *)
Fixpoint selectCandidate (machine : StateNode) (this : NodeRef)
    (state : State) (_event : SCXMLEvent)
    (candidates : list TransitionDefinition)
    : Result (option TransitionDefinition) :=
  match candidates with
  | [] => Ok None
  | candidate :: rest =>
      try isInState_ := isInState machine this state candidate in
      try guardPassed :=
        match cond candidate with
        | None => Ok true
        | Some guard => evaluateGuard guard (context state) _event
        end in
      if guardPassed && isInState_ then Ok (Some candidate)
      else selectCandidate machine this state _event rest
  end.


(** JavaScript truthiness of a state value: only the empty string is
    falsy, every object is truthy. *)
Definition truthyValue (v : StateValue) : bool :=
  match v with
  | Leaf "" => false
  | _ => true
  end.

(** The chain of [parent] links from a node, nearest first. *)
Definition properAncestors (ref : NodeRef) : list NodeRef :=
  map (fun k => take k ref) (rev (seq 0 (length ref))).

(** [this.escapes(stateNode)]: false when [stateNode] is [this] or one
    of its ancestors. *)
Definition escapes (this stateNode : NodeRef) : bool :=
  negb (bool_decide (this = stateNode))
  && negb (bool_decide (stateNode ∈ properAncestors this)).

Fixpoint upTo (this : NodeRef) (chain : list NodeRef) : list NodeRef :=
  match chain with
  | [] => []
  | marker :: rest =>
      if bool_decide (marker = this) then [] else marker :: upTo this rest
  end.

Definition nodesFromChild (this childStateNode : NodeRef) : list NodeRef :=
  if escapes childStateNode this then []
  else upTo this (childStateNode :: properAncestors childStateNode) ++ [this].

Definition next (machine : StateNode) (this : NodeRef) (state : State)
    (_event : SCXMLEvent) : Result (option StateTransition) :=
  match nodeAt machine this with
  | None => Throw TypeError
  | Some sn =>
      try candidates :=
        match getCandidates sn (name _event) with
        | CandidateList candidates => Ok candidates
        | CandidatesMember _ => Throw TypeError
        end in
      try selected :=
        selectCandidate machine this state _event candidates in
      match selected with
      | None => Ok None
      | Some selectedTransition =>
          let nextStateNodes := default [] (target selectedTransition) in
          let actions := actions selectedTransition in
          if bool_decide (length nextStateNodes = 0%nat) then
            Ok (Some (mkStateTransition [selectedTransition] [] []
                        (if truthyValue (value state) then [this] else [])
                        (Some state) actions))
          else
            let allNextStateNodes :=
              flat_map (fun stateNode =>
                          getRelativeStateNodes machine stateNode
                            (historyValue state))
                       nextStateNodes in
            let isInternal := internal selectedTransition in
            let reentryNodes :=
              if isInternal then []
              else flat_map (nodesFromChild this) allNextStateNodes in
            Ok (Some (mkStateTransition [selectedTransition] reentryNodes
                        (if isInternal then [] else [this])
                        allNextStateNodes (Some state) actions))
      end
  end.

(** [!next || !next.transitions.length] *)
Definition noTransitions (next : option StateTransition) : bool :=
  match next with
  | None => true
  | Some st => bool_decide (length (tr_transitions st) = 0%nat)
  end.

(** ** Selecting along the state value

    [_transition] dispatches on the shape of the state value to
    [transitionLeafNode], [transitionCompoundNode] (one key) or
    [transitionParallelNode]. *)
Fixpoint _transition (machine : StateNode) (this : NodeRef)
    (stateValue : StateValue) (state : State) (_event : SCXMLEvent)
    {struct stateValue} : Result (option StateTransition) :=
  match stateValue with
  | Leaf leaf =>
      try found := getStateNode machine this leaf in
      try stateNode := asStateNode found in
      try next_ := next machine stateNode state _event in
      if noTransitions next_ then next machine this state _event
      else Ok next_
  | Branch [(subStateKey, subStateValue)] =>
      try found := getStateNode machine this subStateKey in
      try stateNode := asStateNode found in
      try next_ := _transition machine stateNode subStateValue state _event in
      if noTransitions next_ then next machine this state _event
      else Ok next_
  | Branch entries =>
      let fix regions (entries : list (string * StateValue))
          : Result (list StateTransition) :=
        match entries with
        | [] => Ok []
        | (subStateKey, subStateValue) :: rest =>
            if truthyValue subStateValue then
              try found := getStateNode machine this subStateKey in
              try subStateNode := asStateNode found in
              try next_ :=
                _transition machine subStateNode subStateValue state _event in
              try others := regions rest in
              Ok (match next_ with
                  | Some st =>
                      if String.eqb subStateKey "__proto__" then others
                      else st :: others
                  | None => others
                  end)
            else regions rest
        end in
      try stateTransitions := regions entries in
      let willTransition :=
        existsb (fun st => bool_decide (0 < length (tr_transitions st))%nat)
                stateTransitions in
      if negb willTransition then next machine this state _event
      else
        Ok (Some (mkStateTransition
                    (flat_map tr_transitions stateTransitions)
                    (flat_map entrySet stateTransitions)
                    (flat_map exitSet stateTransitions)
                    (flat_map tr_configuration stateTransitions)
                    (Some state)
                    (flat_map tr_actions stateTransitions)))
  end.


(** ** Collecting the actions of a step *)

(** [Array.prototype.sort(compare)].  The sort is stable: an element
    moves behind another only when [compare] says it is greater. *)
Fixpoint insertSorted {A} (compare : A -> A -> Z) (x : A) (sorted : list A)
    : list A :=
  match sorted with
  | [] => [x]
  | y :: rest =>
      if (compare x y <=? 0)%Z then x :: y :: rest
      else y :: insertSorted compare x rest
  end.

Definition sort {A} (compare : A -> A -> Z) (xs : list A) : list A :=
  foldr (insertSorted compare) [] xs.

(** [has(iterable, item)] *)
Definition has (iterable : list NodeRef) (item : NodeRef) : bool :=
  bool_decide (item ∈ iterable).

Definition hasParent (iterable : list NodeRef) (sn : NodeRef) : bool :=
  match parent sn with
  | Some p => has iterable p
  | None => false
  end.

(** The two [for] loops at the head of [getActions] and the adjustment
    for a step without source: the entry and exit sets as they stand
    before they are sorted. *)
Definition resolveSets (this : NodeRef) (transition : StateTransition)
    (prevConfig resolvedConfig : list NodeRef) : list NodeRef * list NodeRef :=
  let entrySet' :=
    entrySet transition
      ++ filter (fun sn => Is_true (negb (has prevConfig sn))) resolvedConfig in
  let exitSet' :=
    fold_left (fun exitSet sn =>
                 if negb (has resolvedConfig sn) || hasParent exitSet sn
                 then exitSet ++ [sn] else exitSet)
              prevConfig (exitSet transition) in
  match tr_source transition with
  | Some _ => (entrySet', exitSet')
  | None => (entrySet' ++ [this], [])
  end.

(** The done events of one entered node. *)
Definition doneEventsOf (machine : StateNode) (transition : StateTransition)
    (currentContext : TContext) (_event : SCXMLEvent) (ref : NodeRef)
    : Result (list TEvent) :=
  match nodeAt machine ref with
  | None => Throw TypeError
  | Some sn =>
      match node_type sn with
      | final =>
          match parent ref ≫= (fun p => pair p <$> nodeAt machine p) with
          | None => Throw TypeError
          | Some (parentRef, parentNode) =>
              let own :=
                [done (id sn) (node_data sn);
                 done (id parentNode)
                   ((fun d => mapContext d currentContext _event)
                      <$> node_data sn)] in
              match parent parentRef
                    ≫= (fun g => pair g <$> nodeAt machine g) with
              | Some (grandRef, grandparent) =>
                  match node_type grandparent with
                  | parallel =>
                      if forallb (isInFinalState machine
                                    (tr_configuration transition))
                           (imap (fun i _ => grandRef ++ [i])
                                 (getChildren grandparent))
                      then Ok (own ++ [done (id grandparent)
                                         (node_data grandparent)])
                      else Ok own
                  | _ => Ok own
                  end
              | None => Ok own
              end
          end
      | _ => Ok []
      end
  end.

Fixpoint flatMapR {A B} (f : A -> Result (list B)) (xs : list A)
    : Result (list B) :=
  match xs with
  | [] => Ok []
  | x :: rest =>
      try ys := f x in
      try zs := flatMapR f rest in
      Ok (ys ++ zs)
  end.

(** Reading the fields of the node behind a reference; a reference that
    leads nowhere reads [undefined] and throws. *)
Definition entryActionsOf (machine : StateNode) (ref : NodeRef)
    : Result (list ActionObject) :=
  match nodeAt machine ref with
  | Some stateNode => Ok (map start (activities stateNode) ++ onEntry stateNode)
  | None => Throw TypeError
  end.

Definition exitActionsOf (machine : StateNode) (ref : NodeRef)
    : Result (list ActionObject) :=
  match nodeAt machine ref with
  | Some stateNode => Ok (onExit stateNode ++ map stop (activities stateNode))
  | None => Throw TypeError
  end.

(** [transition.exitSet.sort(...)], [transition.entrySet.sort(...)] and
    the two [Set]s built from them. *)
Definition exitStates (machine : StateNode) (exitSet : list NodeRef)
    : list NodeRef :=
  setFrom []
    (sort (fun a b => (orderOf machine b - orderOf machine a)%Z) exitSet).

Definition entryStates (machine : StateNode) (entrySet : list NodeRef)
    : list NodeRef :=
  setFrom []
    (sort (fun a b => (orderOf machine a - orderOf machine b)%Z) entrySet).

(** [toActionObjects(actions, options.actions)]: [toActionObject] on
    every element of the array. *)
Definition toActionObjects (actions : list ActionObject) : list ActionObject :=
  map toActionObject actions.

(** [getActions] from the computation of [doneEvents] on, given the
    entry and exit sets. *)
Definition actionsOfSets (machine : StateNode) (transition : StateTransition)
    (currentContext : TContext) (_event : SCXMLEvent)
    (entrySet exitSet : list NodeRef) : Result (list ActionObject) :=
  try doneEvents :=
    flatMapR (doneEventsOf machine transition currentContext _event)
             entrySet in
  try entryActions :=
    flatMapR (entryActionsOf machine) (entryStates machine entrySet) in
  try exitActions :=
    flatMapR (exitActionsOf machine) (exitStates machine exitSet) in
  Ok (toActionObjects
        (exitActions ++ tr_actions transition
           ++ (entryActions ++ map raise doneEvents))).

Definition getActions (machine : StateNode) (this : NodeRef)
    (transition : StateTransition) (currentContext : TContext)
    (_event : SCXMLEvent) (prevState : option State)
    : Result (list ActionObject) :=
  try prevNodes :=
    match prevState with
    | Some s => getStateNodes machine (value s)
    | None => Ok [this]
    end in
  let prevConfig := getConfiguration machine [] prevNodes in
  let resolvedConfig :=
    if bool_decide (length (tr_configuration transition) = 0%nat)
    then prevConfig
    else getConfiguration machine prevConfig (tr_configuration transition) in
  let '(entrySet, exitSet) :=
    resolveSets this transition prevConfig resolvedConfig in
  actionsOfSets machine transition currentContext _event entrySet exitSet.


(** ** [stateValuesEqual] of [State.ts] *)

(** [b[key]] on a state value that is an object, as [stateValuesEqual]
    sees it: the own entry under the key; else, when the key is the name
    of a member of [Object.prototype], that member, which has no keys of
    its own and so compares like the empty object; else [undefined]. *)
Definition valueAt (bEntries : list (string * StateValue)) (key : string)
    : option StateValue :=
  match list_find (fun entry => entry.1 = key) bEntries with
  | Some (_, (_, bValue)) => Some bValue
  | None => if inheritedName key then Some (Branch []) else None
  end.

Fixpoint stateValuesEqual (a b : StateValue) : bool :=
  match a, b with
  | Leaf x, Leaf y => String.eqb x y
  | Leaf _, Branch _ | Branch _, Leaf _ => false
  | Branch aEntries, Branch bEntries =>
      let fix every (entries : list (string * StateValue)) : bool :=
        match entries with
        | [] => true
        | (key, aValue) :: rest =>
            match valueAt bEntries key with
            | Some bValue => stateValuesEqual aValue bValue
            | None => false
            end && every rest
        end in
      bool_decide (length aEntries = length bEntries) && every aEntries
  end.

(** [typeof a !== typeof b] on state values. *)
Definition typeofDiffers (a b : StateValue) : bool :=
  match a, b with
  | Leaf _, Leaf _ | Branch _, Branch _ => false
  | _, _ => true
  end.

(** ** Resolving a step into the next state *)

Definition isAssign (action : ActionObject) : bool :=
  match type action with
  | actionTypes.assign => true
  | _ => false
  end.

(** The [switch] over the actions that are not assignments. *)
Definition resolveAction (updatedContext : TContext) (_event : SCXMLEvent)
    (actionObject : ActionObject) : Result (list ActionObject) :=
  match type actionObject with
  | actionTypes.raise => Ok [resolveRaise actionObject]
  | actionTypes.send => Ok [resolveSend actionObject updatedContext _event]
  | actionTypes.log => Ok [resolveLog actionObject updatedContext _event]
  | actionTypes.pure =>
      match get actionObject with
      | Some getActions => Ok (getActions updatedContext (data _event))
      | None => Throw TypeError
      end
  | _ => Ok [toActionObject actionObject]
  end.

Definition isRaised (action : ActionObject) : bool :=
  match type action, to action with
  | actionTypes.raise, _ => true
  | actionTypes.send, Some Internal => true
  | _, _ => false
  end.

(** [partition(items, predicate)]: the items that satisfy the predicate
    and the others, each in order. *)
Definition partition {A} (items : list A) (predicate : A -> bool)
    : list A * list A :=
  (filter (fun x => Is_true (predicate x)) items,
   filter (fun x => Is_true (negb (predicate x))) items).

Definition withoutHistory (s : State) : State :=
  mkState (value s) (context s) (st_event s) (event s) (historyValue s)
    None (st_actions s) (configuration s) (st_transitions s) (changed s).

Section Step.

(** [this.transition], as [resolveRaisedTransition] calls it back. *)
Variable transition_ : State -> Event -> Result State.

Definition resolveRaisedTransition (state : State) (_event : option Event)
    (originalEvent : SCXMLEvent) : Result State :=
  let currentActions := st_actions state in
  match _event with
  | None => Throw TypeError
  | Some e =>
      try state' := transition_ state e in
      Ok (mkState (value state') (context state') originalEvent
            (data originalEvent) (historyValue state') (st_history state')
            (currentActions ++ st_actions state') (configuration state')
            (st_transitions state') (changed state'))
  end.

(** The [while (raisedEvents.length)] loop. *)
Fixpoint drainRaised (maybeNextState : State)
    (raisedEvents : list ActionObject) (_event : SCXMLEvent) : Result State :=
  match raisedEvents with
  | [] => Ok maybeNextState
  | raisedEvent :: rest =>
      try maybeNextState' :=
        resolveRaisedTransition maybeNextState
          (EventSCXML <$> Core._event raisedEvent) _event in
      drainRaised maybeNextState' rest _event
  end.


(** What [resolveTransition] has computed when it builds [nextState]:
    the action list of [getActions], its assignments, the raised events
    and the state nodes of the resolved value. *)
Record Microstep := mkMicrostep {
  ms_nextState : State;
  ms_resolved : bool;
  ms_actions : list ActionObject;
  ms_assignActions : list ActionObject;
  ms_raisedEvents : list ActionObject;
  ms_stateNodes : list NodeRef;
  ms_history : option State
}.

(** [resolveTransition] of the machine node, up to and including
    [nextState.changed = ...] and the disposal of the penultimate
    history.  The [activities], [meta] and [children] of the next state
    are not part of this model. *)
Definition microstep (machine : StateNode)
    (stateTransition : StateTransition) (currentState : option State)
    (_event : SCXMLEvent) (context : TContext) : Result Microstep :=
  let configuration := tr_configuration stateTransition in
  let willTransition :=
    match currentState with
    | None => true
    | Some _ =>
        bool_decide (0 < length (tr_transitions stateTransition))%nat
    end in
  let resolvedStateValue :=
    if willTransition then Some (getValue machine configuration) else None in
  let historyValue_ :=
    match currentState with
    | Some cs =>
        match historyValue cs with
        | Some h => Some h
        | None =>
            match tr_source stateTransition with
            | Some _ => machineHistoryValue machine (value cs)
            | None => None
            end
        end
    | None => None
    end in
  let currentContext :=
    match currentState with
    | Some cs => Core.context cs
    | None => context
    end in
  try actions :=
    getActions machine [] stateTransition currentContext _event currentState in
  let '(assignActions, otherActions) := partition actions isAssign in
  let updatedContext :=
    if bool_decide (0 < length assignActions)%nat
    then updateContext currentContext _event assignActions currentState
    else currentContext in
  try resolvedActions :=
    flatMapR (resolveAction updatedContext _event) otherActions in
  let '(raisedEvents, nonRaisedActions) :=
    partition resolvedActions isRaised in
  (* a falsy [resolvedStateValue] behaves like [undefined] from here on *)
  let resolved :=
    match resolvedStateValue with
    | Some v => if truthyValue v then Some v else None
    | None => None
    end in
  try stateNodes :=
    match resolved with
    | Some v => getStateNodes machine v
    | None => Ok []
    end in
  try nextValue :=
    match resolved, currentState with
    | Some v, _ => Ok v
    | None, Some cs => Ok (value cs)
    | None, None => Throw TypeError
    end in
  let history :=
    match resolved, tr_source stateTransition with
    | Some _, None => None
    | _, _ => withoutHistory <$> currentState
    end in
  let nextState :=
    mkState nextValue updatedContext _event (data _event)
      (match resolved with
       | Some v => (fun h => updateHistoryValue h v) <$> historyValue_
       | None => currentState ≫= historyValue
       end)
      history
      (match resolved with Some _ => nonRaisedActions | None => [] end)
      (match resolved with
       | Some _ => tr_configuration stateTransition
       | None => default [] (Core.configuration <$> currentState)
       end)
      (tr_transitions stateTransition)
      (Some (String.eqb (name _event) update
             || bool_decide (0 < length assignActions)%nat)) in
  Ok (mkMicrostep nextState (bool_decide (is_Some resolved)) actions
        assignActions raisedEvents stateNodes history).

Definition isTransient (machine : StateNode) (stateNodes : list NodeRef)
    : bool :=
  existsb (fun ref =>
             match nodeAt machine ref with
             | Some stateNode => _transient stateNode
             | None => false
             end) stateNodes.

(** The rest of [resolveTransition]: the null-event step of a transient
    configuration, the raised events, and the final [changed]. *)
Definition resolveTransition (machine : StateNode)
    (stateTransition : StateTransition) (currentState : option State)
    (_event : SCXMLEvent) (context : TContext) : Result State :=
  try ms := microstep machine stateTransition currentState _event context in
  let nextState := ms_nextState ms in
  let history := ms_history ms in
  if negb (ms_resolved ms) then Ok nextState
  else
    try maybeNextState :=
      if isTransient machine (ms_stateNodes ms)
      then resolveRaisedTransition nextState (Some (EventName NULL_EVENT))
             _event
      else Ok nextState in
    try maybeNextState :=
      drainRaised maybeNextState (ms_raisedEvents ms) _event in
    let changed_ :=
      match changed maybeNextState with
      | Some true => Some true
      | _ =>
          match history with
          | Some h =>
              Some (bool_decide (0 < length (st_actions maybeNextState))%nat
                    || bool_decide (0 < length (ms_assignActions ms))%nat
                    || typeofDiffers (value h) (value maybeNextState)
                    || negb (stateValuesEqual (value maybeNextState)
                               (value h)))
          | None => None
          end
      end in
    Ok (mkState (value maybeNextState) (Core.context maybeNextState)
          (st_event maybeNextState) (event maybeNextState)
          (historyValue nextState) history
          (st_actions maybeNextState) (Core.configuration maybeNextState)
          (st_transitions maybeNextState) changed_).

End Step.

(** ** The public [transition]

    [transition] is modelled as it runs on the machine node, where
    [this] is the root of the definition tree. *)

(** [transition] up to its last statement: the wrapped event, the
    current state and the selected state transition with its resolved
    configuration. *)
Definition prepare (machine : StateNode) (state : StateArg)
    (event : Event) (context : option TContext)
    : Result (State * SCXMLEvent * StateTransition) :=
  let _event := toSCXMLEvent event in
  try currentState :=
    match state, context with
    | ArgState s, None => Ok s
    | _, _ => resolveCurrentState machine state context
    end in
  if negb IS_PRODUCTION && String.eqb (name _event) WILDCARD
  then Throw WildcardEvent
  else if strict machine
          && negb (bool_decide (name _event ∈ events machine))
          && negb (isBuiltInEvent (name _event))
  then Throw (EventNotAccepted (id machine) (name _event))
  else
    try selected :=
      _transition machine [] (value currentState) currentState _event in
    let stateTransition :=
      default (mkStateTransition [] [] [] [] (Some currentState) [])
              selected in
    try prevNodes := getStateNodes machine (value currentState) in
    let prevConfig := getConfiguration machine [] prevNodes in
    let resolvedConfig :=
      if bool_decide (length (tr_configuration stateTransition) = 0%nat)
      then prevConfig
      else getConfiguration machine prevConfig
             (tr_configuration stateTransition) in
    Ok (currentState, _event,
        mkStateTransition (tr_transitions stateTransition)
          (entrySet stateTransition) (exitSet stateTransition)
          resolvedConfig (tr_source stateTransition)
          (tr_actions stateTransition)).

(** [resolveRaisedTransition] re-enters [transition]; [fuel] bounds the
    depth of that recursion, as the call stack does. *)
Fixpoint transition (fuel : nat) (machine : StateNode) (state : StateArg)
    (event : Event) (context : option TContext) : Result State :=
  match fuel with
  | O => Throw StackOverflow
  | S fuel' =>
      try prepared := prepare machine state event context in
      let '(currentState, _event, stateTransition) := prepared in
      resolveTransition
        (fun s e => transition fuel' machine (ArgState s) e None)
        machine stateTransition (Some currentState) _event machineContext
  end.

(** The first microstep of [transition]. *)
Definition firstMicrostep (machine : StateNode) (state : StateArg)
    (event : Event) (context : option TContext) : Result Microstep :=
  try prepared := prepare machine state event context in
  let '(currentState, _event, stateTransition) := prepared in
  microstep machine stateTransition (Some currentState) _event machineContext.

End Core.
End Core.

(** * [State.from] of [State.ts]

    [State.from] hands back the object it was given or allocates a new
    one, so states live in a store and are referred to by location. *)

Module StateStore.

(** A context as a JavaScript value, compared with [!==]: objects by
    reference, primitives by value (numbers here are integers). *)
Inductive JsValue :=
| JsUndefined
| JsObject (ref : nat)
| JsString (s : string)
| JsNumber (n : Z)
| JsBoolean (b : bool).

Global Instance JsValue_eq_dec : EqDecision JsValue.
Proof. solve_decision. Defined.

Definition strictEquals (a b : JsValue) : bool := bool_decide (a = b).

Section StateStore.

Context {StateValue SCXMLEvent HistoryValue ActionObject ActivityMap Meta
         TEvent StateNode TransitionDefinition Actor : Type}.

(** [initEvent] of [./actions] and [EMPTY_ACTIVITY_MAP] of
    [./constants]; [dataOf] reads [_event.data]. *)
Variable initEvent : SCXMLEvent.
Variable EMPTY_ACTIVITY_MAP : ActivityMap.
Variable dataOf : SCXMLEvent -> TEvent.

(** The argument of the constructor. *)
Record StateConfig := mkStateConfig {
  cfg_value : StateValue;
  cfg_context : JsValue;
  cfg_event : SCXMLEvent;
  cfg_historyValue : option HistoryValue;
  cfg_history : option nat;
  cfg_actions : option (list ActionObject);
  cfg_activities : option ActivityMap;
  cfg_meta : option (gmap string Meta);
  cfg_events : option (list TEvent);
  cfg_configuration : list StateNode;
  cfg_transitions : list TransitionDefinition;
  cfg_children : gmap string Actor
}.

Record State := mkState {
  value : StateValue;
  context : JsValue;
  _event : SCXMLEvent;
  event : TEvent;
  historyValue : option HistoryValue;
  history : option nat;
  actions : list ActionObject;
  activities : ActivityMap;
  meta : gmap string Meta;
  events : list TEvent;
  configuration : list StateNode;
  transitions : list TransitionDefinition;
  children : gmap string Actor
}.

(** The store of [State] objects; a location is an index into it. *)
Definition Store := list State.

(** [new State(config)]: the fields, with the [||] defaults. *)
Definition construct (config : StateConfig) : State :=
  mkState (cfg_value config) (cfg_context config) (cfg_event config)
    (dataOf (cfg_event config)) (cfg_historyValue config)
    (cfg_history config) (default [] (cfg_actions config))
    (default EMPTY_ACTIVITY_MAP (cfg_activities config))
    (default ∅ (cfg_meta config)) (default [] (cfg_events config))
    (cfg_configuration config) (cfg_transitions config)
    (cfg_children config).

Definition new (store : Store) (config : StateConfig) : Store * nat :=
  (store ++ [construct config], length store).

(** [State.from(stateValue, context)]; [stateValue] is the location of
    a [State] ([instanceof State]) or a plain state value. *)
Definition from (store : Store) (stateValue : nat + StateValue)
    (context : JsValue) : option (Store * nat) :=
  match stateValue with
  | inl loc =>
      match store !! loc with
      | None => None
      | Some state =>
          if negb (strictEquals (StateStore.context state) context) then
            Some (new store
                    (mkStateConfig (value state) context (_event state)
                       (historyValue state) (history state) (Some [])
                       (Some (activities state)) (Some ∅) (Some [])
                       [] [] ∅))
          else Some (store, loc)
      end
  | inr stateValue =>
      Some (new store
              (mkStateConfig stateValue context initEvent None None
                 (Some []) None None (Some []) [] [] ∅))
  end.

End StateStore.
End StateStore.

(** * Vocabulary for the statements about the flat machine *)

Module FsmSteps.
Import Fsm.
Section FsmSteps.

Context {Value Exec : Type} `{!ObjectPrototype Exec}.
Abbreviation EventObject := (@Fsm.EventObject Value).
Abbreviation ActionObject := (@Fsm.ActionObject Value Exec).
Abbreviation Transition := (@Fsm.Transition Value Exec).
Abbreviation StateConfig := (@Fsm.StateConfig Value Exec).
Abbreviation Machine := (@Fsm.Machine Value Exec).
Abbreviation State := (@Fsm.State Value Exec).

(** The value and context [transition] starts from. *)
Definition current (m : Machine) (state : string + State)
    : string * gmap string Value :=
  match state with
  | inl s => (s, context (config m))
  | inr st => (value st, st_context st)
  end.

(** The transition a step selects: the first one in the list whose
    [cond] holds, unless an [undefined] slot comes before it. *)
Fixpoint enabled (value : string) (context : gmap string Value)
    (eventObject : EventObject) (transitions : list (option Transition))
    : option Transition :=
  match transitions with
  | [] => None
  | None :: _ => None
  | Some transition :: rest =>
      if (destructure value transition).2 context eventObject
      then Some transition
      else enabled value context eventObject rest
  end.

Definition selected (m : Machine) (state : string + State)
    (event : string + EventObject) : option (StateConfig * Transition) :=
  let '(value, context) := current m state in
  stateConfig ← stateConfigAt (config m) value;
  transitions ← lookupOn stateConfig (ev_type (toEventObject event));
  transition ← enabled value context (toEventObject event) transitions;
  Some (stateConfig, transition).

(** The actions a config field contributes: its truthy entries, as
    action objects. *)
Definition actionObjects (m : Machine) (field : SingleOrArray Action)
    : list ActionObject :=
  map (fun a => toActionObject a (_options m))
      (omap (fun a => if truthy a then a else None) (concat_arg field)).

(** The canonical action list of a step: nothing when no transition is
    selected. *)
Definition stepActions (m : Machine) (state : string + State)
    (event : string + EventObject) : list ActionObject :=
  match selected m state event with
  | Some (stateConfig, transition) =>
      let '(target, actions, _) :=
        destructure (current m state).1 transition in
      match stateConfigAt (config m) target with
      | Some nextStateConfig =>
          collectActions m stateConfig actions nextStateConfig
      | None => []
      end
  | None => []
  end.

(** Folding assignments into a context in list order: the first sees
    the given context, each later one the result of the one before. *)
Fixpoint foldAssigns (assigns : list ActionObject)
    (context : gmap string Value) (eventObject : EventObject)
    : Result (gmap string Value) :=
  match assigns with
  | [] => Ok context
  | a :: rest =>
      try context' := applyAssignment a context eventObject in
      foldAssigns rest context' eventObject
  end.

End FsmSteps.
End FsmSteps.

(** * Vocabulary for the statements about the hierarchical interpreter *)

Module CoreSteps.
Import Core.

(** A state value is a JavaScript object: no key occurs twice in it. *)
Fixpoint uniqueKeys (v : StateValue) : bool :=
  match v with
  | Leaf _ => true
  | Branch entries =>
      let fix each (entries : list (string * StateValue)) : bool :=
        match entries with
        | [] => true
        | (_, sub) :: rest => uniqueKeys sub && each rest
        end in
      bool_decide (NoDup (map fst entries)) && each entries
  end.

(** No key of the value, at any depth, is the name of a member of
    [Object.prototype]. *)
Fixpoint plainKeys (v : StateValue) : bool :=
  match v with
  | Leaf _ => true
  | Branch entries =>
      let fix each (entries : list (string * StateValue)) : bool :=
        match entries with
        | [] => true
        | (key, sub) :: rest =>
            negb (inheritedName key) && plainKeys sub && each rest
        end in
      each entries
  end.

Section CoreSteps.

Context {TContext TEvent Payload Activity Data StateIn HistoryValue : Type}.
Context `{!@Imports TContext TEvent Payload Activity Data StateIn HistoryValue}.

Abbreviation State :=
  (@Core.State TContext TEvent Payload Activity StateIn HistoryValue).
Abbreviation ActionObject :=
  (@Core.ActionObject TContext TEvent Payload Activity).

(** The context a microstep starts from, and the one it hands on: the
    assignments of the action list, in list order, given to
    [updateContext] together with the context the step started from. *)
Definition currentContextOf (cs : option State) (context : TContext)
    : TContext :=
  match cs with
  | Some c => Core.context c
  | None => context
  end.

Definition updatedContextOf (cs : option State) (context : TContext)
    (_event : SCXMLEvent) (actions : list ActionObject) : TContext :=
  let assignActions := filter (fun a => Is_true (isAssign a)) actions in
  if bool_decide (0 < length assignActions)%nat
  then updateContext (currentContextOf cs context) _event assignActions cs
  else currentContextOf cs context.

(** The state [transition] works from: the [State] it was given, when
    no context comes with it, and else what resolving the state
    argument gives. *)
Definition currentStateOf
    (machine : @Core.StateNode TContext TEvent Payload Activity Data
                  StateIn)
    (state : @Core.StateArg TContext TEvent Payload Activity StateIn
                HistoryValue)
    (context : option TContext)
    : Result (@Core.State TContext TEvent Payload Activity StateIn
                HistoryValue) :=
  match state, context with
  | ArgState s, None => Ok s
  | _, _ => resolveCurrentState machine state context
  end.


(** The actions one node contributes when it is exited and when it is
    entered. *)
Definition exitActionsAt
    (machine : @Core.StateNode TContext TEvent Payload Activity Data StateIn)
    (ref : NodeRef) : list ActionObject :=
  match nodeAt machine ref with
  | Some stateNode => onExit stateNode ++ map stop (activities stateNode)
  | None => []
  end.

Definition entryActionsAt
    (machine : @Core.StateNode TContext TEvent Payload Activity Data StateIn)
    (ref : NodeRef) : list ActionObject :=
  match nodeAt machine ref with
  | Some stateNode => map start (activities stateNode) ++ onEntry stateNode
  | None => []
  end.

(** The entry and exit sets of a step, as [getActions] resolves them
    from the previous state and the selected state transition. *)
Definition stepSets
    (machine : @Core.StateNode TContext TEvent Payload Activity Data StateIn)
    (this : NodeRef)
    (transition : @Core.StateTransition TContext TEvent Payload Activity
                    StateIn HistoryValue)
    (prevNodes : list NodeRef) : list NodeRef * list NodeRef :=
  let prevConfig := getConfiguration machine [] prevNodes in
  let resolvedConfig :=
    if bool_decide (length (tr_configuration transition) = 0%nat)
    then prevConfig
    else getConfiguration machine prevConfig (tr_configuration transition) in
  resolveSets this transition prevConfig resolvedConfig.

(** The action list as the specification words it: the exit actions of the
    nodes in the exit set, the actions of the transition, the entry
    actions of the nodes in the entry set. *)
Definition claimedActions
    (machine : @Core.StateNode TContext TEvent Payload Activity Data StateIn)
    (transition : @Core.StateTransition TContext TEvent Payload Activity
                    StateIn HistoryValue)
    (entrySet exitSet : list NodeRef) : list ActionObject :=
  flat_map (fun ref => default [] (onExit <$> nodeAt machine ref))
           (exitStates machine exitSet)
  ++ tr_actions transition
  ++ flat_map (fun ref => default [] (onEntry <$> nodeAt machine ref))
              (entryStates machine entrySet).

End CoreSteps.
End CoreSteps.

(** * Machines to run the interpreters on *)

Module Examples.

(** ** Flat machines for xstate-fsm *)

Module FsmX.
Import Fsm.

(** The [exec] functions of the examples are all the same value, the
    members of [Object.prototype] among them. *)
#[global] Instance unitPrototype : ObjectPrototype unit := fun _ => tt.

Definition inc : @Action Z unit :=
  ActionObj
    (mkAction (Some ASSIGN_ACTION) None
       (Some (PropertyAssigner
                [("count",
                  PropFn (fun ctx _ => (default 0 (ctx !! "count") + 1)%Z))]))).

Definition double : @Action Z unit :=
  ActionObj
    (mkAction (Some ASSIGN_ACTION) None
       (Some (Assigner
                (fun ctx _ =>
                   <["count" := (2 * default 0 (ctx !! "count"))%Z]> ctx)))).

(** [active] counts on INC, goes to [done] on STOP and forbids TIMER;
    [done] has no transitions at all. *)
Definition counterStates : gmap string (@StateConfig Z unit) :=
  <["active" :=
      mkStateConfig
        (Some (<["INC" := Single (TransitionObj None
                                    (Some (Array [Some inc; Some double;
                                                  Some (ActionName "log")]))
                                    None)]>
                 (<["STOP" := Single (TransitionTarget "done")]>
                    (<["TIMER" := Undefined]> ∅))))
        (Single (ActionName "enterActive"))
        (Single (ActionName "exitActive"))]>
    (<["done" := mkStateConfig None Undefined Undefined]> ∅).

Definition counterConfig : @Config Z unit :=
  mkConfig (Some "counter") "active" (<["count" := 0%Z]> ∅) counterStates.

Definition counter : @Machine Z unit := mkMachine counterConfig None.

End FsmX.

(** ** An implementation of the imports

    A context is an integer, an event object is its type and an
    assignment is a function on the context. *)

Module CoreX.
Import Core.

Abbreviation SCXMLEvent := (@Core.SCXMLEvent string).
Abbreviation ActionObject := (@Core.ActionObject Z string (Z -> Z) string).
Abbreviation TransitionDefinition :=
  (@Core.TransitionDefinition Z string (Z -> Z) string unit).
Abbreviation StateNode :=
  (@Core.StateNode Z string (Z -> Z) string unit unit).
Abbreviation State :=
  (@Core.State Z string (Z -> Z) string unit StateValue).
Abbreviation StateArg :=
  (@Core.StateArg Z string (Z -> Z) string unit StateValue).
Abbreviation Event := (@Core.Event string).

(** Modelled from the spec: [toSCXMLEvent] of [./utils], which wraps an
    event as [{ name, data }]. *)
Definition wrap (event : Event) : SCXMLEvent :=
  match event with
  | EventName type => mkSCXML type type
  | EventObj e => mkSCXML e e
  | EventSCXML e => e
  end.

Definition plain (type : ActionType) : ActionObject :=
  mkAction type None None None None None None.

(** [this.states[stateValue]] where a state node is needed. *)
Definition ownState (machine : StateNode) (this : NodeRef)
    (stateValue : string) : Result NodeRef :=
  match nodeAt machine this with
  | None => Throw TypeError
  | Some sn =>
      match list_find (fun child => key child = stateValue) (states sn) with
      | Some (i, _) => Ok (this ++ [i])
      | None => Throw TypeError
      end
  end.

(** [getStateNodes] of the node [this], for state values whose keys
    hold no delimiter ([toStateValue] leaves them as they are): the
    nodes the keys name, then those of the values under them, a key
    without a value standing for its initial state.  The callers read
    the nodes of the result, so the function is taken to throw where
    the code would put a value that is no state node into it.  [fuel]
    bounds the call stack. *)
Fixpoint stateNodesFrom
    `{!@Imports Z string (Z -> Z) string unit unit StateValue}
    (fuel : nat) (machine : StateNode) (this : NodeRef)
    (stateValue : StateValue) : Result (list NodeRef) :=
  match fuel with
  | O => Throw StackOverflow
  | S fuel =>
      match stateValue with
      | Leaf "" => Ok []
      | Leaf leaf =>
          try found := getStateNode machine this leaf in
          try child := asStateNode found in
          match nodeAt machine child ≫= initial with
          | Some initialStateValue =>
              stateNodesFrom fuel machine this
                (Branch [(leaf, Leaf initialStateValue)])
          | None =>
              try stateNode := ownState machine this leaf in
              Ok [stateNode]
          end
      | Branch entries =>
          try subStateNodes :=
            fold_right (fun entry acc =>
                          try found := getStateNode machine this entry.1 in
                          try subStateNode := asStateNode found in
                          try rest := acc in
                          Ok (subStateNode :: rest))
                       (Ok []) entries in
          try below :=
            fold_left (fun acc entry =>
                         try allSubStateNodes := acc in
                         try found := getStateNode machine this entry.1 in
                         try subStateNode := asStateNode found in
                         try nodes :=
                           stateNodesFrom fuel machine subStateNode entry.2 in
                         Ok (allSubStateNodes ++ nodes))
                      entries (Ok []) in
          Ok (subStateNodes ++ below)
      end
  end.

(** Modelled from the spec: [getValue] of [./stateUtils], the key of
    the active child of the root. *)
Definition valueOf (machine : StateNode) (configuration : list NodeRef)
    : StateValue :=
  match list_find (fun ref : NodeRef => length ref = 1%nat) configuration with
  | Some (_, ref) =>
      match nodeAt machine ref with
      | Some sn => Leaf (key sn)
      | None => Leaf ""
      end
  | None => Leaf ""
  end.

(** Modelled from the spec: [updateContext] of [./utils], which
    applies the assign actions in order, each to the result of the one
    before. *)
Definition applyAssigns (context : Z) (assignActions : list ActionObject) : Z :=
  fold_left (fun acc assignAction =>
               match payload assignAction with
               | Some assignment => assignment acc
               | None => acc
               end)
            assignActions context.

(** Modelled from the spec: [resolveRaise] and [resolveSend] of
    [./actions], which wrap the event of the action. *)
Definition withEvent (action : ActionObject) : ActionObject :=
  mkAction (type action) (act_event action) (wrap <$> act_event action)
    (to action) (activity action) (get action) (payload action).

Definition initialOf (v : StateValue) (context : Z) : State :=
  mkState v context (wrap (EventName "xstate.init")) "xstate.init" None None
    [] [] [] None.

(** Modelled from the spec: the imports of [StateNode.ts] that are not
    among the sources at hand, for machines whose states are children of
    the root: a configuration is the given nodes with their ancestors,
    the built-in events are those named [done.*] and [error.*], and the
    update event is [xstate.update].  [getStateNodes], a method of the
    source, is given. *)
Definition importsWith
    (getStateNodes : StateNode -> StateValue -> Result (list NodeRef))
  : @Imports Z string (Z -> Z) string unit unit StateValue := {|
  toSCXMLEvent := wrap;
  isBuiltInEvent := fun name =>
    String.prefix "done." name || String.prefix "error." name;
  update := "xstate.update";
  IS_PRODUCTION := false;
  guards := ∅;
  memberGuard := fun _ _ _ => Ok true;
  machineContext := 0%Z;
  getConfiguration := fun _ _ stateNodes =>
    setFrom [] (stateNodes ++ flat_map properAncestors stateNodes);
  getStateNodes := getStateNodes;
  getValue := valueOf;
  isInFinalState := fun _ _ _ => false;
  mapContext := fun d _ _ => d;
  getRelativeStateNodes := fun _ stateNode _ => [stateNode];
  stateInId := fun _ => None;
  matchesPath := fun _ _ _ => Ok true;
  matchesRelative := fun _ _ _ _ => Ok true;
  nodeProperty := fun _ _ name => Throw (ChildNotFound name);
  machineHistoryValue := fun _ v => Some v;
  updateHistoryValue := fun _ v => v;
  updateContext := fun context _ assignActions _ =>
    applyAssigns context assignActions;
  resolveRaise := withEvent;
  resolveSend := fun action _ _ => withEvent action;
  resolveLog := fun action _ _ => action;
  toActionObject := fun action => action;
  start := fun a =>
    mkAction actionTypes.start None None None (Some a) None None;
  stop := fun a =>
    mkAction actionTypes.stop None None None (Some a) None None;
  raise := fun e =>
    mkAction actionTypes.raise (Some (EventObj e)) None None None None None;
  done := fun id _ => "done.state." +:+ id;
  resolveCurrentState := fun _ arg context =>
    match arg with
    | ArgState s =>
        Ok (mkState (value s) (default 0%Z context) (st_event s) (event s)
              (historyValue s) (st_history s) [] [] [] None)
    | ArgValue v => Ok (initialOf v (default 0%Z context))
    | ArgString s => Ok (initialOf (Leaf s) (default 0%Z context))
    end
|}.

(** A call stack deeper than the machines of this file need. *)
Definition stackLimit : nat := 64.

(** [getStateNodes] of the machine.  [getStateNode], which it calls,
    reads nothing of the imports but [nodeProperty]. *)
Definition stateNodesOf (machine : StateNode) (v : StateValue)
    : Result (list NodeRef) :=
  @stateNodesFrom (importsWith (fun _ _ => Ok [])) stackLimit machine [] v.

#[export] Instance flatImports
  : @Imports Z string (Z -> Z) string unit unit StateValue :=
  importsWith stateNodesOf.


Definition node (key id : string) (type : NodeType)
    (onEntry onExit : list ActionObject) (activities : list string)
    (transitions : list TransitionDefinition) (strict transient : bool)
    (children : list StateNode) : StateNode :=
  mkStateNode key id type (-1) None onEntry onExit activities transitions
    strict transient None children.

Definition named (name : string) : ActionObject := plain (actionTypes.custom name).

Definition goto (eventType : string) (source target : NodeRef)
    (actions : list ActionObject) : TransitionDefinition :=
  mkTransition eventType None None (Some [target]) actions false source.

(** The light machine of [strict.test.ts], with [red] kept atomic. *)
Definition lightConfig (strict : bool) : StateNode :=
  node "light" "light" compound [] [] [] [] strict false
    [node "green" "light.green" atomic
       [named "enter_green"] [named "exit_green"] []
       [goto "TIMER" [0] [1] []; goto "POWER_OUTAGE" [0] [2] [];
        goto "NOTHING" [0] [0] []]
       false false [];
     node "yellow" "light.yellow" atomic
       [named "enter_yellow"] [named "exit_yellow"] []
       [goto "TIMER" [1] [2] []; goto "POWER_OUTAGE" [1] [2] []]
       false false [];
     node "red" "light.red" atomic
       [named "enter_red"] [named "exit_red"] []
       [goto "TIMER" [2] [0] []; goto "POWER_OUTAGE" [2] [2] [];
        goto "NOTHING" [2] [2] []]
       false false []]%nat.

Definition lightMachine (strict : bool) : StateNode :=
  Machine (lightConfig strict).

Definition green : State := initialOf (Leaf "green") 0.

Definition assignWith (assignment : Z -> Z) : ActionObject :=
  mkAction actionTypes.assign None None None None None (Some assignment).

Definition raiseName (type : string) : ActionObject :=
  mkAction actionTypes.raise (Some (EventName type)) None None None None None.

Definition pureOf (actions : list ActionObject) : ActionObject :=
  mkAction actionTypes.pure None None None None (Some (fun _ _ => actions))
    None.

(** [a] handles GO without a target by a pure action that returns an
    assignment, STEP by raising NEXT on the way to [b], BOTH without a
    target by raising E1 and E2, and E1 without a target by an
    assignment; [b] goes to [c] on NEXT and back to [a] on BACK; [c]
    goes to [b] on STEP and raises BACK there. *)
Definition chainConfig : StateNode :=
  node "chain" "chain" compound [] [] [] [] false false
    [node "a" "chain.a" atomic [] [] ["beep"]
       [mkTransition "GO" None None None
          [pureOf [assignWith (fun c => c + 1)%Z]] true [0];
        goto "STEP" [0] [1] [raiseName "NEXT"];
        mkTransition "BOTH" None None None
          [raiseName "E1"; raiseName "E2"] true [0];
        mkTransition "E1" None None None
          [assignWith (fun c => c + 5)%Z] true [0]]
       false false [];
     node "b" "chain.b" atomic [named "enter_b"] [] []
       [goto "NEXT" [1] [2] [assignWith (fun c => c + 10)%Z];
        goto "BACK" [1] [0] []]
       false false [];
     node "c" "chain.c" final [] [] []
       [goto "STEP" [2] [1] [raiseName "BACK"]]
       false false []]%nat.

Definition chainMachine : StateNode := Machine chainConfig.

Definition chainA : State := initialOf (Leaf "a") 0.
Definition chainB : State := initialOf (Leaf "b") 0.
Definition chainC : State := initialOf (Leaf "c") 0.

(** A statechart with nesting, to order entry and exit sets on. *)
Definition nestedConfig : StateNode :=
  node "m" "m" compound [named "enter_m"] [named "exit_m"] [] [] false false
    [node "p" "m.p" compound [named "enter_p"] [named "exit_p"] ["tick"] []
       false false
       [node "p1" "m.p.p1" atomic [named "enter_p1"] [named "exit_p1"] []
          [] false false [];
        node "p2" "m.p.p2" atomic [named "enter_p2"] [named "exit_p2"] []
          [] false false []];
     node "q" "m.q" atomic [named "enter_q"] [named "exit_q"] [] []
       false false []].

Definition nestedMachine : StateNode := Machine nestedConfig.

(** The state in [p1], and a state transition that leaves [p] for [q]
    with [p] in its exit set and [q] in its entry set, as [next] at [p]
    makes it for a transition with target [q]. *)
Definition inP1 : State := initialOf (Branch [("p", Leaf "p1")]) 0.

Definition leavingP
  : @Core.StateTransition Z string (Z -> Z) string unit StateValue :=
  mkStateTransition [goto "GO" [0] [1] [named "go"]] [[1]] [[0]] [[1]]
    (Some inP1) [named "go"]%nat.

(** A node with an eventless, a named and a wildcard transition. *)
Definition wildNode : StateNode :=
  node "w" "w" atomic [] [] []
    [goto "" [] [] []; goto "PING" [] [] []; goto "*" [] [] []]
    false true [].

End CoreX.

(** ** A store with one state *)

Module StoreX.
Import StateStore.

Definition State :=
  @StateStore.State string string unit string unit unit string unit unit unit.

Definition first : State :=
  mkState "idle" (JsObject 7) "xstate.init" "xstate.init" None None
    ["entered"] tt ∅ [] [] [] ∅.

Definition store : list State := [first].

End StoreX.
End Examples.


(** * The interpreter of xstate-fsm

    [interpret] wraps a machine into a service that holds the current
    state, a status and a set of listeners.  What the service calls out
    to (the [exec] functions of actions, the listeners) is recorded as a
    list of calls, in the order the calls are made; the functions called
    are taken not to call back into the service. *)

Module FsmService.
Import Fsm.

Inductive InterpreterStatus := NotStarted | Running | Stopped.

Section FsmService.

Context {Value Exec : Type} `{!ObjectPrototype Exec}.
Abbreviation EventObject := (@Fsm.EventObject Value).
Abbreviation State := (@Fsm.State Value Exec).

(** A call of an [exec] function with a context and an event, or of a
    listener (a function, told apart by its identity) with a state. *)
Inductive Call :=
| Executed (exec : Exec) (context : gmap string Value) (event : EventObject)
| Notified (listener : nat) (state : State).

(** What [interpret] uses of a machine. *)
Record MachineObject := mkMachineObject {
  initialState : State;
  transition : State -> string + EventObject -> Result State
}.

Record Service := mkService {
  _machine : MachineObject;
  state : State;
  status : InterpreterStatus;
  listeners : list nat
}.

(** The machine object of [createMachine] over a config, given its
    initial state. *)
Definition machineObject (m : @Fsm.Machine Value Exec) (initial : State)
    : MachineObject :=
  mkMachineObject initial (fun s event => Fsm.transition m (inr s) event).

Definition executeStateActions (state : State) (event : EventObject)
    : list Call :=
  omap (fun action =>
          (fun f => Executed f (st_context state) event) <$> exec action)
       (st_actions state).

Definition interpret (machine : MachineObject) : Service :=
  mkService machine (initialState machine) NotStarted [].

(** [Set.prototype.add]: a member is not added again and keeps its
    place. *)
Definition setAdd (listener : nat) (listeners : list nat) : list nat :=
  if bool_decide (listener ∈ listeners) then listeners
  else listeners ++ [listener].

(** [Set.prototype.delete] *)
Definition setDelete (listener : nat) (listeners : list nat) : list nat :=
  filter (fun l => l <> listener) listeners.

Definition send (service : Service) (event : string + EventObject)
    : Result (Service * list Call) :=
  match status service with
  | Running =>
      try state' := transition (_machine service) (state service) event in
      Ok (mkService (_machine service) state' (status service)
            (listeners service),
          executeStateActions state' (toEventObject event)
            ++ map (fun listener => Notified listener state')
                   (listeners service))
  | _ => Ok (service, [])
  end.

Definition subscribe (service : Service) (listener : nat)
    : Service * list Call :=
  (mkService (_machine service) (state service) (status service)
     (setAdd listener (listeners service)),
   [Notified listener (state service)]).

(** The [unsubscribe] of the object that [subscribe] returned for a
    listener. *)
Definition unsubscribe (service : Service) (listener : nat) : Service :=
  mkService (_machine service) (state service) (status service)
    (setDelete listener (listeners service)).

Definition start (service : Service) : Service * list Call :=
  (mkService (_machine service) (state service) Running (listeners service),
   executeStateActions (state service) INIT_EVENT).

Definition stop (service : Service) : Service :=
  mkService (_machine service) (state service) Stopped [].

(** Sending a list of events one after the other. *)
Fixpoint sendAll (service : Service) (events : list (string + EventObject))
    : Result (Service * list Call) :=
  match events with
  | [] => Ok (service, [])
  | event :: rest =>
      try r := send service event in
      try r' := sendAll r.1 rest in
      Ok (r'.1, r.2 ++ r'.2)
  end.

End FsmService.
End FsmService.

(** * More of [StateNode.ts] and [State.ts] *)

Module CoreMore.
Import Core.

(** [x] comes before [y] in a list. *)
Definition precedes {A} (x y : A) (l : list A) : Prop :=
  exists l1 l2 l3, l = l1 ++ x :: l2 ++ y :: l3.

(** [toStrings] of a state, on the state value it is given. *)
Fixpoint toStrings (stateValue : StateValue) (delimiter : string)
    : list string :=
  match stateValue with
  | Leaf leaf => [leaf]
  | Branch entries =>
      let fix nested (entries : list (string * StateValue)) : list string :=
        match entries with
        | [] => []
        | (key, sub) :: rest =>
            map (fun s => key +:+ delimiter +:+ s) (toStrings sub delimiter)
              ++ nested rest
        end in
      map fst entries ++ nested entries
  end.

(** The key paths of a state value that end in a leaf, and a path
    written with a delimiter. *)
Fixpoint leafPaths (v : StateValue) : list (list string) :=
  match v with
  | Leaf leaf => [[leaf]]
  | Branch entries =>
      let fix nested (entries : list (string * StateValue))
          : list (list string) :=
        match entries with
        | [] => []
        | (key, sub) :: rest => map (cons key) (leafPaths sub) ++ nested rest
        end in
      nested entries
  end.

Fixpoint joinPath (delimiter : string) (path : list string) : string :=
  match path with
  | [] => ""
  | [key] => key
  | key :: rest => key +:+ delimiter +:+ joinPath delimiter rest
  end.

Section CoreMore.

Context {TContext TEvent Payload Activity Data StateIn HistoryValue : Type}.
Context `{!@Imports TContext TEvent Payload Activity Data StateIn HistoryValue}.

Abbreviation StateNode :=
  (@Core.StateNode TContext TEvent Payload Activity Data StateIn).
Abbreviation TransitionDefinition :=
  (@Core.TransitionDefinition TContext TEvent Payload Activity StateIn).
Abbreviation State :=
  (@Core.State TContext TEvent Payload Activity StateIn HistoryValue).
Abbreviation SCXMLEvent := (@Core.SCXMLEvent TEvent).

(** The [stateIds] getter: the id of the node, then the ids of its
    descendants, child by child. *)
Fixpoint stateIds (sn : StateNode) : list string :=
  id sn :: flat_map stateIds (states sn).

(** The test of one candidate in the loop of [next]: whether its guard
    passes and its [in] state matches. *)
Definition candidatePasses (machine : StateNode) (this : NodeRef)
    (state : State) (_event : SCXMLEvent) (candidate : TransitionDefinition)
    : Result bool :=
  try isInState_ := isInState machine this state candidate in
  try guardPassed :=
    match cond candidate with
    | None => Ok true
    | Some guard => evaluateGuard guard (context state) _event
    end in
  Ok (guardPassed && isInState_).

(** Whether a transition answers to an event name, as [getCandidates]
    decides it. *)
Definition answersTo (eventName : string)
    (transition : TransitionDefinition) : Prop :=
  eventType transition = eventName
  \/ (eventName <> NULL_EVENT /\ eventType transition = WILDCARD).

End CoreMore.
End CoreMore.

(** * [State.inert] *)

Module StateInert.
Import StateStore.
Section StateInert.

Context {StateValue SCXMLEvent HistoryValue ActionObject ActivityMap Meta
         TEvent StateNode TransitionDefinition Actor : Type}.

Variable initEvent : SCXMLEvent.
Variable EMPTY_ACTIVITY_MAP : ActivityMap.
Variable dataOf : SCXMLEvent -> TEvent.

Abbreviation State :=
  (@StateStore.State StateValue SCXMLEvent HistoryValue ActionObject
     ActivityMap Meta TEvent StateNode TransitionDefinition Actor).

(** [State.inert(stateValue, context)] *)
Definition inert (store : list State) (stateValue : nat + StateValue)
    (context : JsValue) : option (list State * nat) :=
  match stateValue with
  | inl loc =>
      match store !! loc with
      | None => None
      | Some state =>
          if bool_decide (length (actions state) = 0%nat)
          then Some (store, loc)
          else
            Some (new EMPTY_ACTIVITY_MAP dataOf store
                    (mkStateConfig (value state) context initEvent
                       (historyValue state) (history state) None
                       (Some (activities state)) None None
                       (configuration state) [] ∅))
      end
  | inr _ => from initEvent EMPTY_ACTIVITY_MAP dataOf store stateValue context
  end.

End StateInert.
End StateInert.

(** * More machines and values *)

Module MoreExamples.
Import Fsm FsmService.

(** A service over the counter machine, started, with listeners 1 and
    2. *)
Definition counterInitial : @Fsm.State Z unit :=
  Fsm.mkState "active" (<["count" := 0%Z]> ∅)
    [Fsm.mkAction (Some "enterActive") None None] None.

Definition counterService : @Service Z unit :=
  mkService (machineObject Examples.FsmX.counter counterInitial)
    counterInitial Running [1; 2]%nat.

(** A state value with two regions. *)
Definition twoRegions : Core.StateValue :=
  Core.Branch [("a", Core.Leaf "a1");
               ("b", Core.Branch [("b1", Core.Leaf "x")])].

Definition twoRegionsSwapped : Core.StateValue :=
  Core.Branch [("b", Core.Branch [("b1", Core.Leaf "x")]);
               ("a", Core.Leaf "a1")].

(** A machine with guarded transitions.  From [idle], GO lists a
    transition whose guard fails, one that swaps the two counters on its
    way to [busy], and one to a state that does not exist; HALT has an
    undefined slot in front of a transition to [busy]. *)
Definition swap : @Action Z unit :=
  ActionObj
    (mkAction (Some ASSIGN_ACTION) None
       (Some (PropertyAssigner
                [("a", PropFn (fun ctx _ => default 0%Z (ctx !! "b")));
                 ("b", PropFn (fun ctx _ => default 0%Z (ctx !! "a")))]))).

Definition never : gmap string Z -> @Fsm.EventObject Z -> bool :=
  fun _ _ => false.

Definition positive : gmap string Z -> @Fsm.EventObject Z -> bool :=
  fun ctx _ => Z.ltb 0 (default 0%Z (ctx !! "a")).

Definition guardedStates : gmap string (@StateConfig Z unit) :=
  <["idle" :=
      mkStateConfig
        (Some (<["GO" := Array
                   [Some (TransitionObj (Some "busy") None (Some never));
                    Some (TransitionObj (Some "busy")
                            (Some (Array [Some swap;
                                          Some (ActionFunction "notify" tt)]))
                            (Some positive));
                    Some (TransitionTarget "missing")]]>
                 (<["HALT" := Array
                      [Some (TransitionObj (Some "busy") None (Some never));
                       None;
                       Some (TransitionTarget "busy")]]> ∅)))
        (Single (ActionName "enterIdle"))
        (Single (ActionName "exitIdle"))]>
    (<["busy" :=
         mkStateConfig (Some ∅) (Single (ActionFunction "work" tt))
           Undefined]> ∅).

Definition guardedConfig : @Config Z unit :=
  mkConfig None "idle" (<["a" := 1%Z]> (<["b" := 2%Z]> ∅)) guardedStates.

Definition guarded : @Machine Z unit := mkMachine guardedConfig None.

Definition guardedInitial : @Fsm.State Z unit :=
  Fsm.mkState "idle" (<["a" := 1%Z]> (<["b" := 2%Z]> ∅))
    [Fsm.mkAction (Some "enterIdle") None None] None.

Definition guardedService : @Service Z unit :=
  mkService (machineObject guarded guardedInitial) guardedInitial Running
    [1; 2]%nat.





End MoreExamples.

(** * Facts about the flat machine *)

Module FsmFacts.
Import Fsm FsmSteps.
Section FsmFacts.

Context {Value Exec : Type} `{!ObjectPrototype Exec}.
Implicit Types (m : @Machine Value Exec).
Implicit Types (acts kept : list (@ActionObject Value Exec)).

Lemma getProperty_own {T} (obj : gmap string T) (key : string) (v : T) :
  obj !! key = Some v -> getProperty obj key = Own v.
Proof. intros Hown. unfold getProperty. by rewrite Hown. Qed.

Lemma stateConfigAt_own (fsmConfig : @Config Value Exec) (value : string)
    stateConfig :
  states fsmConfig !! value = Some stateConfig ->
  stateConfigAt fsmConfig value = Some stateConfig.
Proof.
  intros Hown. unfold stateConfigAt. by rewrite (getProperty_own _ _ _ Hown).
Qed.

Lemma lookupOn_own (stateConfig : @StateConfig Value Exec) onMap
    (type : string) item :
  on stateConfig = Some onMap -> onMap !! type = Some item ->
  lookupOn stateConfig type = Some (toArray item).
Proof.
  intros Hon Hown. unfold lookupOn.
  by rewrite Hon, (getProperty_own _ _ _ Hown).
Qed.

Lemma filterAssign_spec acts : forall context assigned ev kept context' assigned',
  filterAssign acts context assigned ev = Ok (kept, context', assigned') ->
  kept = filter (fun a => Is_true (negb (isAssign a))) acts
  /\ foldAssigns (filter (fun a => Is_true (isAssign a)) acts) context ev
     = Ok context'
  /\ assigned' = assigned || existsb isAssign acts.
Proof.
  induction acts as [|a rest IH]; intros context assigned ev kept context'
    assigned' Hrun; simpl in Hrun.
  - injection Hrun as <- <- <-. by rewrite orb_false_r.
  - destruct (isAssign a) eqn:Ha; simpl.
    + rewrite filter_cons_False by (rewrite Ha; intros []).
      rewrite filter_cons_True by (by rewrite Ha). simpl.
      destruct (applyAssignment a context ev) as [tmp|] eqn:Happ;
        simpl in Hrun; [|done].
      destruct (IH _ _ _ _ _ _ Hrun) as (Hk & Hc & Hb).
      split; [exact Hk|]. split; [exact Hc|].
      by rewrite Hb, Ha, orb_true_r.
    + rewrite filter_cons_True by (by rewrite Ha).
      rewrite filter_cons_False by (rewrite Ha; intros []).
      destruct (filterAssign rest context assigned ev) as [[[k c] b]|] eqn:Hrest;
        simpl in Hrun; [|done].
      injection Hrun as <- <- <-.
      destruct (IH _ _ _ _ _ _ Hrest) as (Hk & Hc & Hb).
      split; [by rewrite Hk|]. split; [exact Hc|]. by rewrite Hb, Ha.
Qed.

Lemma forTransitions_enabled m stateConfig value context ev transitions :
  forTransitions m stateConfig value context ev transitions
  = match enabled value context ev transitions with
    | Some transition =>
        takeTransition m stateConfig value context ev
          (destructure value transition).1.1 (destructure value transition).1.2
    | None => Ok (createUnchangedState value context)
    end.
Proof.
  induction transitions as [|[transition|] rest IH]; simpl; try done.
  destruct (destructure value transition) as [[target actions] cond] eqn:Hd.
  simpl. destruct (cond context ev); [|exact IH]. by rewrite Hd.
Qed.

Lemma fsm_transition_current m state event :
  transition m state event
  = match stateConfigAt (config m) (current m state).1 with
    | None => Throw (StateNotFound (current m state).1)
    | Some stateConfig =>
        match lookupOn stateConfig (ev_type (toEventObject event)) with
        | Some transitions =>
            forTransitions m stateConfig (current m state).1
              (current m state).2 (toEventObject event) transitions
        | None =>
            Ok (createUnchangedState (current m state).1 (current m state).2)
        end
    end.
Proof. by destruct state. Qed.

(** No transition selected: the unchanged state comes back. *)
Lemma fsm_transition_unselected m state event stateConfig :
  stateConfigAt (config m) (current m state).1 = Some stateConfig ->
  selected m state event = None ->
  transition m state event
  = Ok (createUnchangedState (current m state).1 (current m state).2).
Proof.
  intros Hstate Hsel. rewrite fsm_transition_current, Hstate.
  unfold selected in Hsel. destruct (current m state) as [v c] eqn:Hcur.
  simpl in *. rewrite Hstate in Hsel. simpl in Hsel.
  destruct (lookupOn stateConfig _) as [ts|]; simpl in Hsel; [|done].
  rewrite forTransitions_enabled.
  destruct (enabled v c _ ts); simpl in Hsel; done.
Qed.

Lemma fsm_transition_selected m state event stateConfig transition_ :
  selected m state event = Some (stateConfig, transition_) ->
  transition m state event
  = takeTransition m stateConfig (current m state).1 (current m state).2
      (toEventObject event)
      (destructure (current m state).1 transition_).1.1
      (destructure (current m state).1 transition_).1.2.
Proof.
  intros Hsel. rewrite fsm_transition_current.
  unfold selected in Hsel. destruct (current m state) as [v c] eqn:Hcur.
  simpl in *.
  destruct (stateConfigAt (config m) v) as [sc|]; simpl in Hsel; [|done].
  destruct (lookupOn sc _) as [ts|]; simpl in Hsel; [|done].
  rewrite forTransitions_enabled.
  destruct (enabled v c _ ts); simpl in Hsel; [|done].
  by injection Hsel as -> ->.
Qed.

Lemma takeTransition_ok m stateConfig value context ev target actions
    (s' : @State Value Exec) :
  takeTransition m stateConfig value context ev target actions = Ok s' ->
  exists nextStateConfig,
    stateConfigAt (config m) target = Some nextStateConfig
    /\ let canonical := collectActions m stateConfig actions nextStateConfig in
       Fsm.value s' = target
       /\ st_actions s'
          = filter (fun a => Is_true (negb (isAssign a))) canonical
       /\ foldAssigns (filter (fun a => Is_true (isAssign a)) canonical)
            context ev = Ok (st_context s')
       /\ changed s'
          = Some (negb (String.eqb target value)
                  || bool_decide (0 < length (st_actions s'))%nat
                  || existsb isAssign canonical).
Proof.
  unfold takeTransition. intros Hrun.
  destruct (stateConfigAt (config m) target) as [next|]; [|done].
  exists next. split; [done|].
  destruct (filterAssign _ context false ev) as [[[kept c] b]|] eqn:Hf;
    simpl in Hrun; [|done].
  injection Hrun as <-. simpl.
  destruct (filterAssign_spec _ _ _ _ _ _ _ Hf) as (Hk & Hc & Hb).
  rewrite Hb. simpl. by rewrite <- Hk.
Qed.

Lemma nonempty_length {A} (l : list A) :
  bool_decide (0 < length l)%nat = true <-> l <> [].
Proof.
  rewrite bool_decide_eq_true. destruct l; simpl; split; try done; lia.
Qed.

Lemma existsb_elem {A} (f : A -> bool) (l : list A) :
  existsb f l = true <-> exists a, a ∈ l /\ f a = true.
Proof.
  rewrite existsb_exists. by setoid_rewrite list_elem_of_In.
Qed.

(** What a returned state holds, in terms of the step's action list. *)
Lemma fsm_transition_ok m state event (s' : @State Value Exec) :
  transition m state event = Ok s' ->
  let canonical := stepActions m state event in
  st_actions s' = filter (fun a => Is_true (negb (isAssign a))) canonical
  /\ foldAssigns (filter (fun a => Is_true (isAssign a)) canonical)
       (current m state).2 (toEventObject event) = Ok (st_context s')
  /\ changed s'
     = Some (negb (String.eqb (Fsm.value s') (current m state).1)
             || bool_decide (0 < length (st_actions s'))%nat
             || existsb isAssign canonical).
Proof.
  intros Hrun. unfold stepActions.
  destruct (selected m state event) as [[stateConfig transition_]|] eqn:Hsel.
  - rewrite (fsm_transition_selected _ _ _ _ _ Hsel) in Hrun.
    destruct (destructure (current m state).1 transition_)
      as [[target actions] cond] eqn:Hd. simpl in Hrun.
    apply takeTransition_ok in Hrun
      as (next & Hnext & Hval & Hacts & Hctx & Hch).
    rewrite Hnext. simpl. by rewrite Hval.
  - rewrite fsm_transition_current in Hrun.
    destruct (stateConfigAt (config m) (current m state).1)
      as [stateConfig|] eqn:Hstate; [|done].
    pose proof (fsm_transition_unselected m state event _ Hstate Hsel) as Hun.
    rewrite fsm_transition_current, Hstate in Hun. rewrite Hun in Hrun.
    injection Hrun as <-. simpl. by rewrite String.eqb_refl.
Qed.

(** The step's action list is the exit actions of the current state,
    then the actions of the transition, then the entry actions of the
    target state. *)
Lemma fsm_stepActions_phases m state event stateConfig transition_
    nextStateConfig :
  selected m state event = Some (stateConfig, transition_) ->
  stateConfigAt (config m) (destructure (current m state).1 transition_).1.1
    = Some nextStateConfig ->
  stepActions m state event
  = actionObjects m (exit stateConfig)
    ++ actionObjects m (destructure (current m state).1 transition_).1.2
    ++ actionObjects m (entry nextStateConfig).
Proof.
  intros Hsel Hnext. unfold stepActions. rewrite Hsel.
  destruct (destructure (current m state).1 transition_)
    as [[target actions] cond]. simpl in *. rewrite Hnext.
  unfold collectActions, actionObjects. by rewrite !omap_app, !map_app.
Qed.

End FsmFacts.
End FsmFacts.

(** * Facts about the hierarchical interpreter *)

Module CoreFacts.
Import Core CoreSteps.
Section CoreFacts.

Context {TContext TEvent Payload Activity Data StateIn HistoryValue : Type}.
Context `{!@Imports TContext TEvent Payload Activity Data StateIn HistoryValue}.

Abbreviation StateNode :=
  (@Core.StateNode TContext TEvent Payload Activity Data StateIn).
Abbreviation TransitionDefinition :=
  (@Core.TransitionDefinition TContext TEvent Payload Activity StateIn).
Abbreviation State :=
  (@Core.State TContext TEvent Payload Activity StateIn HistoryValue).
Abbreviation ActionObject :=
  (@Core.ActionObject TContext TEvent Payload Activity).
Abbreviation Event := (@Core.Event TEvent).
Abbreviation SCXMLEvent := (@Core.SCXMLEvent TEvent).
Abbreviation StateTransition :=
  (@Core.StateTransition TContext TEvent Payload Activity StateIn
     HistoryValue).

(** ** Candidates *)

Lemma filterCandidates_null (sn : StateNode) (t : TransitionDefinition) :
  t ∈ filterCandidates sn NULL_EVENT
  <-> t ∈ transitions sn /\ eventType t = NULL_EVENT.
Proof.
  unfold filterCandidates. rewrite list_elem_of_filter. simpl.
  rewrite Is_true_true, String.eqb_eq. tauto.
Qed.

Lemma filterCandidates_named (sn : StateNode) (eventName : string)
    (t : TransitionDefinition) :
  eventName <> NULL_EVENT ->
  t ∈ filterCandidates sn eventName
  <-> t ∈ transitions sn
      /\ (eventType t = eventName \/ eventType t = WILDCARD).
Proof.
  intros Hne. unfold filterCandidates. rewrite list_elem_of_filter.
  apply String.eqb_neq in Hne. rewrite Hne.
  rewrite Is_true_true, orb_true_iff, !String.eqb_eq. tauto.
Qed.

Lemma getCandidates_plain (sn : StateNode) (eventName : string) :
  inheritedName eventName = false ->
  getCandidates sn eventName = CandidateList (filterCandidates sn eventName).
Proof. intros Hplain. unfold getCandidates. by rewrite Hplain. Qed.

Lemma getCandidates_member (sn : StateNode) (eventName : string) :
  inheritedName eventName = true ->
  getCandidates sn eventName = CandidatesMember eventName.
Proof. intros Hmember. unfold getCandidates. by rewrite Hmember. Qed.

Lemma getCandidatesCached_coherent
    (cache : gmap string (list TransitionDefinition)) (sn : StateNode)
    (eventName : string) :
  cacheCoherent cache sn ->
  (getCandidatesCached cache sn eventName).1 = getCandidates sn eventName
  /\ cacheCoherent (getCandidatesCached cache sn eventName).2 sn.
Proof.
  intros Hcache. unfold getCandidatesCached, getProperty, getCandidates.
  destruct (cache !! eventName) as [hit|] eqn:Hhit; simpl.
  - destruct (Hcache _ _ Hhit) as [-> ->]. by split.
  - destruct (inheritedName eventName) eqn:Hmember; simpl; [by split|].
    split; [done|]. intros e c. rewrite lookup_insert_Some.
    intros [[<- <-]|[_ Hold]]; [done|by apply Hcache].
Qed.

(** What [getCandidates] hands back, by the event name. *)
Lemma getCandidatesCached_spec
    (cache : gmap string (list TransitionDefinition)) (sn : StateNode)
    (eventName : string) :
  cacheCoherent cache sn ->
  (exists candidates,
     (getCandidatesCached cache sn NULL_EVENT).1 = CandidateList candidates
     /\ forall t, t ∈ candidates
                  <-> t ∈ transitions sn /\ eventType t = NULL_EVENT)
  /\ (eventName <> NULL_EVENT -> inheritedName eventName = false ->
      exists candidates,
        (getCandidatesCached cache sn eventName).1 = CandidateList candidates
        /\ forall t, t ∈ candidates
                     <-> t ∈ transitions sn
                         /\ (eventType t = eventName
                             \/ eventType t = WILDCARD))
  /\ (inheritedName eventName = true ->
      (getCandidatesCached cache sn eventName).1
      = CandidatesMember eventName)
  /\ cacheCoherent (getCandidatesCached cache sn eventName).2 sn.
Proof.
  intros Hcache.
  destruct (getCandidatesCached_coherent cache sn NULL_EVENT Hcache)
    as [-> _].
  destruct (getCandidatesCached_coherent cache sn eventName Hcache)
    as [-> Hcache'].
  split_and!.
  - eexists. split; [by apply getCandidates_plain|].
    apply filterCandidates_null.
  - intros Hne Hplain. eexists.
    split; [by apply getCandidates_plain|].
    intros t. by apply filterCandidates_named.
  - apply getCandidates_member.
  - done.
Qed.

(** ** Strict mode *)

Lemma prepare_strict (machine : StateNode) state event context :
  strict machine = true ->
  name (toSCXMLEvent event) ∉ events machine ->
  isBuiltInEvent (name (toSCXMLEvent event)) = false ->
  exists e, prepare machine state event context = Throw e.
Proof.
  intros Hstrict Hnot Hbuiltin. unfold prepare.
  destruct (match state, context with
            | ArgState s, None => Ok s
            | _, _ => resolveCurrentState machine state context
            end) as [cs|e]; simpl; [|by eexists].
  destruct (negb IS_PRODUCTION && _); [by eexists|].
  rewrite Hstrict, Hbuiltin, bool_decide_eq_false_2 by done. by eexists.
Qed.

Lemma prepare_strict_state (machine : StateNode) (s : State) event :
  strict machine = true ->
  name (toSCXMLEvent event) ∉ events machine ->
  isBuiltInEvent (name (toSCXMLEvent event)) = false ->
  IS_PRODUCTION = true \/ name (toSCXMLEvent event) <> WILDCARD ->
  prepare machine (ArgState s) event None
  = Throw (EventNotAccepted (id machine) (name (toSCXMLEvent event))).
Proof.
  intros Hstrict Hnot Hbuiltin Hwild. unfold prepare. simpl.
  replace (negb IS_PRODUCTION && _) with false.
  - by rewrite Hstrict, Hbuiltin, bool_decide_eq_false_2 by done.
  - destruct Hwild as [-> | Hne]; [done|].
    apply String.eqb_neq in Hne. rewrite Hne. by rewrite andb_false_r.
Qed.


(** ** What a microstep computes *)

Lemma microstep_inv (machine : StateNode) stateTransition (cs : option State)
    (_event : SCXMLEvent) (context : TContext) ms :
  microstep machine stateTransition cs _event context = Ok ms ->
  exists resolvedActions,
    getActions machine [] stateTransition (currentContextOf cs context)
      _event cs = Ok (ms_actions ms)
    /\ ms_assignActions ms
       = filter (fun a => Is_true (isAssign a)) (ms_actions ms)
    /\ flatMapR
         (resolveAction (updatedContextOf cs context _event (ms_actions ms))
            _event)
         (filter (fun a => Is_true (negb (isAssign a))) (ms_actions ms))
       = Ok resolvedActions
    /\ ms_raisedEvents ms
       = filter (fun a => Is_true (isRaised a)) resolvedActions
    /\ Core.context (ms_nextState ms)
       = updatedContextOf cs context _event (ms_actions ms)
    /\ st_event (ms_nextState ms) = _event
    /\ event (ms_nextState ms) = data _event
    /\ st_actions (ms_nextState ms)
       = (if ms_resolved ms
          then filter (fun a => Is_true (negb (isRaised a))) resolvedActions
          else [])
    /\ changed (ms_nextState ms)
       = Some (String.eqb (name _event) update
               || bool_decide (0 < length (ms_assignActions ms))%nat)
    /\ (ms_resolved ms = false ->
        forall c, cs = Some c ->
          value (ms_nextState ms) = value c
          /\ ms_history ms = Some (withoutHistory c))
    /\ (forall c, cs = Some c ->
        tr_source stateTransition <> None ->
        ms_history ms = Some (withoutHistory c))
    /\ st_history (ms_nextState ms) = ms_history ms
    /\ (tr_transitions stateTransition = [] -> is_Some cs ->
        ms_resolved ms = false).
Proof.
  unfold microstep. intros Hrun.
  fold (currentContextOf cs context) in Hrun.
  destruct (getActions machine [] stateTransition _ _event cs)
    as [actions|] eqn:Hact; simpl in Hrun; [|done].
  fold (updatedContextOf cs context _event actions) in Hrun.
  destruct (flatMapR _ (filter _ actions)) as [resolvedActions|] eqn:Hres;
    simpl in Hrun; [|done].
  exists resolvedActions.
  set (resolved := match (if match cs with Some _ => _ | None => true end
                          then Some _ else None) with
                   | Some v => if truthyValue v then Some v else None
                   | None => None
                   end) in Hrun.
  destruct (match resolved with
            | Some v => getStateNodes machine v
            | None => Ok []
            end) as [stateNodes|]; simpl in Hrun; [|done].
  destruct (match resolved, cs with
            | Some v, _ => Ok v
            | None, Some c => Ok (value c)
            | None, None => Throw TypeError
            end) as [nextValue|] eqn:Hval; simpl in Hrun; [|done].
  injection Hrun as <-. simpl.
  split_and!; try done.
  - by destruct resolved.
  - intros Hnot c0 ->. apply bool_decide_eq_false in Hnot.
    destruct resolved as [v|]; [by destruct Hnot|].
    by injection Hval as <-.
  - intros c0 -> Hsrc. by destruct resolved, (tr_source stateTransition).
  - intros Hnil [c0 ->]. apply bool_decide_eq_false.
    subst resolved. rewrite Hnil. simpl. by intros [? ?].
Qed.


(** ** The event a returned state carries *)

Section Callback.

Variable transition_ : State -> Event -> Result State.

Lemma resolveRaisedTransition_event (state : State) e originalEvent s' :
  resolveRaisedTransition transition_ state e originalEvent = Ok s' ->
  st_event s' = originalEvent /\ event s' = data originalEvent.
Proof.
  unfold resolveRaisedTransition. destruct e as [e|]; [|done].
  destruct (transition_ state e) as [state'|]; simpl; [|done].
  by intros [= <-].
Qed.

Lemma drainRaised_event raisedEvents : forall (s0 : State) _event s',
  st_event s0 = _event -> event s0 = data _event ->
  drainRaised transition_ s0 raisedEvents _event = Ok s' ->
  st_event s' = _event /\ event s' = data _event.
Proof.
  induction raisedEvents as [|raisedEvent rest IH]; intros s0 _event s' H1 H2;
    simpl.
  - by intros [= <-].
  - destruct (resolveRaisedTransition _ s0 _ _event) as [s1|] eqn:Hstep;
      simpl; [|done].
    apply resolveRaisedTransition_event in Hstep as [? ?]. by apply IH.
Qed.

Lemma resolveTransition_event (machine : StateNode) stateTransition cs
    _event context s' :
  resolveTransition transition_ machine stateTransition cs _event context
  = Ok s' ->
  st_event s' = _event /\ event s' = data _event.
Proof.
  unfold resolveTransition.
  destruct (microstep machine stateTransition cs _event context)
    as [ms|] eqn:Hms; simpl; [|done].
  apply microstep_inv in Hms
    as (resolvedActions & _ & _ & _ & _ & _ & Hev & Hdata & _).
  destruct (ms_resolved ms); simpl; [|by intros [= <-]].
  destruct (if isTransient machine (ms_stateNodes ms) then _ else _)
    as [s1|] eqn:Hnull; simpl; [|done].
  assert (st_event s1 = _event /\ event s1 = data _event) as [H1 H2].
  { destruct (isTransient machine (ms_stateNodes ms)).
    - by apply (resolveRaisedTransition_event (ms_nextState ms)
                  (Some (EventName NULL_EVENT)) _event s1) in Hnull.
    - by injection Hnull as <-. }
  destruct (drainRaised _ s1 _ _event) as [s2|] eqn:Hdrain; simpl; [|done].
  apply drainRaised_event in Hdrain as [? ?]; [|done..].
  by intros [= <-].
Qed.

End Callback.

(** ** The source of a selected state transition *)

Lemma StateValue_nested_ind (P : StateValue -> Prop) :
  (forall leaf, P (Leaf leaf)) ->
  (forall entries, Forall (fun entry => P entry.2) entries ->
                   P (Branch entries)) ->
  forall v, P v.
Proof.
  intros Hleaf Hbranch. fix IH 1. intros [leaf|entries].
  - apply Hleaf.
  - apply Hbranch. induction entries as [|[k v] rest IHrest].
    + constructor.
    + constructor; [apply IH|apply IHrest].
Qed.

Lemma next_source (machine : StateNode) this (state : State)
    (_event : SCXMLEvent) (st : StateTransition) :
  next machine this state _event = Ok (Some st) ->
  tr_source st = Some state.
Proof.
  unfold next. destruct (nodeAt machine this) as [sn|]; [|done].
  destruct (getCandidates sn (name _event)) as [candidates|?]; simpl; [|done].
  destruct (selectCandidate _ _ _ _ _) as [[sel|]|]; simpl; try done.
  destruct (bool_decide _); by intros [= <-].
Qed.

Lemma _transition_source (machine : StateNode) (state : State)
    (_event : SCXMLEvent) stateValue :
  forall this (st : StateTransition),
    _transition machine this stateValue state _event = Ok (Some st) ->
    tr_source st = Some state.
Proof.
  induction stateValue as [leaf|entries IH] using StateValue_nested_ind;
    intros this st; simpl.
  - destruct (getStateNode machine this leaf) as [[sn|?]|]; simpl; [|done..].
    destruct (next machine sn state _event) as [next_|] eqn:Hnext;
      simpl; [|done].
    destruct (noTransitions next_); [apply next_source|].
    intros [= ->]. by apply next_source in Hnext.
  - set (regions := fix regions (entries : list (string * StateValue)) := _).
    assert (forall this0,
              (try stateTransitions := regions entries in
               if negb (existsb
                          (fun st0 : StateTransition =>
                             bool_decide (0 < length (tr_transitions st0))%nat)
                          stateTransitions)
               then next machine this0 state _event
               else Ok (Some (mkStateTransition
                                (flat_map tr_transitions stateTransitions)
                                (flat_map entrySet stateTransitions)
                                (flat_map exitSet stateTransitions)
                                (flat_map tr_configuration stateTransitions)
                                (Some state)
                                (flat_map tr_actions stateTransitions))))
              = Ok (Some st) -> tr_source st = Some state) as Hpar.
    { intros this0. destruct (regions entries) as [sts|]; simpl; [|done].
      destruct (negb _); [apply next_source|]. by intros [= <-]. }
    destruct entries as [|[k v] [|e2 rest]]; try apply Hpar.
    apply Forall_cons in IH as [IHv _]. simpl in IHv.
    destruct (getStateNode machine this k) as [[sn|?]|]; simpl; [|done..].
    destruct (_transition machine sn v state _event) as [next_|] eqn:Hnext;
      simpl; [|done].
    destruct (noTransitions next_); [apply next_source|].
    intros [= ->]. by apply IHv in Hnext.
Qed.

Lemma prepare_inv (machine : StateNode) state event context cs _event st :
  prepare machine state event context = Ok (cs, _event, st) ->
  _event = toSCXMLEvent event
  /\ (forall s, state = ArgState s -> context = None -> cs = s)
  /\ (strict machine = true ->
      name _event ∈ events machine \/ isBuiltInEvent (name _event) = true)
  /\ exists selected prevNodes,
       _transition machine [] (value cs) cs _event = Ok selected
       /\ getStateNodes machine (value cs) = Ok prevNodes
       /\ tr_transitions st
          = default [] (tr_transitions <$> selected)
       /\ tr_source st <> None
       /\ (selected = None ->
           entrySet st = [] /\ exitSet st = [] /\ tr_actions st = []
           /\ tr_configuration st = getConfiguration machine [] prevNodes).
Proof.
  unfold prepare.
  destruct (match state, context with
            | ArgState s, None => Ok s
            | _, _ => resolveCurrentState machine state context
            end) as [cs0|] eqn:Hcs; simpl; [|done].
  destruct (negb IS_PRODUCTION && _); [done|].
  destruct (strict machine && _ && _) eqn:Hstrict; [done|].
  destruct (_transition machine [] (value cs0) cs0 _) as [selected|] eqn:Hsel;
    simpl; [|done].
  destruct (getStateNodes machine (value cs0)) as [prevNodes|] eqn:Hnodes;
    simpl; [|done].
  intros [= <- <- <-]. split_and!; try done.
  - intros s -> ->. by injection Hcs as ->.
  - intros Hs. rewrite Hs in Hstrict. simpl in Hstrict.
    apply andb_false_iff in Hstrict as [Hin|Hb].
    + left. apply negb_false_iff, bool_decide_eq_true in Hin. done.
    + right. by apply negb_false_iff in Hb.
  - exists selected, prevNodes. simpl. split_and!; try done.
    + by destruct selected.
    + destruct selected as [st0|]; simpl; [|done].
      by rewrite (_transition_source _ _ _ _ _ _ Hsel).
    + by intros ->.
Qed.


Lemma transition_event fuel (machine : StateNode) state ev context
    (s' : State) :
  transition fuel machine state ev context = Ok s' ->
  st_event s' = toSCXMLEvent ev /\ event s' = data (toSCXMLEvent ev).
Proof.
  destruct fuel as [|fuel]; simpl; [done|].
  destruct (prepare machine state ev context) as [[[cs _event] st]|]
    eqn:Hprep; simpl; [|done].
  apply prepare_inv in Hprep as (-> & _).
  apply resolveTransition_event.
Qed.

(** ** A step without internal events *)

Lemma typeofDiffers_not_equal (a b : StateValue) :
  typeofDiffers a b = true -> stateValuesEqual b a = false.
Proof. by destruct a, b. Qed.

Lemma list_find_first_key (entries : list (string * StateValue)) k v :
  NoDup (map fst entries) -> (k, v) ∈ entries ->
  exists i, list_find (fun entry => entry.1 = k) entries = Some (i, (k, v)).
Proof.
  induction entries as [|[k0 v0] rest IH]; simpl; intros Hnd Hin.
  - by apply elem_of_nil in Hin.
  - apply NoDup_cons in Hnd as [Hfresh Hnd].
    destruct (decide (k0 = k)) as [->|Hne].
    + apply elem_of_cons in Hin as [[= ->]|Hin]; [by eexists|].
      destruct Hfresh. apply list_elem_of_fmap. by exists (k, v).
    + apply elem_of_cons in Hin as [[= -> ->]|Hin]; [done|].
      destruct (IH Hnd Hin) as [i ->]. by eexists.
Qed.

Lemma stateValuesEqual_refl v :
  uniqueKeys v = true -> stateValuesEqual v v = true.
Proof.
  induction v as [leaf|entries IH] using StateValue_nested_ind; simpl.
  - intros _. by apply String.eqb_eq.
  - intros [Hnd Heach]%andb_true_iff. apply bool_decide_eq_true in Hnd.
    rewrite bool_decide_eq_true_2 by done. simpl.
    assert (forall part, part ⊆ entries ->
              (fix each (entries : list (string * StateValue)) : bool :=
                 match entries with
                 | [] => true
                 | (_, sub) :: rest => uniqueKeys sub && each rest
                 end) part = true ->
              (fix every (es : list (string * StateValue)) : bool :=
                 match es with
                 | [] => true
                 | (key, aValue) :: rest =>
                     match valueAt entries key with
                     | Some bValue => stateValuesEqual aValue bValue
                     | None => false
                     end && every rest
                 end) part = true) as Hall.
    { induction part as [|[k v] rest IHpart]; intros Hsub Hu; [done|].
      apply andb_true_iff in Hu as [Hv Hrest].
      assert ((k, v) ∈ entries) as Hin by (apply Hsub; left).
      unfold valueAt.
      destruct (list_find_first_key entries k v Hnd Hin) as [i ->].
      rewrite Forall_forall in IH. specialize (IH _ Hin Hv). simpl in IH.
      rewrite IH. simpl.
      apply IHpart; [|done]. intros x Hx. apply Hsub. by right. }
    by apply Hall.
Qed.


Lemma resolveTransition_single transition_ (machine : StateNode)
    stateTransition (cs : State) _event context ms :
  microstep machine stateTransition (Some cs) _event context = Ok ms ->
  tr_source stateTransition <> None ->
  uniqueKeys (value cs) = true ->
  (ms_resolved ms = true ->
   isTransient machine (ms_stateNodes ms) = false
   /\ ms_raisedEvents ms = []) ->
  exists s' : State,
    resolveTransition transition_ machine stateTransition (Some cs) _event
      context = Ok s'
    /\ value s' = value (ms_nextState ms)
    /\ Core.context s' = Core.context (ms_nextState ms)
    /\ st_actions s' = st_actions (ms_nextState ms)
    /\ changed s'
       = Some (String.eqb (name _event) update
               || bool_decide (0 < length (ms_assignActions ms))%nat
               || bool_decide (0 < length (st_actions s'))%nat
               || negb (stateValuesEqual (value s') (value cs))).
Proof.
  intros Hms Hsrc Hunique Hsingle. unfold resolveTransition. rewrite Hms.
  simpl.
  apply microstep_inv in Hms
    as (resolvedActions & _ & _ & _ & _ & _ & _ & _ & Hact & Hch & Hno
        & Hhist & _).
  destruct (ms_resolved ms) eqn:Hres; simpl.
  - destruct (Hsingle eq_refl) as [-> ->]. simpl.
    eexists. split; [reflexivity|]. simpl. split_and!; try done.
    rewrite (Hhist cs eq_refl Hsrc), Hch. simpl.
    destruct (String.eqb _ update || _) eqn:Hfirst; simpl; [done|].
    apply orb_false_iff in Hfirst as [_ Hassign]. rewrite Hassign. simpl.
    f_equal. rewrite orb_false_r.
    destruct (typeofDiffers _ _) eqn:Htype; simpl.
    + apply typeofDiffers_not_equal in Htype. rewrite Htype.
      by rewrite !orb_true_r.
    + by rewrite orb_false_r.
  - eexists. split; [reflexivity|]. split_and!; try done.
    destruct (Hno eq_refl cs eq_refl) as [Hval _].
    rewrite Hch, Hact, Hval, (stateValuesEqual_refl _ Hunique). simpl.
    by rewrite !orb_false_r.
Qed.

(** [transition] is its preparation followed by [resolveTransition]. *)
Lemma transition_single fuel (machine : StateNode) (s : State) ev ms :
  firstMicrostep machine (ArgState s) ev None = Ok ms ->
  uniqueKeys (value s) = true ->
  (ms_resolved ms = true ->
   isTransient machine (ms_stateNodes ms) = false
   /\ ms_raisedEvents ms = []) ->
  exists s' : State,
    transition (S fuel) machine (ArgState s) ev None = Ok s'
    /\ value s' = value (ms_nextState ms)
    /\ Core.context s' = Core.context (ms_nextState ms)
    /\ st_actions s' = st_actions (ms_nextState ms)
    /\ changed s'
       = Some (String.eqb (name (toSCXMLEvent ev)) update
               || bool_decide (0 < length (ms_assignActions ms))%nat
               || bool_decide (0 < length (st_actions s'))%nat
               || negb (stateValuesEqual (value s') (value s))).
Proof.
  unfold firstMicrostep. simpl.
  destruct (prepare machine (ArgState s) ev None) as [[[cs _event] st]|]
    eqn:Hprep; simpl; [|done].
  apply prepare_inv in Hprep
    as (-> & Hcs & _ & selected & prevNodes & _ & _ & _ & Hsrc & _).
  rewrite (Hcs s eq_refl eq_refl). intros Hms Hunique Hsingle.
  by apply resolveTransition_single.
Qed.


(** ** A step that selects nothing *)

Lemma filter_none {A} (P : A -> Prop) `{forall x, Decision (P x)} (l : list A) :
  (forall x, x ∈ l -> ~ P x) -> filter P l = [].
Proof.
  induction l as [|x l IH]; intros Hnone; [done|].
  rewrite filter_cons_False by (apply Hnone; left).
  apply IH. intros y Hy. apply Hnone. by right.
Qed.






(** ** Where the emitted actions of a microstep come from *)

Lemma flatMapR_elem {A B} (f : A -> Result (list B)) (xs : list A) :
  forall ys y, flatMapR f xs = Ok ys -> y ∈ ys ->
  exists x rs, x ∈ xs /\ f x = Ok rs /\ y ∈ rs.
Proof.
  induction xs as [|x rest IH]; intros ys y; simpl.
  - intros [= <-] Hy. by apply elem_of_nil in Hy.
  - destruct (f x) as [rs|] eqn:Hfx; simpl; [|done].
    destruct (flatMapR f rest) as [zs|] eqn:Hrest; simpl; [|done].
    intros [= <-] [Hy|Hy]%elem_of_app.
    + exists x, rs. split_and!; [left|done..].
    + destruct (IH zs y eq_refl Hy) as (x' & rs' & Hx' & Hf & Hin).
      exists x', rs'. split_and!; [by right|done..].
Qed.

Lemma microstep_emitted (machine : StateNode) stateTransition
    (cs : option State) (_event : SCXMLEvent) (context : TContext) ms
    (emitted : ActionObject) :
  microstep machine stateTransition cs _event context = Ok ms ->
  emitted ∈ st_actions (ms_nextState ms) ->
  exists action resolved,
    action ∈ ms_actions ms
    /\ isAssign action = false
    /\ resolveAction (updatedContextOf cs context _event (ms_actions ms))
         _event action = Ok resolved
    /\ emitted ∈ resolved.
Proof.
  intros Hms Hin.
  apply microstep_inv in Hms
    as (resolvedActions & _ & _ & Hres & _ & _ & _ & _ & Hact & _).
  rewrite Hact in Hin. destruct (ms_resolved ms).
  - apply list_elem_of_filter in Hin as [_ Hin].
    destruct (flatMapR_elem _ _ _ _ Hres Hin) as (a & rs & Ha & Hf & He).
    apply list_elem_of_filter in Ha as [Hna Ha].
    exists a, rs. split_and!; try done.
    by destruct (isAssign a).
  - by apply elem_of_nil in Hin.
Qed.


End CoreFacts.

(** ** Sorting by a key and removing duplicates *)

Section Sorting.

Context {A : Type} `{EqDecision A}.
Variable key : A -> Z.
Variable compare : A -> A -> Z.
Hypothesis compare_key : forall x y, (compare x y <= 0)%Z <-> (key x <= key y)%Z.

Local Abbreviation le := (fun x y : A => (key x <= key y)%Z).
Local Abbreviation lt := (fun x y : A => (key x < key y)%Z).

Lemma insertSorted_Permutation x (l : list A) :
  insertSorted compare x l ≡ₚ x :: l.
Proof.
  induction l as [|y l IH]; simpl; [done|].
  destruct (compare x y <=? 0)%Z; [done|].
  rewrite IH. apply Permutation_swap.
Qed.

Lemma sort_Permutation (l : list A) : sort compare l ≡ₚ l.
Proof.
  induction l as [|x l IH]; simpl; [done|].
  unfold sort in *. simpl. by rewrite insertSorted_Permutation, IH.
Qed.

Lemma insertSorted_sorted x (l : list A) :
  StronglySorted le l -> StronglySorted le (insertSorted compare x l).
Proof.
  induction 1 as [|y l Hl IH Hy]; simpl.
  - repeat constructor.
  - destruct (Z.leb_spec (compare x y) 0) as [Hle|Hgt].
    + apply compare_key in Hle. constructor; [by constructor|].
      constructor; [done|]. eapply Forall_impl; [exact Hy|].
      intros z Hz. simpl in *. lia.
    + constructor; [done|].
      rewrite insertSorted_Permutation. constructor; [|done].
      destruct (Z.le_gt_cases (key x) (key y)) as [Hc|Hc]; [|lia].
      apply compare_key in Hc. lia.
Qed.

Lemma sort_sorted (l : list A) : StronglySorted le (sort compare l).
Proof.
  induction l as [|x l IH]; [constructor|]. by apply insertSorted_sorted.
Qed.

Lemma setFrom_elem (xs : list A) : forall seen x,
  x ∈ setFrom seen xs <-> x ∈ xs /\ x ∉ seen.
Proof.
  induction xs as [|y xs IH]; intros seen x; simpl.
  - rewrite elem_of_nil. tauto.
  - destruct (bool_decide_reflect (y ∈ seen)) as [Hin|Hout].
    + rewrite IH, elem_of_cons. split; [tauto|].
      intros [[->|?] ?]; tauto.
    + rewrite !elem_of_cons, IH, not_elem_of_cons.
      destruct (decide (x = y)) as [->|]; tauto.
Qed.

Lemma setFrom_NoDup (xs : list A) : forall seen, NoDup (setFrom seen xs).
Proof.
  induction xs as [|y xs IH]; intros seen; simpl; [constructor|].
  destruct (bool_decide (y ∈ seen)); [done|].
  constructor; [|done]. rewrite setFrom_elem, not_elem_of_cons. tauto.
Qed.

Lemma setFrom_sorted (R : relation A) (xs : list A) : forall seen,
  StronglySorted R xs -> StronglySorted R (setFrom seen xs).
Proof.
  induction xs as [|y xs IH]; intros seen Hs; simpl; [constructor|].
  apply StronglySorted_inv in Hs as [Hxs Hy].
  destruct (bool_decide (y ∈ seen)); [by apply IH|].
  constructor; [by apply IH|].
  rewrite Forall_forall in Hy |- *. intros z [Hz _]%setFrom_elem. by apply Hy.
Qed.

(** On elements with pairwise different keys, sorted without
    duplicates is strictly sorted. *)
Lemma sorted_NoDup_strict (l : list A) :
  (forall x y, x ∈ l -> y ∈ l -> key x = key y -> x = y) ->
  NoDup l -> StronglySorted le l -> StronglySorted lt l.
Proof.
  induction l as [|x l IH]; intros Hinj Hnd Hs; [constructor|].
  apply NoDup_cons in Hnd as [Hx Hnd].
  apply StronglySorted_inv in Hs as [Hs Hle].
  constructor.
  - apply IH; [|done..]. intros a b Ha Hb. apply Hinj; by right.
  - rewrite Forall_forall in Hle |- *. intros y Hy.
    specialize (Hle y Hy). simpl in *.
    destruct (decide (key x = key y)) as [Heq|]; [|lia].
    destruct Hx. rewrite (Hinj x y); [done|by left|by right|done].
Qed.

Lemma sortedSet_strict (xs : list A) :
  (forall x y, x ∈ xs -> y ∈ xs -> key x = key y -> x = y) ->
  StronglySorted lt (setFrom [] (sort compare xs)).
Proof.
  intros Hinj. apply sorted_NoDup_strict.
  - intros x y [Hx _]%setFrom_elem [Hy _]%setFrom_elem.
    rewrite sort_Permutation in Hx, Hy. by apply Hinj.
  - apply setFrom_NoDup.
  - apply setFrom_sorted, sort_sorted.
Qed.

(** The result depends on which elements are in the set, not on the
    sequence in which they were inserted. *)
Lemma sortedSet_insertion_order (xs ys : list A) :
  (forall x y, x ∈ xs -> y ∈ xs -> key x = key y -> x = y) ->
  (forall x, x ∈ xs <-> x ∈ ys) ->
  setFrom [] (sort compare xs) = setFrom [] (sort compare ys).
Proof.
  intros Hinj Hsame.
  assert (forall x y, x ∈ ys -> y ∈ ys -> key x = key y -> x = y) as Hinj'.
  { intros x y Hx Hy. apply Hinj; by apply Hsame. }
  apply (StronglySorted_unique_strong lt).
  - intros x y _ _ Hxy Hyx. simpl in *. lia.
  - by apply sortedSet_strict.
  - by apply sortedSet_strict.
  - apply NoDup_Permutation; try apply setFrom_NoDup.
    intros x. rewrite !setFrom_elem, !sort_Permutation, Hsame. done.
Qed.

End Sorting.

Lemma StronglySorted_weaken {A} (R1 R2 : relation A) (l : list A) :
  (forall x y, R1 x y -> R2 x y) -> StronglySorted R1 l -> StronglySorted R2 l.
Proof.
  intros Himpl. induction 1 as [|x l _ IH Hx]; constructor; [done|].
  eapply Forall_impl; [exact Hx|]. intros y. apply Himpl.
Qed.


(** ** Document order numbers the nodes of a machine apart *)

Section Numbering.

Context {TContext TEvent Payload Activity Data StateIn : Type}.
Abbreviation Node :=
  (@Core.StateNode TContext TEvent Payload Activity Data StateIn).

Lemma StateNode_nested_ind (P : Node -> Prop) :
  (forall sn, Forall P (states sn) -> P sn) -> forall sn, P sn.
Proof.
  intros Hnode. fix IH 1. intros sn. apply Hnode.
  destruct sn as [? ? ? ? ? ? ? ? ? ? ? ? children]. simpl.
  induction children as [|child rest IHrest]; constructor;
    [apply IH|apply IHrest].
Qed.

(** The loop over the children inside [dfs]. *)
Local Abbreviation dfsChildren :=
  (fix dfsChildren (next : Z) (children : list Node) : list Node * Z :=
     match children with
     | [] => ([], next)
     | child :: rest =>
         let '(child', next') := dfs next child in
         let '(rest', next'') := dfsChildren next' rest in
         (child' :: rest', next'')
     end).

Lemma dfs_unfold next (sn : Node) :
  dfs next sn
  = (mkStateNode (key sn) (id sn) (node_type sn) next (initial sn)
       (onEntry sn) (onExit sn) (activities sn) (transitions sn)
       (strict sn) (_transient sn) (node_data sn)
       (dfsChildren (next + 1)%Z (states sn)).1,
     (dfsChildren (next + 1)%Z (states sn)).2).
Proof.
  destruct sn as [? ? ? ? ? ? ? ? ? ? ? ? children]. simpl.
  by destruct (dfsChildren (next + 1)%Z children).
Qed.

Local Abbreviation numberedFrom next r :=
  ((next < r.2)%Z
   /\ (forall ref n, nodeAt r.1 ref = Some n ->
         (next <= order n < r.2)%Z /\ (order n = next -> ref = []))
   /\ (forall r1 r2 n1 n2,
         nodeAt r.1 r1 = Some n1 -> nodeAt r.1 r2 = Some n2 ->
         order n1 = order n2 -> r1 = r2)).

Local Abbreviation childrenNumberedFrom next r :=
  ((next <= r.2)%Z
   /\ (forall (i : nat) c ref n,
         r.1 !! i = Some c -> nodeAt c ref = Some n ->
         (next <= order n < r.2)%Z)
   /\ (forall (i1 i2 : nat) c1 c2 r1 r2 n1 n2,
         r.1 !! i1 = Some c1 -> r.1 !! i2 = Some c2 ->
         nodeAt c1 r1 = Some n1 -> nodeAt c2 r2 = Some n2 ->
         order n1 = order n2 -> i1 = i2 /\ r1 = r2)).

Lemma dfsChildren_numbered (children : list Node) :
  Forall (fun sn => forall next, numberedFrom next (dfs next sn)) children ->
  forall next, childrenNumberedFrom next (dfsChildren next children).
Proof.
  induction 1 as [|child rest Hchild _ IH]; intros next; simpl.
  - split_and!; [lia|..]; intros; by simplify_list_eq.
  - destruct (Hchild next) as (Hlt & Hrange & Hinj).
    destruct (dfs next child) as [child' next'] eqn:Hdfs. simpl in *.
    destruct (IH next') as (Hle & Hrange' & Hinj').
    destruct (dfsChildren next' rest) as [rest' next''] eqn:Hrest.
    simpl in *. split_and!; [lia|..].
    + intros [|i] c ref n Hc Hn; simpl in Hc.
      * injection Hc as <-. destruct (Hrange ref n Hn). lia.
      * specialize (Hrange' i c ref n Hc Hn). lia.
    + intros [|i1] [|i2] c1 c2 r1 r2 n1 n2 Hc1 Hc2 Hn1 Hn2 Heq;
        simpl in Hc1, Hc2.
      * injection Hc1 as <-. injection Hc2 as <-.
        split; [done|]. by eapply Hinj.
      * injection Hc1 as <-. destruct (Hrange r1 n1 Hn1).
        specialize (Hrange' i2 c2 r2 n2 Hc2 Hn2). lia.
      * injection Hc2 as <-. destruct (Hrange r2 n2 Hn2).
        specialize (Hrange' i1 c1 r1 n1 Hc1 Hn1). lia.
      * destruct (Hinj' i1 i2 c1 c2 r1 r2 n1 n2) as [-> ->]; done.
Qed.

Lemma dfs_numbered (sn : Node) : forall next, numberedFrom next (dfs next sn).
Proof.
  induction sn as [sn IH] using StateNode_nested_ind. intros next.
  rewrite dfs_unfold.
  destruct (dfsChildren_numbered _ IH (next + 1)%Z) as (Hle & Hrange & Hinj).
  destruct (dfsChildren (next + 1)%Z (states sn)) as [children' next'].
  simpl in *. split_and!; [lia|..].
  - intros [|i ref] n; simpl.
    + intros [= <-]. simpl. split; [lia|done].
    + destruct (children' !! i) as [c|] eqn:Hc; [|done]. intros Hn.
      specialize (Hrange i c ref n Hc Hn). split; [lia|]. lia.
  - intros [|i1 r1] [|i2 r2] n1 n2; simpl.
    + done.
    + intros [= <-]. destruct (children' !! i2) as [c|] eqn:Hc; [|done].
      intros Hn. specialize (Hrange i2 c r2 n2 Hc Hn). simpl. lia.
    + destruct (children' !! i1) as [c|] eqn:Hc; [|done].
      intros Hn [= <-]. specialize (Hrange i1 c r1 n1 Hc Hn). simpl. lia.
    + destruct (children' !! i1) as [c1|] eqn:Hc1; [|done].
      destruct (children' !! i2) as [c2|] eqn:Hc2; [|done].
      intros Hn1 Hn2 Heq.
      destruct (Hinj i1 i2 c1 c2 r1 r2 n1 n2) as [-> ->]; done.
Qed.

(** In a constructed machine, two references with the same [order] are
    the same node. *)
Lemma order_injective (config : Node) (r1 r2 : NodeRef) :
  is_Some (nodeAt (Machine config) r1) ->
  is_Some (nodeAt (Machine config) r2) ->
  orderOf (Machine config) r1 = orderOf (Machine config) r2 ->
  r1 = r2.
Proof.
  unfold orderOf, Machine. intros [n1 Hn1] [n2 Hn2]. rewrite Hn1, Hn2.
  destruct (dfs_numbered config 0) as (_ & _ & Hinj). by eapply Hinj.
Qed.

End Numbering.


(** ** The action list of a step *)

Section Actions.

Context {TContext TEvent Payload Activity Data StateIn HistoryValue : Type}.
Context `{!@Imports TContext TEvent Payload Activity Data StateIn HistoryValue}.

Lemma flatMapR_total {A B} (f : A -> Result (list B)) (g : A -> list B)
    (xs : list A) :
  (forall x, x ∈ xs -> f x = Ok (g x)) ->
  flatMapR f xs = Ok (flat_map g xs).
Proof.
  induction xs as [|x xs IH]; intros Hf; simpl; [done|].
  rewrite (Hf x) by left. rewrite IH; [done|].
  intros y Hy. apply Hf. by right.
Qed.

Lemma flatMapR_inv {A B} (f : A -> Result (list B)) (g : A -> list B)
    (xs : list A) ys :
  (forall x rs, f x = Ok rs -> rs = g x) ->
  flatMapR f xs = Ok ys -> ys = flat_map g xs.
Proof.
  intros Hf. revert ys. induction xs as [|x xs IH]; intros ys; simpl.
  - by intros [= <-].
  - destruct (f x) as [rs|] eqn:Hfx; simpl; [|done].
    destruct (flatMapR f xs) as [zs|]; simpl; [|done].
    intros [= <-]. by rewrite (Hf x rs Hfx), (IH zs eq_refl).
Qed.

Lemma actionsOfSets_phases
    (machine : @Core.StateNode TContext TEvent Payload Activity Data StateIn)
    (transition : @Core.StateTransition TContext TEvent Payload Activity
                    StateIn HistoryValue)
    currentContext _event entrySet exitSet actions :
  actionsOfSets machine transition currentContext _event entrySet exitSet
  = Ok actions ->
  exists doneEvents,
    flatMapR (doneEventsOf machine transition currentContext _event) entrySet
    = Ok doneEvents
    /\ actions
       = toActionObjects
           (flat_map (exitActionsAt machine) (exitStates machine exitSet))
         ++ toActionObjects (tr_actions transition)
         ++ toActionObjects
              (flat_map (entryActionsAt machine)
                 (entryStates machine entrySet))
         ++ toActionObjects (map raise doneEvents).
Proof.
  unfold actionsOfSets.
  destruct (flatMapR (doneEventsOf _ _ _ _) entrySet) as [doneEvents|];
    simpl; [|done].
  destruct (flatMapR (entryActionsOf machine) _) as [entryActions|] eqn:Hen;
    simpl; [|done].
  destruct (flatMapR (exitActionsOf machine) _) as [exitActions|] eqn:Hex;
    simpl; [|done].
  intros [= <-]. exists doneEvents. split; [done|].
  apply (flatMapR_inv _ (entryActionsAt machine)) in Hen; cycle 1.
  { intros ref rs. unfold entryActionsOf, entryActionsAt.
    destruct (nodeAt machine ref); [|done]. by intros [= <-]. }
  apply (flatMapR_inv _ (exitActionsAt machine)) in Hex; cycle 1.
  { intros ref rs. unfold exitActionsOf, exitActionsAt.
    destruct (nodeAt machine ref); [|done]. by intros [= <-]. }
  subst. unfold toActionObjects. by rewrite !map_app.
Qed.

Lemma getActions_sets
    (machine : @Core.StateNode TContext TEvent Payload Activity Data StateIn)
    this transition currentContext _event prevState actions :
  getActions machine this transition currentContext _event prevState
  = Ok actions ->
  exists entrySet exitSet : list NodeRef,
    actionsOfSets machine transition currentContext _event entrySet exitSet
    = Ok actions.
Proof.
  unfold getActions.
  destruct (match prevState with
            | Some s => getStateNodes machine (value s)
            | None => Ok [this]
            end) as [prevNodes|]; simpl; [|done].
  destruct (resolveSets _ _ _ _) as [entrySet exitSet]. by eexists _, _.
Qed.

Lemma getActions_phases
    (machine : @Core.StateNode TContext TEvent Payload Activity Data StateIn)
    this
    (transition : @Core.StateTransition TContext TEvent Payload Activity
                    StateIn HistoryValue)
    currentContext _event prevState actions :
  getActions machine this transition currentContext _event prevState
  = Ok actions ->
  exists prevNodes doneEvents,
    match prevState with
    | Some s => getStateNodes machine (value s)
    | None => Ok [this]
    end = Ok prevNodes
    /\ flatMapR (doneEventsOf machine transition currentContext _event)
         (stepSets machine this transition prevNodes).1
       = Ok doneEvents
    /\ actions
       = toActionObjects
           (flat_map (exitActionsAt machine)
              (exitStates machine
                 (stepSets machine this transition prevNodes).2))
         ++ toActionObjects (tr_actions transition)
         ++ toActionObjects
              (flat_map (entryActionsAt machine)
                 (entryStates machine
                    (stepSets machine this transition prevNodes).1))
         ++ toActionObjects (map raise doneEvents).
Proof.
  unfold getActions.
  destruct (match prevState with
            | Some s => getStateNodes machine (value s)
            | None => Ok [this]
            end) as [prevNodes|]; simpl; [|done].
  intros Hact. exists prevNodes. unfold stepSets.
  destruct (resolveSets _ _ _ _) as [entrySet exitSet].
  apply actionsOfSets_phases in Hact as (doneEvents & Hdone & ->).
  exists doneEvents. split; [done|]. split; [exact Hdone|done].
Qed.

End Actions.

End CoreFacts.

(** * The statements of the specification *)

Section Specification.

Import Core CoreSteps CoreFacts Examples.CoreX.

(** C7: in the flat machine, an event whose entry under [on] is an
    explicit [undefined] is consumed: the state that comes back has the
    same value and context, no actions and [changed] false.  This holds
    in both revisions of the machine. *)
Theorem C7_forbidden_transition {Value Exec : Type}
    `{!ObjectPrototype Exec}
    (m : @Fsm.Machine Value Exec) (state : string + @Fsm.State Value Exec)
    (event : string + @Fsm.EventObject Value)
    (stateConfig : @Fsm.StateConfig Value Exec)
    (onMap : gmap string (Fsm.SingleOrArray (@Fsm.Transition Value Exec))) :
  Fsm.states (Fsm.config m) !! (FsmSteps.current m state).1
    = Some stateConfig ->
  Fsm.on stateConfig = Some onMap ->
  onMap !! Fsm.ev_type (Fsm.toEventObject event) = Some Fsm.Undefined ->
  Fsm.transition m state event
    = Ok (Fsm.mkState (FsmSteps.current m state).1
            (FsmSteps.current m state).2 [] (Some false))
  /\ FsmEarly.transition (Fsm.config m) state event
    = Ok (Fsm.mkState (FsmSteps.current m state).1
            (FsmSteps.current m state).2 [] (Some false)).
Proof.
  intros Hstate Hon Hentry.
  apply FsmFacts.stateConfigAt_own in Hstate.
  pose proof (FsmFacts.lookupOn_own _ _ _ _ Hon Hentry) as Hlist.
  split.
  - by rewrite FsmFacts.fsm_transition_current, Hstate, Hlist.
  - unfold FsmEarly.transition.
    destruct state as [v|st]; simpl in *; by rewrite Hstate, Hlist.
Qed.

Lemma C7_forbidden_transition_witness :
  Fsm.transition Examples.FsmX.counter (inl "active") (inl "TIMER")
  = Ok (Fsm.mkState "active" (<["count" := 0%Z]> ∅) [] (Some false))
  /\ FsmEarly.transition Examples.FsmX.counterConfig (inl "active")
       (inl "TIMER")
    = Ok (Fsm.mkState "active" (<["count" := 0%Z]> ∅) [] (Some false)).
Proof.
  eapply (C7_forbidden_transition Examples.FsmX.counter (inl "active")
            (inl "TIMER")); vm_compute; reflexivity.
Defined.


(** C9, on the code.  For the null event the candidates are exactly
    the transitions whose event pattern is the empty name, so no
    wildcard transition is among them, and for an event name that no
    member of [Object.prototype] bears they are exactly the transitions
    with that name or with the wildcard pattern.  Under the name of such
    a member the memo table, a plain object, holds the inherited member:
    at the name [constructor], on a node with a wildcard transition,
    [getCandidates] hands back the function [Object] and no candidates,
    and [next], which iterates over it, throws. *)
Theorem C9_inherited_event_name :
  let star := goto "*" [] [] [] in
  let state := initialOf (Leaf "w") 0 in
  star ∈ transitions wildNode
  /\ eventType star = WILDCARD
  /\ "constructor" <> NULL_EVENT
  /\ (getCandidatesCached ∅ wildNode "constructor").1
     = CandidatesMember "constructor"
  /\ (getCandidatesCached ∅ wildNode "PING").1
     = CandidateList [goto "PING" [] [] []; star]
  /\ (getCandidatesCached ∅ wildNode "OTHER").1 = CandidateList [star]
  /\ (getCandidatesCached ∅ wildNode NULL_EVENT).1
     = CandidateList [goto "" [] [] []]
  /\ next wildNode [] state (mkSCXML "constructor" "constructor")
     = Throw TypeError
  /\ (exists st,
        next wildNode [] state (mkSCXML "OTHER" "OTHER") = Ok (Some st)
        /\ tr_transitions st = [star]).
Proof.
  split_and!; try (vm_compute; reflexivity); try done.
  - set_solver.
  - eexists. split; vm_compute; reflexivity.
Qed.

(** C8, as the code has it.  On a strict machine, an event whose name
    is neither among the machine's events nor built in makes
    [transition] throw, whatever the state argument.  What is thrown is
    the error of resolving the state argument when that fails; else,
    outside production, the error that an event cannot have the
    wildcard type when the name is the wildcard, which is checked
    first; else the error that the machine does not accept the event. *)
Theorem C8_strict_unknown_event
    {TContext TEvent Payload Activity Data StateIn HistoryValue : Type}
    `{!@Imports TContext TEvent Payload Activity Data StateIn HistoryValue}
    (machine : @Core.StateNode TContext TEvent Payload Activity Data StateIn)
    (ev : @Core.Event TEvent) state context fuel :
  strict machine = true ->
  name (toSCXMLEvent ev) ∉ events machine ->
  isBuiltInEvent (name (toSCXMLEvent ev)) = false ->
  (exists e, transition (S fuel) machine state ev context = Throw e)
  /\ transition (S fuel) machine state ev context
     = match currentStateOf machine state context with
       | Throw e => Throw e
       | Ok _ =>
           if negb IS_PRODUCTION
              && String.eqb (name (toSCXMLEvent ev)) WILDCARD
           then Throw WildcardEvent
           else Throw (EventNotAccepted (id machine)
                         (name (toSCXMLEvent ev)))
       end.
Proof.
  intros Hstrict Hnot Hbuiltin.
  assert (transition (S fuel) machine state ev context
          = match currentStateOf machine state context with
            | Throw e => Throw e
            | Ok _ =>
                if negb IS_PRODUCTION
                   && String.eqb (name (toSCXMLEvent ev)) WILDCARD
                then Throw WildcardEvent
                else Throw (EventNotAccepted (id machine)
                              (name (toSCXMLEvent ev)))
            end) as Heq.
  { simpl. unfold prepare, currentStateOf.
    destruct (match state, context with
              | ArgState s, None => Ok s
              | _, _ => resolveCurrentState machine state context
              end) as [cs|e]; simpl; [|done].
    destruct (negb IS_PRODUCTION && _); [done|].
    by rewrite Hstrict, Hbuiltin, bool_decide_eq_false_2 by done. }
  split; [|exact Heq]. rewrite Heq.
  destruct (currentStateOf machine state context); [|by eexists].
  destruct (negb IS_PRODUCTION && _); by eexists.
Qed.

Lemma C8_strict_unknown_event_witness :
  strict (lightMachine true) = true
  /\ ("FOO" ∉ events (lightMachine true))
  /\ transition 1 (lightMachine true) (ArgString "green") (EventName "FOO")
       None
     = Throw (EventNotAccepted "light" "FOO").
Proof.
  assert ("FOO" ∉ events (lightMachine true)) as Hnot
    by (apply (bool_decide_unpack _); vm_compute; exact I).
  split; [reflexivity|]. split; [exact Hnot|].
  exact (proj2 (C8_strict_unknown_event (lightMachine true) (EventName "FOO")
                  (ArgString "green") None 0 eq_refl Hnot eq_refl)).
Defined.

(** C8 fails as stated for the event named [*]: it is not among the
    events of the strict light machine and is not built in, and what
    [transition] throws from [green] is not the error that the machine
    does not accept the event but the error that an event cannot have
    the wildcard type. *)
Lemma C8_wildcard_counterexample :
  strict (lightMachine true) = true
  /\ ("*" ∉ events (lightMachine true))
  /\ isBuiltInEvent "*" = false
  /\ forall fuel,
       transition (S fuel) (lightMachine true) (ArgString "green")
         (EventName "*") None
       = Throw WildcardEvent
       /\ transition (S fuel) (lightMachine true) (ArgString "green")
            (EventName "*") None
          <> Throw (EventNotAccepted "light" "*").
Proof.
  split; [reflexivity|].
  split; [apply (bool_decide_unpack _); vm_compute; exact I|].
  split; [reflexivity|].
  intros fuel.
  assert (transition (S fuel) (lightMachine true) (ArgString "green")
            (EventName "*") None = Throw WildcardEvent) as ->
    by (vm_compute; reflexivity).
  by split.
Qed.


(** C10: given a [State] and the very context that state holds,
    [State.from] gives back the same object and leaves the store as it
    is; given a [State] and any other context it allocates a new object,
    which carries the supplied context, the old value and an empty
    actions list. *)
Theorem C10_State_from
    {StateValue SCXMLEvent HistoryValue ActionObject ActivityMap Meta TEvent
     StateNode TransitionDefinition Actor : Type}
    (initEvent : SCXMLEvent) (EMPTY_ACTIVITY_MAP : ActivityMap)
    (dataOf : SCXMLEvent -> TEvent)
    (store : list (@StateStore.State StateValue SCXMLEvent HistoryValue
                     ActionObject ActivityMap Meta TEvent StateNode
                     TransitionDefinition Actor))
    (loc : nat) state (context : StateStore.JsValue) :
  store !! loc = Some state ->
  (StateStore.context state = context ->
   StateStore.from initEvent EMPTY_ACTIVITY_MAP dataOf store (inl loc) context
   = Some (store, loc))
  /\ (StateStore.context state <> context ->
      exists fresh,
        StateStore.from initEvent EMPTY_ACTIVITY_MAP dataOf store (inl loc)
          context
        = Some (store ++ [fresh], length store)
        /\ length store <> loc
        /\ StateStore.actions fresh = []
        /\ StateStore.context fresh = context
        /\ StateStore.value fresh = StateStore.value state).
Proof.
  intros Hloc. unfold StateStore.from, StateStore.strictEquals.
  pose proof (lookup_lt_Some _ _ _ Hloc) as Hlt.
  change (list_lookup loc store = Some state) in Hloc.
  change (store !! loc) with (list_lookup loc store).
  rewrite Hloc. split.
  - intros Hsame. by rewrite bool_decide_eq_true_2.
  - intros Hdiff. rewrite bool_decide_eq_false_2 by done. simpl.
    eexists. split; [reflexivity|]. split_and!; try done. lia.
Qed.

Lemma C10_State_from_witness :
  (StateStore.context Examples.StoreX.first = StateStore.JsObject 7 ->
   StateStore.from "xstate.init" tt (fun e => e) Examples.StoreX.store
     (inl 0%nat) (StateStore.JsObject 7)
   = Some (Examples.StoreX.store, 0%nat))
  /\ (StateStore.context Examples.StoreX.first <> StateStore.JsObject 7 ->
      exists fresh,
        StateStore.from "xstate.init" tt (fun e => e) Examples.StoreX.store
          (inl 0%nat) (StateStore.JsObject 7)
        = Some (Examples.StoreX.store ++ [fresh],
                length Examples.StoreX.store)
        /\ length Examples.StoreX.store <> 0%nat
        /\ StateStore.actions fresh = []
        /\ StateStore.context fresh = StateStore.JsObject 7
        /\ StateStore.value fresh
           = StateStore.value Examples.StoreX.first).
Proof.
  apply (C10_State_from "xstate.init" tt (fun e => e) Examples.StoreX.store
           0%nat Examples.StoreX.first (StateStore.JsObject 7)).
  reflexivity.
Defined.

(** C6: the state [transition] returns carries the event it was called
    with (wrapped as an SCXML event, and its data as [event]), however
    many null or raised events were processed on the way. *)
Theorem C6_original_event
    {TContext TEvent Payload Activity Data StateIn HistoryValue : Type}
    `{!@Imports TContext TEvent Payload Activity Data StateIn HistoryValue}
    (fuel : nat)
    (machine : @Core.StateNode TContext TEvent Payload Activity Data StateIn)
    state (ev : @Core.Event TEvent) context
    (s' : @Core.State TContext TEvent Payload Activity StateIn HistoryValue) :
  transition fuel machine state ev context = Ok s' ->
  st_event s' = toSCXMLEvent ev /\ event s' = data (toSCXMLEvent ev).
Proof. apply transition_event. Qed.


Lemma C6_original_event_witness :
  exists s',
    transition 3 chainMachine (ArgState chainA) (EventName "STEP") None
    = Ok s'
    /\ value s' = Leaf "c"
    /\ st_event s' = toSCXMLEvent (EventName "STEP")
    /\ event s' = data (toSCXMLEvent (EventName "STEP")).
Proof.
  eexists. split; [vm_compute; reflexivity|]. split; [reflexivity|].
  apply (C6_original_event 3 chainMachine (ArgState chainA)
           (EventName "STEP") None).
  vm_compute. reflexivity.
Defined.

(** C5: in a constructed machine, whose nodes carry their document
    order, the sorted exit set holds exactly the nodes that were put
    into the exit set, each once, in strictly descending [order], and
    the sorted entry set exactly the nodes that were put into the entry
    set, each once, in strictly ascending [order]; both depend only on
    which nodes were put into the set, not on the sequence in which they
    were put there; and the actions [getActions] returns for a step with
    these sets are the exit actions, node by node in the order of the
    sorted exit set, then the actions of the transitions, then the entry
    actions, node by node in the order of the sorted entry set, then
    the raised done events. *)
Theorem C5_sorted_sets
    {TContext TEvent Payload Activity Data StateIn HistoryValue : Type}
    `{!@Imports TContext TEvent Payload Activity Data StateIn HistoryValue}
    (config : @Core.StateNode TContext TEvent Payload Activity Data StateIn)
    (entrySet exitSet : list NodeRef) :
  Forall (fun ref => is_Some (nodeAt (Machine config) ref)) entrySet ->
  Forall (fun ref => is_Some (nodeAt (Machine config) ref)) exitSet ->
  let machine := Machine config in
  StronglySorted (fun a b => (orderOf machine a > orderOf machine b)%Z)
    (exitStates machine exitSet)
  /\ StronglySorted (fun a b => (orderOf machine a < orderOf machine b)%Z)
       (entryStates machine entrySet)
  /\ (forall sn, sn ∈ exitStates machine exitSet <-> sn ∈ exitSet)
  /\ (forall sn, sn ∈ entryStates machine entrySet <-> sn ∈ entrySet)
  /\ NoDup (exitStates machine exitSet)
  /\ NoDup (entryStates machine entrySet)
  /\ (forall exitSet',
        (forall sn, sn ∈ exitSet <-> sn ∈ exitSet') ->
        exitStates machine exitSet = exitStates machine exitSet')
  /\ (forall entrySet',
        (forall sn, sn ∈ entrySet <-> sn ∈ entrySet') ->
        entryStates machine entrySet = entryStates machine entrySet')
  /\ (forall this
             (transition : @Core.StateTransition TContext TEvent Payload
                             Activity StateIn HistoryValue)
             currentContext _event prevState actions,
        getActions machine this transition currentContext _event prevState
        = Ok actions ->
        (forall prevNodes,
           match prevState with
           | Some s => getStateNodes machine (value s)
           | None => Ok [this]
           end = Ok prevNodes ->
           stepSets machine this transition prevNodes
           = (entrySet, exitSet)) ->
        exists doneEvents,
          actions
          = toActionObjects
              (flat_map (exitActionsAt machine) (exitStates machine exitSet))
            ++ toActionObjects (tr_actions transition)
            ++ toActionObjects
                 (flat_map (entryActionsAt machine)
                    (entryStates machine entrySet))
            ++ toActionObjects (map raise doneEvents)).
Proof.
  intros Hentry Hexit machine.
  rewrite Forall_forall in Hentry, Hexit.
  assert (forall x y, x ∈ exitSet -> y ∈ exitSet ->
            (- orderOf machine x)%Z = (- orderOf machine y)%Z -> x = y)
    as Hinj_exit.
  { intros x y Hx Hy Heq. apply (order_injective config); auto.
    unfold machine in Heq. lia. }
  assert (forall x y, x ∈ entrySet -> y ∈ entrySet ->
            orderOf machine x = orderOf machine y -> x = y)
    as Hinj_entry.
  { intros x y Hx Hy Heq. apply (order_injective config); auto. }
  split_and!.
  - eapply StronglySorted_weaken;
      [|apply (sortedSet_strict (fun r => (- orderOf machine r)%Z)
                 (fun a b => (orderOf machine b - orderOf machine a)%Z));
        [intros; lia|exact Hinj_exit]].
    simpl. intros. lia.
  - apply (sortedSet_strict (orderOf machine)
             (fun a b => (orderOf machine a - orderOf machine b)%Z));
      [intros; lia|done].
  - intros sn. unfold exitStates.
    rewrite setFrom_elem, sort_Permutation. split; [tauto|].
    intros Hin. split; [done|apply not_elem_of_nil].
  - intros sn. unfold entryStates.
    rewrite setFrom_elem, sort_Permutation. split; [tauto|].
    intros Hin. split; [done|apply not_elem_of_nil].
  - apply setFrom_NoDup.
  - apply setFrom_NoDup.
  - intros exitSet' Hsame.
    apply (sortedSet_insertion_order (fun r => (- orderOf machine r)%Z)
             (fun a b => (orderOf machine b - orderOf machine a)%Z));
      [intros; lia|done..].
  - intros entrySet' Hsame.
    apply (sortedSet_insertion_order (orderOf machine)
             (fun a b => (orderOf machine a - orderOf machine b)%Z));
      [intros; lia|done..].
  - intros this transition currentContext _event prevState actions Hact Hsets.
    apply getActions_phases in Hact
      as (prevNodes & doneEvents & Hprev & _ & ->).
    rewrite (Hsets prevNodes Hprev). by exists doneEvents.
Qed.

Lemma C5_sorted_sets_witness :
  stepSets nestedMachine [] leavingP [[0]; [0; 0]]%nat
  = ([[1]; [1]], [[0]; [0]; [0; 0]])%nat
  /\ exitStates nestedMachine [[0]; [0]; [0; 0]]%nat = [[0; 0]; [0]]%nat
  /\ entryStates nestedMachine [[1]; [1]]%nat = [[1]]%nat
  /\ StronglySorted
       (fun a b => (orderOf nestedMachine a > orderOf nestedMachine b)%Z)
       (exitStates nestedMachine [[0]; [0]; [0; 0]]%nat)
  /\ (forall sn, sn ∈ entryStates nestedMachine [[1]; [1]]%nat
                 <-> sn ∈ [[1]; [1]]%nat)
  /\ exists doneEvents,
       [plain (actionTypes.custom "exit_p1");
        plain (actionTypes.custom "exit_p");
        stop "tick";
        plain (actionTypes.custom "go");
        plain (actionTypes.custom "enter_q")]
       = toActionObjects
           (flat_map (exitActionsAt nestedMachine)
              (exitStates nestedMachine [[0]; [0]; [0; 0]]%nat))
         ++ toActionObjects (tr_actions leavingP)
         ++ toActionObjects
              (flat_map (entryActionsAt nestedMachine)
                 (entryStates nestedMachine [[1]; [1]]%nat))
         ++ toActionObjects (map raise doneEvents).
Proof.
  split; [reflexivity|]. split; [reflexivity|]. split; [reflexivity|].
  destruct (C5_sorted_sets nestedConfig [[1]; [1]]%nat
              [[0]; [0]; [0; 0]]%nat)
    as (Hexit & _ & _ & Hentry & _ & _ & _ & _ & Hactions).
  - repeat constructor; by eexists.
  - repeat constructor; by eexists.
  - split; [exact Hexit|]. split; [exact Hentry|].
    apply (Hactions [] leavingP 0%Z (wrap (EventName "GO")) (Some inP1)).
    + vm_compute. reflexivity.
    + intros prevNodes Hprev. vm_compute in Hprev.
      injection Hprev as <-. reflexivity.
Defined.


(** C1, as the code has it.  In the flat machine the returned state's
    [changed] flag is true exactly when an assign action of the step
    was applied, or the value differs, or the emitted list is not empty.
    In the hierarchical interpreter, for a step that processes no null
    or raised event, the flag is true exactly when the event is the
    built-in update event, or an assign action was applied, or the value
    differs, or the emitted list is not empty. *)
Theorem C1_changed_flag
    {Value Exec TContext TEvent Payload Activity Data StateIn HistoryValue
     : Type}
    `{!ObjectPrototype Exec}
    `{!@Imports TContext TEvent Payload Activity Data StateIn HistoryValue} :
  (forall (m : @Fsm.Machine Value Exec) state event s',
     Fsm.transition m state event = Ok s' ->
     (Fsm.changed s' = Some true
      <-> (exists a, a ∈ FsmSteps.stepActions m state event
                     /\ Fsm.isAssign a = true)
          \/ Fsm.value s' <> (FsmSteps.current m state).1
          \/ Fsm.st_actions s' <> [])
     /\ (Fsm.changed s' = Some true \/ Fsm.changed s' = Some false))
  /\ (forall fuel
        (machine : @Core.StateNode TContext TEvent Payload Activity Data
                     StateIn)
        (s : @Core.State TContext TEvent Payload Activity StateIn
               HistoryValue)
        ev ms,
        firstMicrostep machine (ArgState s) ev None = Ok ms ->
        uniqueKeys (value s) = true ->
        (ms_resolved ms = true ->
         isTransient machine (ms_stateNodes ms) = false
         /\ ms_raisedEvents ms = []) ->
        exists s',
          transition (S fuel) machine (ArgState s) ev None = Ok s'
          /\ (changed s' = Some true
              <-> name (toSCXMLEvent ev) = update
                  \/ ms_assignActions ms <> []
                  \/ stateValuesEqual (value s') (value s) = false
                  \/ st_actions s' <> [])
          /\ (changed s' = Some true \/ changed s' = Some false)).
Proof.
  split.
  - intros m state event s' Hrun.
    destruct (FsmFacts.fsm_transition_ok m state event s' Hrun)
      as (_ & _ & ->).
    split; [|by destruct (_ || _ || _); auto].
    rewrite <- FsmFacts.existsb_elem, <- FsmFacts.nonempty_length.
    rewrite <- String.eqb_neq, <- negb_true_iff.
    split.
    + intros [= Hb]. apply orb_true_iff in Hb as [Hb|Hb]; [|tauto].
      apply orb_true_iff in Hb. tauto.
    + intros Hb. f_equal. rewrite !orb_true_iff. tauto.
  - intros fuel machine s ev ms Hms Hunique Hsingle.
    destruct (transition_single fuel machine s ev ms Hms Hunique Hsingle)
      as (s' & Hrun & _ & _ & _ & Hch).
    exists s'. split; [done|]. rewrite Hch.
    split; [|by destruct (_ || _ || _ || _); auto].
    rewrite <- !FsmFacts.nonempty_length, <- String.eqb_eq.
    rewrite <- negb_true_iff.
    split.
    + intros [= Hb]. rewrite !orb_true_iff in Hb. tauto.
    + intros Hb. f_equal. rewrite !orb_true_iff. tauto.
Qed.


Lemma C1_changed_flag_witness :
  (exists s',
     Fsm.transition Examples.FsmX.counter (inl "active") (inl "INC") = Ok s'
     /\ Fsm.changed s' = Some true
     /\ (Fsm.changed s' = Some true
         <-> (exists a,
                a ∈ FsmSteps.stepActions Examples.FsmX.counter
                      (inl "active") (inl "INC")
                /\ Fsm.isAssign a = true)
             \/ Fsm.value s' <> "active"
             \/ Fsm.st_actions s' <> []))
  /\ (exists ms s',
        firstMicrostep (lightMachine false) (ArgState green)
          (EventName "TIMER") None = Ok ms
        /\ transition 1 (lightMachine false) (ArgState green)
             (EventName "TIMER") None = Ok s'
        /\ (changed s' = Some true
            <-> name (toSCXMLEvent (EventName "TIMER")) = update
                \/ ms_assignActions ms <> []
                \/ stateValuesEqual (value s') (value green) = false
                \/ st_actions s' <> [])).
Proof.
  pose proof (@C1_changed_flag Z unit _ _ _ _ _ _ _ _ flatImports)
    as [Hfsm Hcore].
  split.
  - eexists. split; [vm_compute; reflexivity|]. split; [reflexivity|].
    eapply (proj1 (Hfsm Examples.FsmX.counter (inl "active") (inl "INC") _ _)).
  - edestruct (Hcore 0%nat (lightMachine false) green (EventName "TIMER"))
      as (s' & Hrun & Hiff & _).
    + vm_compute. reflexivity.
    + reflexivity.
    + intros _. split; reflexivity.
    + eexists _, s'. split; [vm_compute; reflexivity|]. split; [exact Hrun|].
      exact Hiff.
  Unshelve. vm_compute. reflexivity.
Defined.

(** With internal events the flag is taken from the last internal step:
    on BOTH the chain machine raises E1, whose transition assigns, and
    then E2, which selects nothing; the context has changed and the
    flag is false. *)
Lemma changed_after_internal_events :
  exists s',
    transition 2 chainMachine (ArgState chainA) (EventName "BOTH") None
    = Ok s'
    /\ Core.context s' = 5%Z
    /\ Core.context chainA = 0%Z
    /\ changed s' = Some false.
Proof. eexists. split; [vm_compute; reflexivity|]. by repeat split. Qed.

(** C1 fails as stated: from [green], the built-in update event selects
    no transition; no assign action runs, the value stays, nothing is
    emitted, and [changed] is true all the same. *)
Lemma C1_update_event_counterexample :
  exists ms s',
    firstMicrostep (lightMachine false) (ArgState green)
      (EventName "xstate.update") None = Ok ms
    /\ transition 1 (lightMachine false) (ArgState green)
         (EventName "xstate.update") None = Ok s'
    /\ ms_resolved ms = false
    /\ changed s' = Some true
    /\ ~ (ms_assignActions ms <> []
          \/ value s' <> value green
          \/ st_actions s' <> []).
Proof.
  eexists _, _. split; [vm_compute; reflexivity|].
  split; [vm_compute; reflexivity|].
  split; [reflexivity|]. split; [reflexivity|].
  intros [Hassign|[Hvalue|Hactions]]; [by apply Hassign|by apply Hvalue|
                                       by apply Hactions].
Qed.






(** An event named like a member of [Object.prototype] is read out of
    the plain objects the selection looks into.  The flat machine takes
    the member for a transition without target, actions or guard and
    runs the exit and entry actions of the state; the interpreter
    throws when it iterates over the member. *)
Lemma member_event_name_steps :
  FsmSteps.selected Examples.FsmX.counter (inl "active") (inl "constructor")
  <> None
  /\ (exists s',
        Fsm.transition Examples.FsmX.counter (inl "active")
          (inl "constructor") = Ok s'
        /\ Fsm.value s' = "active"
        /\ Fsm.changed s' = Some true
        /\ Fsm.act_type <$> Fsm.st_actions s'
           = [Some "exitActive"; Some "enterActive"])
  /\ _transition (lightMachine false) [] (value green) green
       (toSCXMLEvent (EventName "constructor")) = Throw TypeError
  /\ transition 1 (lightMachine false) (ArgState green)
       (EventName "constructor") None = Throw TypeError.
Proof.
  split; [by vm_compute|].
  split; [eexists; split; [vm_compute; reflexivity|done]|].
  split; vm_compute; reflexivity.
Qed.


(** C3, as the code has it.  In the flat machine the assign actions of
    the step's action list are folded into the context in list order,
    starting from the context before the step, and the emitted list is
    the rest of the action list, so it holds no assign action.  In the
    hierarchical interpreter the assign actions of the action list of a
    microstep, in list order, are handed to [updateContext] with the
    context before the microstep; where [updateContext] applies what it
    is handed one action after the other, each to the result of the one
    before, the context after the microstep is this fold over the
    assign actions of the list, and so is the context after a whole
    step that processes no null or raised event.  Every emitted action
    is what a non-assign action of the list resolves to; what a pure
    action returns is emitted as it is. *)
Theorem C3_assign_fold
    {Value Exec TContext TEvent Payload Activity Data StateIn HistoryValue
     : Type}
    `{!ObjectPrototype Exec}
    `{!@Imports TContext TEvent Payload Activity Data StateIn HistoryValue}
    (assignOne : TContext -> @Core.SCXMLEvent TEvent
                 -> @Core.ActionObject TContext TEvent Payload Activity
                 -> TContext) :
  (forall context _event assignActions state,
     updateContext context _event assignActions state
     = fold_left (fun acc assignAction => assignOne acc _event assignAction)
         assignActions context) ->
  (forall (m : @Fsm.Machine Value Exec) state event s',
     Fsm.transition m state event = Ok s' ->
     FsmSteps.foldAssigns
       (filter (fun a => Is_true (Fsm.isAssign a))
          (FsmSteps.stepActions m state event))
       (FsmSteps.current m state).2 (Fsm.toEventObject event)
     = Ok (Fsm.st_context s')
     /\ Fsm.st_actions s'
        = filter (fun a => Is_true (negb (Fsm.isAssign a)))
            (FsmSteps.stepActions m state event)
     /\ (forall a, a ∈ Fsm.st_actions s' -> Fsm.isAssign a = false))
  /\ (forall
        (machine : @Core.StateNode TContext TEvent Payload Activity Data
                     StateIn)
        stateTransition
        (cs : option (@Core.State TContext TEvent Payload Activity StateIn
                        HistoryValue))
        _event context ms,
        microstep machine stateTransition cs _event context = Ok ms ->
        ms_assignActions ms
        = filter (fun a => Is_true (isAssign a)) (ms_actions ms)
        /\ Core.context (ms_nextState ms)
           = (if bool_decide (0 < length (ms_assignActions ms))%nat
              then updateContext (currentContextOf cs context) _event
                     (ms_assignActions ms) cs
              else currentContextOf cs context)
        /\ Core.context (ms_nextState ms)
           = fold_left
               (fun acc assignAction => assignOne acc _event assignAction)
               (filter (fun a => Is_true (isAssign a)) (ms_actions ms))
               (currentContextOf cs context)
        /\ (forall emitted,
              emitted ∈ st_actions (ms_nextState ms) ->
              exists action resolved,
                action ∈ ms_actions ms
                /\ isAssign action = false
                /\ resolveAction (Core.context (ms_nextState ms)) _event
                     action = Ok resolved
                /\ emitted ∈ resolved))
  /\ (forall fuel
        (machine : @Core.StateNode TContext TEvent Payload Activity Data
                     StateIn)
        (s : @Core.State TContext TEvent Payload Activity StateIn
               HistoryValue)
        ev ms,
        firstMicrostep machine (ArgState s) ev None = Ok ms ->
        uniqueKeys (value s) = true ->
        (ms_resolved ms = true ->
         isTransient machine (ms_stateNodes ms) = false
         /\ ms_raisedEvents ms = []) ->
        exists s',
          transition (S fuel) machine (ArgState s) ev None = Ok s'
          /\ Core.context s'
             = fold_left
                 (fun acc assignAction =>
                    assignOne acc (toSCXMLEvent ev) assignAction)
                 (filter (fun a => Is_true (isAssign a)) (ms_actions ms))
                 (Core.context s)
          /\ (forall emitted,
                emitted ∈ st_actions s' ->
                exists action resolved,
                  action ∈ ms_actions ms
                  /\ isAssign action = false
                  /\ resolveAction (Core.context s') (toSCXMLEvent ev)
                       action = Ok resolved
                  /\ emitted ∈ resolved)).
Proof.
  intros Hfold.
  assert (forall (machine : @Core.StateNode TContext TEvent Payload Activity
                              Data StateIn)
            stateTransition
            (cs : option (@Core.State TContext TEvent Payload Activity
                            StateIn HistoryValue))
            _event context ms,
            microstep machine stateTransition cs _event context = Ok ms ->
            ms_assignActions ms
            = filter (fun a => Is_true (isAssign a)) (ms_actions ms)
            /\ Core.context (ms_nextState ms)
               = (if bool_decide (0 < length (ms_assignActions ms))%nat
                  then updateContext (currentContextOf cs context) _event
                         (ms_assignActions ms) cs
                  else currentContextOf cs context)
            /\ Core.context (ms_nextState ms)
               = fold_left
                   (fun acc assignAction => assignOne acc _event assignAction)
                   (filter (fun a => Is_true (isAssign a)) (ms_actions ms))
                   (currentContextOf cs context)
            /\ (forall emitted,
                  emitted ∈ st_actions (ms_nextState ms) ->
                  exists action resolved,
                    action ∈ ms_actions ms
                    /\ isAssign action = false
                    /\ resolveAction (Core.context (ms_nextState ms)) _event
                         action = Ok resolved
                    /\ emitted ∈ resolved)) as Hmicro.
  { intros machine stateTransition cs _event context ms Hms.
    pose proof (microstep_inv _ _ _ _ _ _ Hms)
      as (resolvedActions & _ & Hassign & _ & _ & Hctx & _).
    split_and!; [done| | |].
    - rewrite Hctx, Hassign. done.
    - rewrite Hctx. unfold updatedContextOf. rewrite Hfold.
      destruct (filter _ (ms_actions ms)); [done|].
      by rewrite bool_decide_eq_true_2 by (simpl; lia).
    - intros emitted Hin. rewrite Hctx.
      by apply (microstep_emitted machine stateTransition). }
  split_and!.
  - intros m state event s' Hrun.
    destruct (FsmFacts.fsm_transition_ok m state event s' Hrun)
      as (Hacts & Hctx & _).
    split_and!; [done..|].
    intros a. rewrite Hacts. intros [Ha _]%list_elem_of_filter.
    by destruct (Fsm.isAssign a).
  - exact Hmicro.
  - intros fuel machine s ev ms Hms Hunique Hsingle.
    destruct (transition_single fuel machine s ev ms Hms Hunique Hsingle)
      as (s' & Hrun & _ & Hctx & Hacts & _).
    exists s'. split; [done|]. rewrite Hctx, Hacts.
    unfold firstMicrostep in Hms.
    destruct (prepare machine (ArgState s) ev None) as [[[cs _event] st]|]
      eqn:Hprep; simpl in Hms; [|done].
    apply prepare_inv in Hprep as (-> & Hcs & _).
    rewrite (Hcs s eq_refl eq_refl) in Hms.
    destruct (Hmicro _ _ _ _ _ _ Hms) as (_ & _ & Hctx' & Hemitted).
    split; [exact Hctx'|exact Hemitted].
Qed.

Lemma C3_assign_fold_witness :
  (exists s',
     Fsm.transition Examples.FsmX.counter (inl "active") (inl "INC") = Ok s'
     /\ Fsm.st_context s' !! "count" = Some 2%Z
     /\ FsmSteps.foldAssigns
          (filter (fun a => Is_true (Fsm.isAssign a))
             (FsmSteps.stepActions Examples.FsmX.counter (inl "active")
                (inl "INC")))
          (FsmSteps.current Examples.FsmX.counter (inl "active")).2
          (Fsm.toEventObject (inl "INC"))
        = Ok (Fsm.st_context s'))
  /\ (exists ms s',
        firstMicrostep chainMachine (ArgState chainA) (EventName "E1") None
        = Ok ms
        /\ transition 1 chainMachine (ArgState chainA) (EventName "E1") None
           = Ok s'
        /\ Core.context s' = 5%Z
        /\ Core.context s'
           = fold_left
               (fun acc assignAction =>
                  match payload assignAction with
                  | Some assignment => assignment acc
                  | None => acc
                  end)
               (filter (fun a => Is_true (isAssign a)) (ms_actions ms))
               (Core.context chainA)).
Proof.
  pose proof (@C3_assign_fold Z unit _ _ _ _ _ _ _ _ flatImports
                (fun acc _ assignAction =>
                   match payload assignAction with
                   | Some assignment => assignment acc
                   | None => acc
                   end)
                (fun _ _ _ _ => eq_refl)) as (Hfsm & _ & Hstep).
  split.
  - eexists. split; [vm_compute; reflexivity|]. split; [reflexivity|].
    eapply (proj1 (Hfsm Examples.FsmX.counter (inl "active") (inl "INC")
                     _ _)).
  - destruct (firstMicrostep chainMachine (ArgState chainA)
                (EventName "E1") None) as [ms|] eqn:Hms;
      [|vm_compute in Hms; discriminate].
    destruct (Hstep 0%nat chainMachine chainA (EventName "E1") ms Hms)
      as (s' & Hrun & Hctx & _).
    + reflexivity.
    + intros _. vm_compute in Hms. injection Hms as <-. by split.
    + exists ms, s'. split; [done|]. split; [exact Hrun|].
      split; [|exact Hctx].
      vm_compute in Hrun. by injection Hrun as <-.
  Unshelve. vm_compute. reflexivity.
Defined.

(** C3 fails as stated: on GO the chain machine runs a pure action
    that returns an assign action; the assign action is in the emitted
    list and the context is what it was. *)
Lemma C3_pure_counterexample :
  exists s' emitted,
    transition 1 chainMachine (ArgState chainA) (EventName "GO") None = Ok s'
    /\ emitted ∈ st_actions s'
    /\ isAssign emitted = true
    /\ Core.context s' = Core.context chainA.
Proof.
  eexists _, _. split; [vm_compute; reflexivity|].
  split; [left|]. split; reflexivity.
Qed.


(** C4, as the code has it.  In the flat machine the action list of a
    step that selects a transition is the exit actions of the current
    state, then the actions of the transition, then the entry actions of
    the target state.  In the hierarchical interpreter the action list
    is, in this order: for each node of the exit set its exit actions
    followed by a stop action for each of its activities; the actions of
    the selected transitions; for each node of the entry set a start
    action for each of its activities followed by its entry actions; and
    a raise action for each done event of the entered final nodes. *)
Theorem C4_action_phases
    {Value Exec TContext TEvent Payload Activity Data StateIn HistoryValue
     : Type}
    `{!ObjectPrototype Exec}
    `{!@Imports TContext TEvent Payload Activity Data StateIn HistoryValue} :
  (forall (m : @Fsm.Machine Value Exec) state event stateConfig transition_
          nextStateConfig,
     FsmSteps.selected m state event = Some (stateConfig, transition_) ->
     Fsm.states (Fsm.config m)
       !! (Fsm.destructure (FsmSteps.current m state).1 transition_).1.1
     = Some nextStateConfig ->
     FsmSteps.stepActions m state event
     = FsmSteps.actionObjects m (Fsm.exit stateConfig)
       ++ FsmSteps.actionObjects m
            (Fsm.destructure (FsmSteps.current m state).1 transition_).1.2
       ++ FsmSteps.actionObjects m (Fsm.entry nextStateConfig))
  /\ (forall
        (machine : @Core.StateNode TContext TEvent Payload Activity Data
                     StateIn)
        this
        (stateTransition : @Core.StateTransition TContext TEvent Payload
                             Activity StateIn HistoryValue)
        currentContext _event prevState actions,
        getActions machine this stateTransition currentContext _event
          prevState = Ok actions ->
        exists prevNodes doneEvents,
          match prevState with
          | Some s => getStateNodes machine (value s)
          | None => Ok [this]
          end = Ok prevNodes
          /\ flatMapR
               (doneEventsOf machine stateTransition currentContext _event)
               (stepSets machine this stateTransition prevNodes).1
             = Ok doneEvents
          /\ actions
             = toActionObjects
                 (flat_map (exitActionsAt machine)
                    (exitStates machine
                       (stepSets machine this stateTransition prevNodes).2))
               ++ toActionObjects (tr_actions stateTransition)
               ++ toActionObjects
                    (flat_map (entryActionsAt machine)
                       (entryStates machine
                          (stepSets machine this stateTransition
                             prevNodes).1))
               ++ toActionObjects (map raise doneEvents)).
Proof.
  split.
  - intros m state event stateConfig transition_ nextStateConfig Hsel Hnext.
    apply FsmFacts.fsm_stepActions_phases; [done|].
    by apply FsmFacts.stateConfigAt_own.
  - intros machine this. apply getActions_phases.
Qed.

Lemma C4_action_phases_witness :
  (FsmSteps.stepActions Examples.FsmX.counter (inl "active") (inl "STOP")
   = [Fsm.mkAction (Some "exitActive") None None]
   /\ exists stateConfig transition_ nextStateConfig,
        FsmSteps.stepActions Examples.FsmX.counter (inl "active")
          (inl "STOP")
        = FsmSteps.actionObjects Examples.FsmX.counter
            (Fsm.exit stateConfig)
          ++ FsmSteps.actionObjects Examples.FsmX.counter
               (Fsm.destructure "active" transition_).1.2
          ++ FsmSteps.actionObjects Examples.FsmX.counter
               (Fsm.entry nextStateConfig))
  /\ (exists cs _event st actions,
        prepare chainMachine (ArgState chainA) (EventName "STEP") None
        = Ok (cs, _event, st)
        /\ getActions chainMachine [] st (Core.context cs) _event (Some cs)
           = Ok actions
        /\ map type actions
           = [actionTypes.stop; actionTypes.raise;
              actionTypes.custom "enter_b"]
        /\ exists prevNodes doneEvents,
             actions
             = toActionObjects
                 (flat_map (exitActionsAt chainMachine)
                    (exitStates chainMachine
                       (stepSets chainMachine [] st prevNodes).2))
               ++ toActionObjects (tr_actions st)
               ++ toActionObjects
                    (flat_map (entryActionsAt chainMachine)
                       (entryStates chainMachine
                          (stepSets chainMachine [] st prevNodes).1))
               ++ toActionObjects (map raise doneEvents)).
Proof.
  split.
  - split; [vm_compute; reflexivity|].
    eexists _, _, _.
    eapply (proj1 (@C4_action_phases Z unit _ _ _ _ _ _ _ _ flatImports)
              Examples.FsmX.counter (inl "active") (inl "STOP"));
      vm_compute; reflexivity.
  - let p := eval vm_compute in
               (prepare chainMachine (ArgState chainA) (EventName "STEP")
                  None) in
    match p with
    | Ok (?cs, ?ev, ?st) =>
        let a := eval vm_compute in
                   (getActions chainMachine [] st (Core.context cs) ev
                      (Some cs)) in
        match a with
        | Ok ?actions =>
            exists cs, ev, st, actions;
            split; [vm_compute; reflexivity|];
            split; [vm_compute; reflexivity|];
            split; [reflexivity|];
            destruct (proj2 (@C4_action_phases Z unit _ _ _ _ _ _ _ _
                               flatImports)
                        chainMachine [] st (Core.context cs) ev (Some cs)
                        actions)
              as (prevNodes & doneEvents & _ & _ & Hactions);
              [vm_compute; reflexivity
              |exists prevNodes, doneEvents; exact Hactions]
        end
    end.
Defined.

(** C4 fails as stated: when the chain machine leaves [a] on STEP, the
    action list starts with the stop action of the activity of [a],
    which is none of the exit actions of the exit set, the actions of
    the transition and the entry actions of the entry set. *)
Lemma C4_activity_counterexample :
  exists cs _event st prevNodes actions,
    prepare chainMachine (ArgState chainA) (EventName "STEP") None
    = Ok (cs, _event, st)
    /\ getStateNodes chainMachine (value cs) = Ok prevNodes
    /\ getActions chainMachine [] st (Core.context cs) _event (Some cs)
       = Ok actions
    /\ actions
       <> toActionObjects
            (claimedActions chainMachine st
               (stepSets chainMachine [] st prevNodes).1
               (stepSets chainMachine [] st prevNodes).2)
    /\ map type actions
       = [actionTypes.stop; actionTypes.raise; actionTypes.custom "enter_b"]
    /\ map type
         (claimedActions chainMachine st
            (stepSets chainMachine [] st prevNodes).1
            (stepSets chainMachine [] st prevNodes).2)
       = [actionTypes.raise; actionTypes.custom "enter_b"].
Proof.
  eexists _, _, _, _, _.
  split; [vm_compute; reflexivity|]. split; [vm_compute; reflexivity|].
  split; [vm_compute; reflexivity|]. split; [|split; vm_compute; reflexivity].
  vm_compute. discriminate.
Qed.

End Specification.

(** * More about the flat machine *)

Module FsmMore.
Import Fsm FsmSteps FsmFacts.
Section FsmMore.

Context {Value Exec : Type} `{!ObjectPrototype Exec}.
Implicit Types (m : @Machine Value Exec).

(** ** Which runs of the filter throw *)

Lemma filterAssign_succeeds (acts : list (@ActionObject Value Exec)) :
  forall context assigned ev,
    (exists r, filterAssign acts context assigned ev = Ok r)
    <-> Forall (fun a => isAssign a = true -> is_Some (assignment a)) acts.
Proof.
  induction acts as [|a rest IH]; intros context assigned ev; simpl.
  - split; [constructor|by eexists].
  - rewrite Forall_cons. destruct (isAssign a) eqn:Ha.
    + unfold applyAssignment. destruct (assignment a) as [[f|props]|]; simpl.
      * rewrite IH. split; [by split; [eauto|]|tauto].
      * rewrite IH. split; [by split; [eauto|]|tauto].
      * split; [by intros [r ?]|]. intros [Hsome _].
        by destruct (Hsome eq_refl).
    + rewrite <- (IH context assigned ev). split.
      * intros [r Hr]. split; [done|].
        destruct (filterAssign rest context assigned ev); [by eexists|done].
      * intros [_ [[[kept c] b] ->]]. by eexists.
Qed.

(** ** The value stays inside the machine *)

Lemma takeTransition_closed m stateConfig value context ev target actions
    (s' : @State Value Exec) :
  takeTransition m stateConfig value context ev target actions = Ok s' ->
  is_Some (stateConfigAt (config m) (Fsm.value s')).
Proof.
  intros Hrun. apply takeTransition_ok in Hrun as (next & Hnext & Hval & _).
  simpl in Hval. rewrite Hval, Hnext. by eexists.
Qed.

Lemma early_takeTransition_value fsmConfig stateConfig value context ev
    (target : option string) actions (s' : @State Value Exec) :
  FsmEarly.takeTransition fsmConfig stateConfig value context ev target
    actions = Ok s' ->
  Fsm.value s' = default value (FsmEarly.truthyTarget target)
  /\ (forall t, FsmEarly.truthyTarget target = Some t ->
                is_Some (stateConfigAt fsmConfig t)).
Proof.
  unfold FsmEarly.takeTransition.
  destruct (FsmEarly.truthyTarget target) as [t|] eqn:Ht.
  - destruct (stateConfigAt fsmConfig t) as [next|] eqn:Hnext; [|done].
    destruct (filterAssign _ context false ev) as [[[kept c] b]|];
      simpl; [|done].
    intros [= <-]. simpl. split; [done|]. intros t' [= <-]. by eexists.
  - destruct (filterAssign _ context false ev) as [[[kept c] b]|];
      simpl; [|done].
    intros [= <-]. by split.
Qed.

Lemma early_forTransitions_closed fsmConfig stateConfig value context ev
    transitions (s' : @State Value Exec) :
  is_Some (stateConfigAt fsmConfig value) ->
  FsmEarly.forTransitions fsmConfig stateConfig value context ev transitions
  = Ok s' ->
  is_Some (stateConfigAt fsmConfig (Fsm.value s')).
Proof.
  intros Hstate.
  induction transitions as [|[transition_|] rest IH]; simpl.
  - by intros [= <-].
  - destruct (FsmEarly.destructure transition_) as [[target actions] cond].
    destruct (cond context ev); [|exact IH].
    intros Hrun.
    apply early_takeTransition_value in Hrun as [-> Htarget].
    destruct (FsmEarly.truthyTarget target) as [t|]; simpl; [eauto|done].
  - by intros [= <-].
Qed.

End FsmMore.
End FsmMore.

(** * Further properties of the flat machine *)

Section FsmExtras.
Import Fsm FsmSteps FsmFacts FsmMore.

Context {Value Exec : Type} `{!ObjectPrototype Exec}.
Implicit Types (m : @Fsm.Machine Value Exec).

Lemma fsm_transition_closed m state event (s' : @Fsm.State Value Exec) :
  Fsm.transition m state event = Ok s' ->
  is_Some (stateConfigAt (config m) (Fsm.value s')).
Proof.
  intros Hrun. rewrite fsm_transition_current in Hrun.
  destruct (stateConfigAt (config m) (current m state).1) as [sc|] eqn:Hstate;
    [|done].
  destruct (lookupOn sc _) as [ts|].
  - rewrite forTransitions_enabled in Hrun.
    destruct (enabled _ _ _ ts) as [t|].
    + by apply takeTransition_closed in Hrun.
    + injection Hrun as <-. simpl. rewrite Hstate. by eexists.
  - injection Hrun as <-. simpl. rewrite Hstate. by eexists.
Qed.

(** A state returned by [transition], in either revision, has a value
    under which [fsmConfig.states] holds something, a state of the
    machine or, the object being a plain one, a member of
    [Object.prototype]: [transition], given this state again, finds a
    state config for it and does not throw for want of one. *)
Theorem fsm_value_closed m state event (s' : @Fsm.State Value Exec) :
  Fsm.transition m state event = Ok s'
  \/ FsmEarly.transition (config m) state event = Ok s' ->
  is_Some (stateConfigAt (config m) (Fsm.value s')).
Proof.
  intros [Hrun|Hrun].
  - by apply fsm_transition_closed in Hrun.
  - unfold FsmEarly.transition in Hrun.
    change (match state with
            | inl s => (s, Fsm.context (config m))
            | inr st => (Fsm.value st, st_context st)
            end) with (current m state) in Hrun.
    destruct (current m state) as [v c].
    destruct (stateConfigAt (config m) v) as [sc|] eqn:Hstate; [|done].
    destruct (lookupOn sc _) as [ts|].
    + eapply early_forTransitions_closed; [|exact Hrun].
      rewrite Hstate. by eexists.
    + injection Hrun as <-. simpl. rewrite Hstate. by eexists.
Qed.

(** A state that comes back with [changed = false] has the value and the
    context the step started from and no actions. *)
Theorem fsm_unchanged_state m state event (s' : @Fsm.State Value Exec) :
  Fsm.transition m state event = Ok s' ->
  changed s' = Some false ->
  Fsm.value s' = (current m state).1
  /\ st_context s' = (current m state).2
  /\ st_actions s' = [].
Proof.
  intros Hrun Hch.
  destruct (fsm_transition_ok _ _ _ _ Hrun) as (Hacts & Hctx & Hch').
  rewrite Hch in Hch'. injection Hch' as Hch'. symmetry in Hch'.
  apply orb_false_iff in Hch' as [Hch' Hassign].
  apply orb_false_iff in Hch' as [Hval Hlen].
  apply negb_false_iff, String.eqb_eq in Hval.
  assert (st_actions s' = []) as Hnil.
  { destruct (st_actions s'); [done|].
    apply bool_decide_eq_false in Hlen. simpl in Hlen. lia. }
  split; [done|]. split; [|done].
  assert (filter (fun a => Is_true (isAssign a)) (stepActions m state event)
          = []) as Hnone.
  { apply CoreFacts.filter_none. intros a Ha Hyes.
    apply Is_true_true in Hyes.
    assert (existsb isAssign (stepActions m state event) = true) as Hex
      by (apply existsb_elem; eauto).
    congruence. }
  rewrite Hnone in Hctx. simpl in Hctx. by injection Hctx as <-.
Qed.

(** [transition] returns a state exactly when [fsmConfig.states] holds
    something under the current value (a state of the machine or a
    member of [Object.prototype]) and, if a transition is selected, it
    holds something under its target as well and every assign action of
    the step carries an assignment; in every other case it throws. *)
Theorem fsm_transition_succeeds_iff m state event :
  (exists s', Fsm.transition m state event = Ok s')
  <-> is_Some (stateConfigAt (config m) (current m state).1)
      /\ match selected m state event with
         | None => True
         | Some (stateConfig, transition_) =>
             is_Some (stateConfigAt (config m)
                        (destructure (current m state).1 transition_).1.1)
             /\ Forall (fun a => isAssign a = true -> is_Some (assignment a))
                  (stepActions m state event)
         end.
Proof.
  unfold stepActions.
  destruct (selected m state event) as [[sc t]|] eqn:Hsel.
  - rewrite (fsm_transition_selected _ _ _ _ _ Hsel).
    assert (is_Some (stateConfigAt (config m) (current m state).1)) as Hcur.
    { unfold selected in Hsel. destruct (current m state) as [v c]. simpl.
      destruct (stateConfigAt (config m) v); [by eexists|done]. }
    destruct (destructure (current m state).1 t) as [[target actions] cond].
    simpl. unfold takeTransition.
    destruct (stateConfigAt (config m) target) as [next|].
    + rewrite <- (filterAssign_succeeds _ (current m state).2 false
                   (toEventObject event)).
      split.
      * intros [s' Hrun]. split; [done|]. split; [by eexists|].
        destruct (filterAssign _ _ false _) as [r|]; [by eexists|done].
      * intros (_ & _ & [[[kept c] b] ->]). by eexists.
    + split; [by intros [s' ?]|]. by intros (_ & [? ?] & _).
  - rewrite fsm_transition_current.
    destruct (stateConfigAt (config m) (current m state).1) as [sc|] eqn:Hstate.
    + pose proof (fsm_transition_unselected m state event _ Hstate Hsel)
        as Hun.
      rewrite fsm_transition_current, Hstate in Hun. rewrite Hun.
      split; [by split; [eexists|]|by eexists].
    + split; [by intros [s' ?]|]. by intros [[? ?] _].
Qed.

(** The two revisions of [transition] return the same result on a
    machine without an action map, for a current value under which
    [fsmConfig.states] holds something (a state of the machine or a
    member of [Object.prototype]), unless the selected transition has
    the empty string as its target. *)
Theorem fsm_revisions_agree m state event :
  _options m = None ->
  is_Some (stateConfigAt (config m) (current m state).1) ->
  (forall stateConfig transition_,
      selected m state event = Some (stateConfig, transition_) ->
      (FsmEarly.destructure transition_).1.1 <> Some "") ->
  FsmEarly.transition (config m) state event = Fsm.transition m state event.
Proof.
  intros Hopt [sc Hstate] Htarget.
  rewrite fsm_transition_current. unfold FsmEarly.transition.
  change (match state with
          | inl s => (s, Fsm.context (config m))
          | inr st => (Fsm.value st, st_context st)
          end) with (current m state).
  unfold selected in Htarget.
  destruct (current m state) as [v c]. simpl in *.
  rewrite Hstate in *. simpl in Htarget.
  destruct (lookupOn sc _) as [ts|]; [|done]. simpl in Htarget.
  induction ts as [|[t|] rest IH]; simpl; [done| |done].
  simpl in Htarget.
  assert ((destructure v t).2 = (FsmEarly.destructure t).2) as Hcond
    by (by destruct t).
  rewrite Hcond in Htarget.
  destruct (FsmEarly.destructure t) as [[target actions] cond] eqn:Hearly.
  destruct (destructure v t) as [[target' actions'] cond'] eqn:Hlate.
  simpl in *. subst cond'.
  destruct (cond c (toEventObject event)); [|exact (IH Htarget)].
  specialize (Htarget sc t eq_refl). rewrite Hearly in Htarget.
  simpl in Htarget.
  assert (actions' = actions /\ target' = default v target) as [-> ->].
  { destruct t; simpl in *; by simplify_eq. }
  unfold FsmEarly.takeTransition, takeTransition,
    FsmEarly.collectActions, collectActions.
  assert (forall a, toActionObject a (_options m)
                    = FsmEarly.toActionObject a) as Hobj.
  { intros a. rewrite Hopt. by destruct a. }
  destruct target as [name|].
  - assert (FsmEarly.truthyTarget (Some name) = Some name) as ->
      by (by destruct name).
    simpl. destruct (stateConfigAt (config m) name); [|done].
    by rewrite (map_ext _ _ Hobj).
  - simpl. rewrite Hstate. by rewrite (map_ext _ _ Hobj).
Qed.

Lemma fold_properties {P} (g : P -> Value) (props : list (string * P)) :
  NoDup (map fst props) ->
  forall tmp : gmap string Value,
    let result :=
      fold_left (fun tmpContext '(key, p) => setProperty key (g p) tmpContext)
        props tmp in
    (forall key p, (key, p) ∈ props -> key <> "__proto__" ->
                   result !! key = Some (g p))
    /\ (forall key, key ∉ map fst props \/ key = "__proto__" ->
                    result !! key = tmp !! key).
Proof.
  induction props as [|[key0 p0] rest IH]; intros Hnodup tmp; simpl.
  - split; [intros ? ? Hin; by apply elem_of_nil in Hin|done].
  - apply NoDup_cons in Hnodup as [Hfresh Hnodup].
    destruct (IH Hnodup (setProperty key0 (g p0) tmp)) as [Hin Hout].
    assert (forall key, key <> key0 \/ key = "__proto__" ->
              setProperty key0 (g p0) tmp !! key = tmp !! key) as Hset.
    { intros key Hkey. unfold setProperty.
      destruct (String.eqb_spec key0 "__proto__") as [-> | Hne]; [done|].
      apply lookup_insert_ne. intros <-. by destruct Hkey. }
    split.
    + intros key p Hmem Hplain.
      apply elem_of_cons in Hmem as [[= -> ->]|Hmem]; [|by apply Hin].
      rewrite (Hout key0) by (by left). unfold setProperty.
      destruct (String.eqb_spec key0 "__proto__") as [-> | Hne]; [done|].
      by rewrite lookup_insert_eq.
    + intros key Hkey. rewrite (Hout key), (Hset key); [done|..].
      * destruct Hkey as [Hnot | ->]; [|by right].
        apply not_elem_of_cons in Hnot as [Hne _]. by left.
      * destruct Hkey as [Hnot | ->]; [|by right].
        apply not_elem_of_cons in Hnot as [_ Hnot]. by left.
Qed.

(** An assign action with an object of properties evaluates every
    property function on the context before the assignment: the new
    context holds, for each key of the object other than [__proto__],
    the value of its property there, and is the old context on every
    other key; it has no property [__proto__]. *)
Theorem fsm_assign_properties (a : @Fsm.ActionObject Value Exec) props
    context ev :
  assignment a = Some (PropertyAssigner props) ->
  NoDup (map fst props) ->
  exists context',
    applyAssignment a context ev = Ok context'
    /\ (forall key p, (key, p) ∈ props -> key <> "__proto__" ->
          context' !! key
          = Some match p with
                 | PropFn f => f context ev
                 | PropValue v => v
                 end)
    /\ (forall key, key ∉ map fst props -> key <> "__proto__" ->
                    context' !! key = context !! key)
    /\ context' !! "__proto__" = None.
Proof.
  intros Ha Hnodup. unfold applyAssignment. rewrite Ha.
  eexists. split; [done|].
  destruct (fold_properties
              (fun p => match p with
                        | PropFn f => f context ev
                        | PropValue v => v
                        end) props Hnodup (copyProperties context))
    as [Hin Hout].
  split; [exact Hin|]. split.
  - intros key Hnot Hplain. rewrite (Hout key) by (by left).
    unfold copyProperties. by apply lookup_delete_ne.
  - rewrite (Hout "__proto__") by (by right).
    unfold copyProperties. apply lookup_delete_eq.
Qed.

Lemma enabled_app value context (ev : @Fsm.EventObject Value) pre
    (rest : list (option (@Fsm.Transition Value Exec))) :
  Forall (fun slot => exists t, slot = Some t
                      /\ (destructure value t).2 context ev = false) pre ->
  enabled value context ev (pre ++ rest) = enabled value context ev rest.
Proof.
  induction 1 as [|slot pre (t & -> & Hcond) _ IH]; [done|].
  simpl. by rewrite Hcond.
Qed.

(** The transitions of an event are tried in list order: the first one
    whose guard holds is taken, whatever comes after it, and an
    undefined slot reached before any guard holds ends the step with the
    unchanged state even when an enabled transition follows it. *)
Theorem fsm_first_enabled m state event stateConfig pre slot rest :
  stateConfigAt (config m) (current m state).1 = Some stateConfig ->
  lookupOn stateConfig (ev_type (toEventObject event))
  = Some (pre ++ slot :: rest) ->
  Forall (fun slot => exists t, slot = Some t
                      /\ (destructure (current m state).1 t).2
                           (current m state).2 (toEventObject event) = false)
         pre ->
  match slot with
  | None =>
      Fsm.transition m state event
      = Ok (createUnchangedState (current m state).1 (current m state).2)
  | Some t =>
      (destructure (current m state).1 t).2 (current m state).2
        (toEventObject event) = true ->
      Fsm.transition m state event
      = takeTransition m stateConfig (current m state).1 (current m state).2
          (toEventObject event)
          (destructure (current m state).1 t).1.1
          (destructure (current m state).1 t).1.2
  end.
Proof.
  intros Hstate Hon Hpre.
  rewrite fsm_transition_current, Hstate, Hon, forTransitions_enabled.
  rewrite (enabled_app _ _ _ _ _ Hpre).
  destruct slot as [t|]; [|done]. intros Hcond. simpl. by rewrite Hcond.
Qed.

End FsmExtras.

Lemma fsm_value_closed_witness :
  is_Some (Fsm.stateConfigAt (Fsm.config Examples.FsmX.counter) "done").
Proof.
  apply (fsm_value_closed Examples.FsmX.counter (inl "active") (inl "STOP")
           (Fsm.mkState "done" (<["count" := 0%Z]> ∅)
              [Fsm.mkAction (Some "exitActive") None None] (Some true))).
  left. vm_compute. reflexivity.
Defined.

Lemma fsm_unchanged_state_witness :
  "active" = "active"
  /\ (<["count" := 0%Z]> ∅ : gmap string Z) = <["count" := 0%Z]> ∅
  /\ ([] : list (@Fsm.ActionObject Z unit)) = [].
Proof.
  refine (fsm_unchanged_state Examples.FsmX.counter (inl "active")
            (inl "TIMER")
            (Fsm.mkState "active" (<["count" := 0%Z]> ∅) [] (Some false))
            _ _);
    vm_compute; reflexivity.
Defined.

Lemma fsm_revisions_agree_witness :
  FsmEarly.transition MoreExamples.guardedConfig (inl "idle") (inl "GO")
  = Fsm.transition MoreExamples.guarded (inl "idle") (inl "GO").
Proof.
  apply (fsm_revisions_agree MoreExamples.guarded (inl "idle") (inl "GO")).
  - reflexivity.
  - eexists. vm_compute. reflexivity.
  - intros stateConfig transition_ Hsel. vm_compute in Hsel.
    injection Hsel as <- <-. discriminate.
Defined.

Lemma fsm_assign_properties_witness :
  exists context',
    Fsm.applyAssignment
      (Fsm.toActionObject MoreExamples.swap None)
      (<["a" := 1%Z]> (<["b" := 2%Z]> ∅)) Fsm.INIT_EVENT = Ok context'
    /\ context' !! "a" = Some 2%Z /\ context' !! "b" = Some 1%Z
    /\ context' !! "c" = None /\ context' !! "__proto__" = None.
Proof.
  destruct (fsm_assign_properties
              (Fsm.toActionObject MoreExamples.swap None)
              [("a", Fsm.PropFn (fun ctx _ => default 0%Z (ctx !! "b")));
               ("b", Fsm.PropFn (fun ctx _ => default 0%Z (ctx !! "a")))]
              (<["a" := 1%Z]> (<["b" := 2%Z]> ∅)) Fsm.INIT_EVENT)
    as (context' & Hrun & Hin & Hout & Hproto).
  - reflexivity.
  - apply (bool_decide_unpack _). vm_compute. exact I.
  - exists context'. split; [exact Hrun|]. split_and!.
    + refine (Hin "a" (Fsm.PropFn (fun ctx _ => default 0%Z (ctx !! "b")))
                _ _); [by left|discriminate].
    + refine (Hin "b" (Fsm.PropFn (fun ctx _ => default 0%Z (ctx !! "a")))
                _ _); [right; by left|discriminate].
    + refine (Hout "c" _ _); [|discriminate].
      apply (bool_decide_unpack _). vm_compute. exact I.
    + exact Hproto.
Defined.

Lemma fsm_first_enabled_witness :
  Fsm.transition MoreExamples.guarded (inl "idle") (inl "GO")
  = Ok (Fsm.mkState "busy" (<["a" := 2%Z]> (<["b" := 1%Z]> ∅))
          [Fsm.mkAction (Some "exitIdle") None None;
           Fsm.mkAction (Some "notify") (Some tt) None;
           Fsm.mkAction (Some "work") (Some tt) None] (Some true))
  /\ Fsm.transition MoreExamples.guarded (inl "idle") (inl "HALT")
     = Ok (Fsm.mkState "idle" (<["a" := 1%Z]> (<["b" := 2%Z]> ∅)) []
             (Some false)).
Proof.
  split.
  - etransitivity.
    + eapply (fsm_first_enabled MoreExamples.guarded (inl "idle") (inl "GO") _
                [Some (Fsm.TransitionObj (Some "busy") None
                         (Some MoreExamples.never))]
                (Some (Fsm.TransitionObj (Some "busy")
                         (Some (Fsm.Array
                                  [Some MoreExamples.swap;
                                   Some (Fsm.ActionFunction "notify" tt)]))
                         (Some MoreExamples.positive)))
                [Some (Fsm.TransitionTarget "missing")]).
      * vm_compute. reflexivity.
      * vm_compute. reflexivity.
      * repeat constructor. eexists. split; reflexivity.
      * reflexivity.
    + vm_compute. reflexivity.
  - eapply (fsm_first_enabled MoreExamples.guarded (inl "idle") (inl "HALT") _
              [Some (Fsm.TransitionObj (Some "busy") None
                       (Some MoreExamples.never))]
              None [Some (Fsm.TransitionTarget "busy")]).
    + vm_compute. reflexivity.
    + vm_compute. reflexivity.
    + repeat constructor. eexists. split; reflexivity.
Defined.

(** * Properties of the interpreter of xstate-fsm *)

Section ServiceExtras.
Import Fsm FsmSteps FsmFacts FsmService.

Context {Value Exec : Type} `{!ObjectPrototype Exec}.
Implicit Types (m : @Fsm.Machine Value Exec).
Implicit Types (service : @Service Value Exec).

(** A service that is not running, because it has not been started or
    has been stopped, drops every event sent to it, whatever listeners
    it has: its state stays as it is, no action is executed and no
    listener is called. *)
Theorem service_not_running_drops service events :
  status service <> Running -> sendAll service events = Ok (service, []).
Proof.
  intros Hstatus. induction events as [|event rest IH]; [done|].
  simpl. unfold send.
  destruct (status service) eqn:Hs; [|done|]; simpl; by rewrite IH.
Qed.

(** On a running service, [send] calls, in this order: the [exec]
    function of every action of the step that has one and is not an
    assign action, each with the context that results from the
    assignments of the step and with the event object; then every
    listener, in subscription order, with the new state. *)
Theorem service_send_calls m initial service event service' calls :
  _machine service = machineObject m initial ->
  status service = Running ->
  send service event = Ok (service', calls) ->
  let canonical := stepActions m (inr (state service)) event in
  foldAssigns (filter (fun a => Is_true (isAssign a)) canonical)
    (st_context (state service)) (toEventObject event)
  = Ok (st_context (state service'))
  /\ calls
     = omap (fun a =>
               (fun f => Executed f (st_context (state service'))
                           (toEventObject event)) <$> exec a)
            (filter (fun a => Is_true (negb (isAssign a))) canonical)
       ++ map (fun listener => Notified listener (state service'))
              (listeners service).
Proof.
  intros Hmachine Hstatus Hsend. unfold send in Hsend.
  rewrite Hstatus, Hmachine in Hsend. simpl in Hsend.
  destruct (Fsm.transition m (inr (state service)) event) as [s'|] eqn:Hrun;
    [|done].
  simpl in Hsend. injection Hsend as <- <-. simpl.
  destruct (fsm_transition_ok _ _ _ _ Hrun) as (Hacts & Hctx & _).
  split; [exact Hctx|]. unfold executeStateActions. by rewrite Hacts.
Qed.

Lemma setDelete_setAdd (listener : nat) (listeners : list nat) :
  listener ∉ listeners ->
  setDelete listener (setAdd listener listeners) = listeners.
Proof.
  intros Hfresh. unfold setAdd, setDelete.
  rewrite bool_decide_eq_false_2 by done.
  rewrite filter_app, filter_cons_False, filter_nil, app_nil_r
    by (intros Hne; by apply Hne).
  induction listeners as [|l ls IH]; [done|].
  apply not_elem_of_cons in Hfresh as [Hne Hfresh].
  rewrite filter_cons_True by done. by rewrite IH.
Qed.

(** After [unsubscribe] the listener is no longer called, also when it
    had been subscribed before; subscribing a new listener and
    unsubscribing it again gives back the service as it was. *)
Theorem service_unsubscribe service listener :
  (listener
   ∉ listeners (unsubscribe (fst (subscribe service listener)) listener))
  /\ (listener ∉ listeners service ->
      unsubscribe (fst (subscribe service listener)) listener = service).
Proof.
  split.
  - simpl. unfold setDelete. rewrite list_elem_of_filter. by intros [Hne _].
  - intros Hfresh. destruct service as [machine st status ls].
    unfold unsubscribe, subscribe. simpl in *.
    by rewrite setDelete_setAdd.
Qed.

(** Whatever events are sent to a service over a machine, one after the
    other without an error, the value of the state of the service stays
    one under which [fsmConfig.states] holds something (a state of the
    machine or a member of [Object.prototype]), and the machine, the
    status and the listeners of the service stay as they are. *)
Theorem service_sendAll_invariant m initial service events service' calls :
  _machine service = machineObject m initial ->
  is_Some (stateConfigAt (config m) (Fsm.value (state service))) ->
  sendAll service events = Ok (service', calls) ->
  is_Some (stateConfigAt (config m) (Fsm.value (state service')))
  /\ _machine service' = _machine service
  /\ status service' = status service
  /\ listeners service' = listeners service.
Proof.
  revert service calls.
  induction events as [|event rest IH]; intros service calls Hmachine Hstate
    Hrun; simpl in Hrun.
  - by injection Hrun as <- <-.
  - destruct (send service event) as [[service1 calls1]|] eqn:Hsend;
      simpl in Hrun; [|done].
    destruct (sendAll service1 rest) as [[service2 calls2]|] eqn:Hrest;
      simpl in Hrun; [|done].
    injection Hrun as <- <-.
    assert (is_Some (stateConfigAt (config m) (Fsm.value (state service1)))
            /\ _machine service1 = _machine service
            /\ status service1 = status service
            /\ listeners service1 = listeners service) as (H1 & H2 & H3 & H4).
    { unfold send in Hsend.
      destruct (status service) eqn:Hs;
        try (by injection Hsend as <- <-).
      rewrite Hmachine in Hsend. simpl in Hsend.
      destruct (Fsm.transition m (inr (state service)) event) as [s'|]
        eqn:Htr; [|done].
      simpl in Hsend. injection Hsend as <- <-. simpl.
      split; [|by rewrite Hmachine].
      by apply fsm_transition_closed in Htr. }
    destruct (IH service1 calls2) as (G1 & G2 & G3 & G4);
      [congruence|done|done|].
    split; [done|]. split; [congruence|]. split; congruence.
Qed.

End ServiceExtras.

Lemma service_not_running_drops_witness :
  FsmService.sendAll
    (fst (FsmService.subscribe
            (FsmService.interpret
               (FsmService.machineObject Examples.FsmX.counter
                  MoreExamples.counterInitial)) 1%nat))
    [inl "INC"; inl "STOP"]
  = Ok (fst (FsmService.subscribe
               (FsmService.interpret
                  (FsmService.machineObject Examples.FsmX.counter
                     MoreExamples.counterInitial)) 1%nat), []).
Proof.
  apply (service_not_running_drops
           (fst (FsmService.subscribe
                   (FsmService.interpret
                      (FsmService.machineObject Examples.FsmX.counter
                         MoreExamples.counterInitial)) 1%nat))
           [inl "INC"; inl "STOP"]).
  discriminate.
Defined.

Lemma service_unsubscribe_witness :
  FsmService.unsubscribe
    (fst (FsmService.subscribe MoreExamples.guardedService 3%nat)) 3%nat
  = MoreExamples.guardedService.
Proof.
  apply (proj2 (service_unsubscribe MoreExamples.guardedService 3%nat)).
  apply (bool_decide_unpack _). vm_compute. exact I.
Defined.

Lemma service_send_calls_witness :
  exists service' calls,
    FsmService.send MoreExamples.guardedService (inl "GO")
    = Ok (service', calls)
    /\ calls
       = [FsmService.Executed tt (<["a" := 2%Z]> (<["b" := 1%Z]> ∅))
            (Fsm.mkEvent "GO" ∅);
          FsmService.Executed tt (<["a" := 2%Z]> (<["b" := 1%Z]> ∅))
            (Fsm.mkEvent "GO" ∅);
          FsmService.Notified 1%nat (FsmService.state service');
          FsmService.Notified 2%nat (FsmService.state service')].
Proof.
  eexists _, _. split; [vm_compute; reflexivity|].
  etransitivity.
  - refine (proj2 (service_send_calls MoreExamples.guarded
                     MoreExamples.guardedInitial MoreExamples.guardedService
                     (inl "GO") _ _ _ _ _)); vm_compute; reflexivity.
  - vm_compute. reflexivity.
Defined.

Lemma service_sendAll_invariant_witness :
  exists service' calls,
    FsmService.sendAll MoreExamples.counterService
      [inl "INC"; inl "TIMER"; inl "STOP"; inl "INC"]
    = Ok (service', calls)
    /\ is_Some (Fsm.stateConfigAt (Fsm.config Examples.FsmX.counter)
                  (Fsm.value (FsmService.state service')))
    /\ Fsm.value (FsmService.state service') = "done".
Proof.
  eexists _, _. split; [vm_compute; reflexivity|]. split; [|reflexivity].
  refine (proj1 (service_sendAll_invariant Examples.FsmX.counter
                   MoreExamples.counterInitial MoreExamples.counterService
                   [inl "INC"; inl "TIMER"; inl "STOP"; inl "INC"] _ _ _ _ _)).
  - reflexivity.
  - eexists. vm_compute. reflexivity.
  - vm_compute. reflexivity.
Defined.

(** * Properties of the state node tree *)

Section TreeExtras.
Import Core CoreMore CoreFacts.

Context {TContext TEvent Payload Activity Data StateIn : Type}.
Abbreviation TreeNode :=
  (@Core.StateNode TContext TEvent Payload Activity Data StateIn).
Implicit Types (sn machine config : TreeNode).

Lemma nodeAt_app sn (ref suffix : NodeRef) :
  nodeAt sn (ref ++ suffix) = nodeAt sn ref ≫= fun n => nodeAt n suffix.
Proof.
  revert sn. induction ref as [|i ref IH]; intros sn; simpl; [done|].
  destruct (states sn !! i); [apply IH|done].
Qed.

Lemma events_unfold sn :
  events sn = setFrom [] (ownEvents sn ++ flat_map events (states sn)).
Proof. by destruct sn. Qed.

Lemma ownEvents_elem sn (e : string) :
  e ∈ ownEvents sn
  <-> exists t, t ∈ transitions sn /\ isInert t = false /\ eventType t = e.
Proof.
  unfold ownEvents. rewrite setFrom_elem, list_elem_of_fmap.
  split.
  - intros [(t & -> & [Hni Ht]%list_elem_of_filter) _].
    exists t. split_and!; [done| |done]. by destruct (isInert t).
  - intros (t & Ht & Hni & <-). split; [|apply not_elem_of_nil].
    exists t. split; [done|]. apply list_elem_of_filter.
    split; [by rewrite Hni|done].
Qed.

(** The [events] of a node are, without duplicates, exactly the event
    types of the transitions of the node and of its descendants that are
    not inert (a transition is inert when it has no target and no
    actions and is internal). *)
Theorem events_spec sn (e : string) :
  NoDup (events sn)
  /\ (e ∈ events sn
      <-> exists ref node t,
            nodeAt sn ref = Some node /\ t ∈ transitions node
            /\ isInert t = false /\ eventType t = e).
Proof.
  split; [rewrite events_unfold; apply setFrom_NoDup|].
  induction sn as [sn IH] using StateNode_nested_ind.
  rewrite events_unfold, setFrom_elem, elem_of_app, ownEvents_elem.
  rewrite list_elem_of_In, in_flat_map. split.
  - intros [[(t & Ht & Hni & He)|(child & Hchild & Hin)] _].
    + by exists [], sn, t.
    + apply list_elem_of_In, list_elem_of_lookup in Hchild as [i Hi].
      rewrite Forall_forall in IH.
      apply list_elem_of_In, (IH child) in Hin
        as (ref & node & t & Hnode & Ht & Hni & He);
        [|by eapply list_elem_of_lookup_2].
      exists (i :: ref), node, t. simpl. by rewrite Hi.
  - intros (ref & node & t & Hnode & Ht & Hni & He).
    split; [|apply not_elem_of_nil].
    destruct ref as [|i ref]; simpl in Hnode.
    + injection Hnode as <-. left. by exists t.
    + destruct (states sn !! i) as [child|] eqn:Hi; [|done].
      right. exists child.
      assert (child ∈ states sn) as Hchild
        by (by eapply list_elem_of_lookup_2).
      split; [by apply list_elem_of_In|].
      rewrite Forall_forall in IH.
      apply list_elem_of_In, (IH child Hchild). by exists ref, node, t.
Qed.

Lemma stateIds_unfold sn :
  stateIds sn = id sn :: flat_map stateIds (states sn).
Proof. by destruct sn. Qed.

Lemma stateIds_elem sn (stateId : string) :
  stateId ∈ stateIds sn
  <-> exists ref node, nodeAt sn ref = Some node /\ id node = stateId.
Proof.
  induction sn as [sn IH] using StateNode_nested_ind.
  rewrite Forall_forall in IH.
  rewrite stateIds_unfold, elem_of_cons, list_elem_of_In, in_flat_map.
  split.
  - intros [->|(child & Hchild & Hin)]; [by exists [], sn|].
    apply list_elem_of_In in Hchild.
    apply list_elem_of_In, (IH child Hchild) in Hin
      as (ref & node & Hnode & Hid).
    apply list_elem_of_lookup in Hchild as [i Hi].
    exists (i :: ref), node. simpl. by rewrite Hi.
  - intros ([|i ref] & node & Hnode & Hid); simpl in Hnode.
    + injection Hnode as <-. by left.
    + destruct (states sn !! i) as [child|] eqn:Hi; [|done].
      right. exists child.
      assert (child ∈ states sn) as Hchild
        by (by eapply list_elem_of_lookup_2).
      split; [by apply list_elem_of_In|].
      apply list_elem_of_In, (IH child Hchild). by exists ref, node.
Qed.

(** The loop over the children inside [idMap]. *)
Local Abbreviation idMapChildren ref :=
  (fix ofChildren (i : nat) (children : list TreeNode)
     : list (string * NodeRef) :=
     match children with
     | [] => []
     | child :: rest =>
         (if String.eqb (id child) "__proto__" then []
          else [(id child, ref ++ [i])])
           ++ idMap (ref ++ [i]) child
           ++ ofChildren (S i) rest
     end).

Lemma idMap_unfold (ref : NodeRef) sn :
  idMap ref sn = idMapChildren ref 0%nat (states sn).
Proof. by destruct sn. Qed.

Local Abbreviation bindsBelow sn r stateId ref :=
  (exists (suffix : NodeRef) node,
     suffix <> [] /\ ref = r ++ suffix
     /\ nodeAt sn suffix = Some node /\ id node = stateId).

Lemma idMapChildren_elem (children : list TreeNode) :
  Forall (fun child => forall r stateId ref,
            (stateId, ref) ∈ idMap r child
            <-> bindsBelow child r stateId ref /\ stateId <> "__proto__")
         children ->
  forall (ref0 : NodeRef) (i : nat) stateId ref,
    (stateId, ref) ∈ idMapChildren ref0 i children
    <-> (exists (j : nat) child rest node,
           children !! j = Some child /\ ref = ref0 ++ (i + j)%nat :: rest
           /\ nodeAt child rest = Some node /\ id node = stateId)
        /\ stateId <> "__proto__".
Proof.
  induction 1 as [|child others Hchild _ IH]; intros ref0 i stateId ref.
  - rewrite elem_of_nil. split; [done|].
    by intros [(j & ? & ? & ? & ? & _) _].
  - rewrite !elem_of_app, Hchild, IH. split.
    + intros [Hown|[[(suffix & node & Hne & -> & Hnode & Hid) Hproto]
                   |[(j & c & rest & node & Hc & -> & Hnode & Hid) Hproto]]].
      * destruct (String.eqb_spec (id child) "__proto__") as [|Hproto];
          [by apply elem_of_nil in Hown|].
        apply list_elem_of_singleton in Hown as [= -> ->].
        split; [|done].
        exists 0%nat, child, [], child. by rewrite Nat.add_0_r.
      * split; [|done]. exists 0%nat, child, suffix, node.
        by rewrite Nat.add_0_r, <- app_assoc.
      * split; [|done]. exists (S j), c, rest, node.
        by rewrite Nat.add_succ_r.
    + intros [([|j] & c & rest & node & Hc & -> & Hnode & Hid) Hproto];
        simpl in Hc.
      * injection Hc as <-. rewrite Nat.add_0_r.
        destruct rest as [|k rest].
        -- left. simpl in Hnode. injection Hnode as <-. rewrite Hid.
           apply String.eqb_neq in Hproto. rewrite Hproto.
           by apply list_elem_of_singleton.
        -- right. left. split; [|done]. exists (k :: rest), node.
           by rewrite <- app_assoc.
      * right. right. split; [|done]. exists j, c, rest, node.
        by rewrite Nat.add_succ_r.
Qed.

Lemma idMap_elem sn : forall (r : NodeRef) (stateId : string) (ref : NodeRef),
  (stateId, ref) ∈ idMap r sn
  <-> bindsBelow sn r stateId ref /\ stateId <> "__proto__".
Proof.
  induction sn as [sn IH] using StateNode_nested_ind.
  intros r stateId ref. rewrite idMap_unfold, (idMapChildren_elem _ IH).
  split.
  - intros [(j & child & rest & node & Hc & -> & Hnode & Hid) Hproto].
    split; [|done]. exists (j :: rest), node. simpl. by rewrite Hc.
  - intros [([|j rest] & node & Hne & -> & Hnode & Hid) Hproto]; [done|].
    split; [|done].
    simpl in Hnode. destruct (states sn !! j) as [child|] eqn:Hc; [|done].
    by exists j, child, rest, node.
Qed.

(** What [idMap] holds of its own under an id: a node of that id below
    the machine, when there is one and the id is not [__proto__]. *)
Lemma lastBinding_spec machine (stateId : string) :
  match lastBinding stateId (idMap [] machine) with
  | Some ref => exists node, nodeAt machine ref = Some node
                             /\ id node = stateId
  | None => stateId = "__proto__"
            \/ forall ref node, ref <> [] -> nodeAt machine ref = Some node ->
                                id node <> stateId
  end.
Proof.
  unfold lastBinding.
  destruct (last (filter _ (idMap [] machine))) as [[stateId' ref]|] eqn:Hlast;
    simpl.
  - apply last_Some_elem_of, list_elem_of_filter in Hlast as [Hid Hin].
    simpl in Hid. subst stateId'.
    apply idMap_elem in Hin as [(suffix & node & _ & -> & Hnode & Hid) _].
    by exists node.
  - apply last_None in Hlast.
    destruct (decide (stateId = "__proto__")) as [|Hproto]; [by left|].
    right. intros ref node Hne Hnode Hid.
    assert ((stateId, ref) ∈ idMap [] machine) as Hin.
    { apply idMap_elem. split; [|done]. by exists ref, node. }
    assert ((stateId, ref)
            ∈ filter (fun entry : string * NodeRef => entry.1 = stateId)
                (idMap [] machine)) as Hf
      by (by apply list_elem_of_filter).
    rewrite Hlast in Hf. by apply elem_of_nil in Hf.
Qed.

(** [getStateNodeById], called on the machine with an id written
    without the [#], answers the same with and without the [#] in
    front.  For the id of the machine, or an id other than [__proto__]
    that is among the [stateIds] of the machine, it returns a node of
    the machine that has this id.  For any other id it returns what the
    prototype chain of [idMap] holds under it, which is a member of
    [Object.prototype] and no state node when the id is the name of
    one, and throws only when there is nothing. *)
Theorem getStateNodeById_stateIds {HistoryValue : Type}
    `{!@Imports TContext TEvent Payload Activity Data StateIn HistoryValue}
    machine (stateId : string) :
  isStateId stateId = false ->
  getStateNodeById machine [] ("#" +:+ stateId)
  = getStateNodeById machine [] stateId
  /\ (stateId = id machine
      \/ (stateId ∈ stateIds machine /\ stateId <> "__proto__") ->
      exists ref node,
        getStateNodeById machine [] stateId = Ok (FoundNode ref)
        /\ nodeAt machine ref = Some node /\ id node = stateId)
  /\ (stateId <> id machine ->
      (stateId ∉ stateIds machine) \/ stateId = "__proto__" ->
      getStateNodeById machine [] stateId
      = match idMapPrototype machine with
        | Some child => nodeProperty machine child stateId
        | None =>
            if inheritedName stateId then Ok (NotANode stateId)
            else Throw (ChildNotFound stateId)
        end).
Proof.
  intros Hplain.
  assert (dropIdentifier stateId = stateId) as Hdrop.
  { unfold dropIdentifier. destruct stateId; [done|]. by rewrite Hplain. }
  split; [unfold getStateNodeById; by rewrite Hdrop|].
  unfold getStateNodeById. rewrite Hdrop. simpl.
  pose proof (lastBinding_spec machine stateId) as Hlast.
  split.
  - intros Hin.
    destruct (String.eqb_spec stateId (id machine)) as [->|Hne];
      [by exists [], machine|].
    destruct Hin as [|[Hin Hproto]]; [done|].
    destruct (lastBinding stateId (idMap [] machine)) as [ref|].
    + destruct Hlast as (node & Hnode & Hid). by exists ref, node.
    + destruct Hlast as [|Hnone]; [done|].
      apply stateIds_elem in Hin as ([|i ref] & node & Hnode & Hid).
      * simpl in Hnode. injection Hnode as <-. by destruct Hne.
      * by destruct (Hnone (i :: ref) node).
  - intros Hne Hout. apply String.eqb_neq in Hne as Hneb. rewrite Hneb.
    destruct (lastBinding stateId (idMap [] machine)) as [ref|] eqn:Hbind;
      [|done].
    destruct Hlast as (node & Hnode & Hid).
    destruct Hout as [Hout | ->].
    + destruct Hout. apply stateIds_elem. by exists ref, node.
    + unfold lastBinding in Hbind.
      destruct (last _) as [[stateId' ref']|] eqn:Hl; [|done].
      apply last_Some_elem_of, list_elem_of_filter in Hl as [Hs Hin].
      simpl in Hs. subst stateId'.
      by apply idMap_elem in Hin as [_ Hproto].
Qed.

(** ** Ancestors *)

Lemma rev_seq_S (n : nat) : rev (seq 0 (S n)) = n :: rev (seq 0 n).
Proof. by rewrite seq_S, rev_app_distr. Qed.

Lemma properAncestors_snoc (l : NodeRef) (x : nat) :
  properAncestors (l ++ [x]) = l :: properAncestors l.
Proof.
  unfold properAncestors. rewrite length_app, Nat.add_1_r, rev_seq_S.
  cbn [map]. rewrite take_app_length. f_equal.
  apply map_ext_in. intros k Hk%in_rev%in_seq.
  rewrite take_app_le by lia. done.
Qed.

Lemma properAncestors_elem (a ref : NodeRef) :
  a ∈ properAncestors ref <-> exists suffix, suffix <> [] /\ ref = a ++ suffix.
Proof.
  induction ref as [|x l IH] using rev_ind.
  - unfold properAncestors. simpl. rewrite elem_of_nil. split; [done|].
    intros (suffix & Hne & Heq). symmetry in Heq.
    by apply app_eq_nil in Heq as [_ ->].
  - rewrite properAncestors_snoc, elem_of_cons, IH. split.
    + intros [->|(suffix & Hne & ->)]; [by exists [x]|].
      exists (suffix ++ [x]). rewrite app_assoc.
      split; [|done]. by destruct suffix.
    + intros (suffix & Hne & Heq).
      destruct suffix as [|y suffix _] using rev_ind; [done|].
      rewrite app_assoc in Heq. apply app_inj_tail in Heq as [-> ->].
      destruct suffix as [|z suffix]; [left; by rewrite app_nil_r|].
      right. by exists (z :: suffix).
Qed.

Lemma escapes_prefix (this child : NodeRef) :
  escapes child this = false <-> this `prefix_of` child.
Proof.
  unfold escapes. rewrite andb_false_iff, !negb_false_iff.
  rewrite !bool_decide_eq_true, properAncestors_elem. split.
  - intros [->|(suffix & _ & ->)]; [done|by exists suffix].
  - intros [[|x suffix] ->]; [left; by rewrite app_nil_r|].
    right. by exists (x :: suffix).
Qed.

Lemma upTo_cons_ne (this marker : NodeRef) (chain : list NodeRef) :
  marker <> this -> upTo this (marker :: chain) = marker :: upTo this chain.
Proof. intros Hne. simpl. by rewrite bool_decide_eq_false_2. Qed.

Lemma upTo_chain (this suffix : NodeRef) :
  upTo this ((this ++ suffix) :: properAncestors (this ++ suffix)) ++ [this]
  = map (fun k => this ++ take k suffix) (rev (seq 0 (S (length suffix)))).
Proof.
  induction suffix as [|x s IH] using rev_ind.
  - rewrite app_nil_r. simpl. rewrite bool_decide_eq_true_2 by done.
    simpl. by rewrite app_nil_r.
  - rewrite app_assoc, properAncestors_snoc, upTo_cons_ne; cycle 1.
    { intros Heq. apply (f_equal length) in Heq.
      rewrite !length_app in Heq. simpl in Heq. lia. }
    rewrite <- app_assoc, length_app, Nat.add_1_r, (rev_seq_S (S (length s))).
    cbn [map]. rewrite take_ge by (rewrite length_app; simpl; lia).
    rewrite <- app_comm_cons. f_equal. etransitivity; [exact IH|].
    apply map_ext_in. intros k Hk%in_rev%in_seq.
    rewrite take_app_le by lia. done.
Qed.

(** [nodesFromChild] of a node, for that node or a node below it,
    is the chain of parents from the child up to and including the node,
    child first; for any other node it is empty. *)
Theorem nodesFromChild_chain (this child suffix : NodeRef) :
  nodesFromChild this (this ++ suffix)
  = map (fun k => this ++ take k suffix) (rev (seq 0 (S (length suffix))))
  /\ (~ this `prefix_of` child -> nodesFromChild this child = []).
Proof.
  unfold nodesFromChild. split.
  - assert (escapes (this ++ suffix) this = false) as ->
      by (apply escapes_prefix; by exists suffix).
    apply upTo_chain.
  - intros Hnot. destruct (escapes child this) eqn:Hesc; [done|].
    by apply escapes_prefix in Hesc.
Qed.

(** ** Document order *)

Local Abbreviation dfsLoop :=
  (fix dfsChildren (next : Z) (children : list TreeNode)
     : list TreeNode * Z :=
     match children with
     | [] => ([], next)
     | child :: rest =>
         let '(child', next') := dfs next child in
         let '(rest', next'') := dfsChildren next' rest in
         (child' :: rest', next'')
     end).

Lemma dfsLoop_lookup (children : list TreeNode) :
  forall next (i : nat) c,
    (dfsLoop next children).1 !! i = Some c ->
    exists next' orig, children !! i = Some orig /\ c = (dfs next' orig).1.
Proof.
  induction children as [|child rest IH]; intros next i c; simpl; [done|].
  destruct (dfs next child) as [child' next'] eqn:Hdfs.
  destruct (dfsLoop next' rest) as [rest' next''] eqn:Hrest. simpl.
  destruct i as [|i]; simpl.
  - intros [= <-]. exists next, child. by rewrite Hdfs.
  - intros Hc. apply (IH next' i c). by rewrite Hrest.
Qed.

Lemma dfs_subtree sn : forall next (ref : NodeRef) n,
  nodeAt (dfs next sn).1 ref = Some n ->
  exists orig, n = (dfs (order n) orig).1.
Proof.
  induction sn as [sn IH] using StateNode_nested_ind.
  rewrite Forall_forall in IH.
  intros next [|i ref] n; rewrite dfs_unfold; simpl.
  - intros [= <-]. simpl. exists sn. by rewrite dfs_unfold.
  - destruct (_ !! i) as [c|] eqn:Hc; [|done]. intros Hn.
    apply dfsLoop_lookup in Hc as (next' & orig & Horig & ->).
    eapply (IH orig); [by eapply list_elem_of_lookup_2|exact Hn].
Qed.

Lemma order_increases_below config (ref suffix : NodeRef) :
  is_Some (nodeAt (Machine config) (ref ++ suffix)) ->
  suffix <> [] ->
  (orderOf (Machine config) ref < orderOf (Machine config) (ref ++ suffix))%Z.
Proof.
  intros [d Hd] Hne. unfold orderOf. rewrite Hd.
  rewrite nodeAt_app in Hd.
  destruct (nodeAt (Machine config) ref) as [a|] eqn:Ha; [|done].
  simpl in Hd. unfold Machine in Ha.
  destruct (dfs_subtree _ _ _ _ Ha) as [orig Horig].
  destruct (dfs_numbered orig (order a)) as (_ & Hrange & _).
  rewrite <- Horig in Hrange. destruct (Hrange suffix d Hd) as [Hle Hroot].
  destruct (decide (order d = order a)) as [Heq|]; [|lia].
  by destruct Hne, Hroot.
Qed.


(** In a constructed machine, the document order of a node is smaller
    than that of every node below it. *)
Theorem order_ancestor_first config (ref suffix : NodeRef) :
  is_Some (nodeAt (Machine config) (ref ++ suffix)) ->
  suffix <> [] ->
  orderOf (Machine config) [] = 0%Z
  /\ (orderOf (Machine config) ref
      < orderOf (Machine config) (ref ++ suffix))%Z.
Proof.
  intros Hd Hne. split; [|by apply order_increases_below].
  unfold orderOf, Machine. simpl. by rewrite dfs_unfold.
Qed.

Lemma sorted_precedes {A} (R : relation A) (l : list A) (x y : A) :
  StronglySorted R l -> x ∈ l -> y ∈ l -> x <> y -> ~ R y x ->
  precedes x y l.
Proof.
  intros Hsorted Hx Hy Hne Hnot. revert Hx Hy.
  induction Hsorted as [|z l _ IH Hz]; intros Hx Hy;
    [by apply elem_of_nil in Hx|].
  apply elem_of_cons in Hx as [->|Hx]; apply elem_of_cons in Hy as [->|Hy].
  - done.
  - apply list_elem_of_split in Hy as (l1 & l2 & ->). by exists [], l1, l2.
  - rewrite Forall_forall in Hz. destruct Hnot. by apply Hz.
  - destruct (IH Hx Hy) as (l1 & l2 & l3 & ->). by exists (z :: l1), l2, l3.
Qed.

(** In a constructed machine, when a node and a node below it are both
    in the exit set, the lower node exits first; when both are in the
    entry set, the upper node is entered first. *)
Theorem exit_descendants_first config (entrySet exitSet : list NodeRef)
    (a suffix : NodeRef) :
  Forall (fun ref => is_Some (nodeAt (Machine config) ref)) entrySet ->
  Forall (fun ref => is_Some (nodeAt (Machine config) ref)) exitSet ->
  suffix <> [] ->
  (a ∈ exitSet -> a ++ suffix ∈ exitSet ->
   precedes (a ++ suffix) a (exitStates (Machine config) exitSet))
  /\ (a ∈ entrySet -> a ++ suffix ∈ entrySet ->
      precedes a (a ++ suffix) (entryStates (Machine config) entrySet)).
Proof.
  intros Hentry Hexit Hne. rewrite Forall_forall in Hentry, Hexit.
  assert (a <> a ++ suffix) as Hdiff.
  { intros Heq. apply (f_equal length) in Heq. rewrite length_app in Heq.
    destruct suffix; [done|]. simpl in Heq. lia. }
  split; intros Ha Hd.
  - pose proof (order_increases_below config a suffix (Hexit _ Hd) Hne)
      as Hlt.
    eapply (sorted_precedes
              (fun x y => (- orderOf (Machine config) x
                           < - orderOf (Machine config) y)%Z)).
    + apply (sortedSet_strict (fun r => (- orderOf (Machine config) r)%Z)
               (fun x y => (orderOf (Machine config) y
                            - orderOf (Machine config) x)%Z));
        [intros; lia|].
      intros x y Hx Hy Heq. apply (order_injective config); auto. lia.
    + apply setFrom_elem. split; [|apply not_elem_of_nil].
      by rewrite sort_Permutation.
    + apply setFrom_elem. split; [|apply not_elem_of_nil].
      by rewrite sort_Permutation.
    + done.
    + lia.
  - pose proof (order_increases_below config a suffix (Hentry _ Hd) Hne)
      as Hlt.
    eapply (sorted_precedes
              (fun x y => (orderOf (Machine config) x
                           < orderOf (Machine config) y)%Z)).
    + apply (sortedSet_strict (orderOf (Machine config))
               (fun x y => (orderOf (Machine config) x
                            - orderOf (Machine config) y)%Z));
        [intros; lia|].
      intros x y Hx Hy Heq. apply (order_injective config); auto.
    + apply setFrom_elem. split; [|apply not_elem_of_nil].
      by rewrite sort_Permutation.
    + apply setFrom_elem. split; [|apply not_elem_of_nil].
      by rewrite sort_Permutation.
    + done.
    + lia.
Qed.

End TreeExtras.

Section LookupExamples.
Import Core Examples.CoreX.

Lemma getStateNodeById_stateIds_witness :
  getStateNodeById nestedMachine [] "#m.p.p2"
  = getStateNodeById nestedMachine [] "m.p.p2"
  /\ getStateNodeById nestedMachine [] "m.p.p2" = Ok (FoundNode [0; 1]%nat)
  /\ getStateNodeById nestedMachine [] "toString"
     = Ok (NotANode "toString")
  /\ getStateNodeById nestedMachine [] "m.r" = Throw (ChildNotFound "m.r").
Proof.
  pose proof (getStateNodeById_stateIds nestedMachine "m.p.p2" eq_refl)
    as (Hsame & _ & _).
  pose proof (getStateNodeById_stateIds nestedMachine "toString" eq_refl)
    as (_ & _ & Hmember).
  pose proof (getStateNodeById_stateIds nestedMachine "m.r" eq_refl)
    as (_ & _ & Hnone).
  split; [exact Hsame|]. split; [vm_compute; reflexivity|].
  split.
  - apply Hmember; [done|]. left. vm_compute.
    intros Hin. repeat (apply elem_of_cons in Hin as [[=]|Hin]).
    by apply elem_of_nil in Hin.
  - apply Hnone; [done|]. left. vm_compute.
    intros Hin. repeat (apply elem_of_cons in Hin as [[=]|Hin]).
    by apply elem_of_nil in Hin.
Defined.

End LookupExamples.

Lemma nodesFromChild_chain_witness :
  Core.nodesFromChild [0]%nat [0; 1; 0]%nat
  = [[0; 1; 0]; [0; 1]; [0]]%nat
  /\ Core.nodesFromChild [1]%nat [0; 1]%nat = [].
Proof.
  split.
  - exact (proj1 (nodesFromChild_chain [0]%nat [] [1; 0]%nat)).
  - refine (proj2 (nodesFromChild_chain [1]%nat [0; 1]%nat []) _).
    intros [k Hk]. discriminate.
Defined.

Lemma order_ancestor_first_witness :
  Core.orderOf Examples.CoreX.nestedMachine [] = 0%Z
  /\ (Core.orderOf Examples.CoreX.nestedMachine [0]%nat
      < Core.orderOf Examples.CoreX.nestedMachine [0; 1]%nat)%Z.
Proof.
  refine (order_ancestor_first Examples.CoreX.nestedConfig [0]%nat [1]%nat
            _ _).
  - eexists. vm_compute. reflexivity.
  - discriminate.
Defined.

Lemma exit_descendants_first_witness :
  CoreMore.precedes [0; 1]%nat [0]%nat
    (Core.exitStates Examples.CoreX.nestedMachine [[0]; [1]; [0; 1]]%nat)
  /\ CoreMore.precedes [0]%nat [0; 1]%nat
       (Core.entryStates Examples.CoreX.nestedMachine [[0; 1]; [1]; [0]]%nat).
Proof.
  destruct (exit_descendants_first Examples.CoreX.nestedConfig
              [[0; 1]; [1]; [0]]%nat [[0]; [1]; [0; 1]]%nat [0]%nat [1]%nat)
    as [Hexit Hentry].
  - repeat constructor; eexists; vm_compute; reflexivity.
  - repeat constructor; eexists; vm_compute; reflexivity.
  - discriminate.
  - split.
    + apply Hexit; apply (bool_decide_unpack _); vm_compute; exact I.
    + apply Hentry; apply (bool_decide_unpack _); vm_compute; exact I.
Defined.

(** * Properties of the selection of transitions *)

Section SelectionExtras.
Import Core CoreSteps CoreMore CoreFacts.

Context {TContext TEvent Payload Activity Data StateIn HistoryValue : Type}.
Context `{!@Imports TContext TEvent Payload Activity Data StateIn HistoryValue}.

Abbreviation SelNode :=
  (@Core.StateNode TContext TEvent Payload Activity Data StateIn).
Abbreviation SelTransition :=
  (@Core.TransitionDefinition TContext TEvent Payload Activity StateIn).
Abbreviation SelState :=
  (@Core.State TContext TEvent Payload Activity StateIn HistoryValue).
Abbreviation SelStateTransition :=
  (@Core.StateTransition TContext TEvent Payload Activity StateIn
     HistoryValue).
Abbreviation SelEvent := (@Core.SCXMLEvent TEvent).

Implicit Types (machine : SelNode) (state : SelState) (_event : SelEvent).

Lemma Forall_flat_map_each {A B} (P : B -> Prop) (f : A -> list B)
    (xs : list A) :
  Forall (fun x => Forall P (f x)) xs -> Forall P (flat_map f xs).
Proof.
  induction 1 as [|x xs Hx _ IH]; simpl; [done|].
  apply Forall_app. by split.
Qed.

Lemma selectCandidate_cons machine this state _event
    (candidate : SelTransition) rest :
  selectCandidate machine this state _event (candidate :: rest)
  = try passes := candidatePasses machine this state _event candidate in
    if passes then Ok (Some candidate)
    else selectCandidate machine this state _event rest.
Proof.
  simpl. unfold candidatePasses.
  destruct (isInState machine this state candidate); simpl; [|done].
  by destruct (match cond candidate with
               | Some guard => evaluateGuard guard (context state) _event
               | None => Ok true
               end).
Qed.



Lemma selectCandidate_elem machine this state _event
    (candidates : list SelTransition) selected :
  selectCandidate machine this state _event candidates = Ok (Some selected) ->
  selected ∈ candidates.
Proof.
  induction candidates as [|c rest IH]; [done|].
  rewrite selectCandidate_cons.
  destruct (candidatePasses machine this state _event c) as [[|]|];
    simpl; [|by right; apply IH|done].
  intros [= <-]. by left.
Qed.

Lemma getCandidates_answersTo (sn : SelNode) (eventName : string)
    candidates (t : SelTransition) :
  getCandidates sn eventName = CandidateList candidates ->
  t ∈ candidates ->
  t ∈ transitions sn /\ answersTo eventName t.
Proof.
  unfold getCandidates. destruct (inheritedName eventName); [done|].
  intros [= <-].
  unfold answersTo. destruct (decide (eventName = NULL_EVENT)) as [->|Hne].
  - rewrite filterCandidates_null. intros [? ?]. split; [done|by left].
  - rewrite (filterCandidates_named _ _ _ Hne). intros [? [?|?]].
    + split; [done|by left].
    + split; [done|by right].
Qed.

(** An event named like a member of [Object.prototype] makes [next]
    throw at every node, whatever its transitions. *)
Lemma next_member_event machine this state _event (sn : SelNode) :
  nodeAt machine this = Some sn ->
  inheritedName (name _event) = true ->
  next machine this state _event = Throw TypeError.
Proof.
  intros Hnode Hmember. unfold next.
  by rewrite Hnode, (getCandidates_member _ _ Hmember).
Qed.

Local Abbreviation selectedFor machine _event :=
  (fun st : SelStateTransition =>
     Forall (fun t : SelTransition =>
               answersTo (name _event) t
               /\ exists ref sn, nodeAt machine ref = Some sn
                                 /\ t ∈ transitions sn)
            (tr_transitions st)).

Lemma next_answers machine this state _event (st : SelStateTransition) :
  next machine this state _event = Ok (Some st) ->
  selectedFor machine _event st.
Proof.
  unfold next. destruct (nodeAt machine this) as [sn|] eqn:Hnode; [|done].
  destruct (getCandidates sn (name _event)) as [candidates|?] eqn:Hcands;
    simpl; [|done].
  destruct (selectCandidate _ _ _ _ _) as [[sel|]|] eqn:Hsel; simpl;
    try done.
  apply selectCandidate_elem in Hsel.
  apply (getCandidates_answersTo _ _ _ _ Hcands) in Hsel as [Hin Hans].
  assert (answersTo (name _event) sel
          /\ exists ref sn0, nodeAt machine ref = Some sn0
                             /\ sel ∈ transitions sn0) as Hsel
    by (split; [done|by exists this, sn]).
  destruct (bool_decide _); intros [= <-]; simpl; by constructor.
Qed.

(** Every transition that [_transition] selects, at whatever depth of
    the state value and in whatever region, is a transition of a node of
    the machine and answers to the name of the event: it has this name
    as its event type or, for an event other than the null event, the
    wildcard. *)
Theorem _transition_answers machine state _event stateValue this
    (st : SelStateTransition) :
  _transition machine this stateValue state _event = Ok (Some st) ->
  Forall (fun t : SelTransition =>
            answersTo (name _event) t
            /\ exists ref sn, nodeAt machine ref = Some sn
                              /\ t ∈ transitions sn)
         (tr_transitions st).
Proof.
  revert this st.
  induction stateValue as [leaf|entries IH] using StateValue_nested_ind;
    intros this st; simpl.
  - destruct (getStateNode machine this leaf) as [[sn|?]|]; simpl; [|done..].
    destruct (next machine sn state _event) as [next_|] eqn:Hnext;
      simpl; [|done].
    destruct (noTransitions next_); [apply next_answers|].
    intros [= ->]. by apply next_answers in Hnext.
  - set (regions := fix regions (entries : list (string * StateValue)) := _).
    assert (forall sts, regions entries = Ok sts ->
                        Forall (selectedFor machine _event) sts) as Hregions.
    { clear st. induction IH as [|[k v] rest IHv _ IHrest];
        intros sts; simpl; [by intros [= <-]|].
      destruct (truthyValue v); [|apply IHrest].
      destruct (getStateNode machine this k) as [[sn|?]|]; simpl; [|done..].
      destruct (_transition machine sn v state _event) as [next_|] eqn:Hnext;
        simpl; [|done].
      destruct (regions rest) as [others|]; simpl; [|done].
      intros [= <-]. specialize (IHrest others eq_refl).
      destruct next_ as [st0|]; [|done].
      destruct (String.eqb k "__proto__"); [done|].
      constructor; [|done]. by apply (IHv sn). }
    assert (forall this0,
              (try stateTransitions := regions entries in
               if negb (existsb
                          (fun st0 : SelStateTransition =>
                             bool_decide (0 < length (tr_transitions st0))%nat)
                          stateTransitions)
               then next machine this0 state _event
               else Ok (Some (mkStateTransition
                                (flat_map tr_transitions stateTransitions)
                                (flat_map entrySet stateTransitions)
                                (flat_map exitSet stateTransitions)
                                (flat_map tr_configuration stateTransitions)
                                (Some state)
                                (flat_map tr_actions stateTransitions))))
              = Ok (Some st) -> selectedFor machine _event st) as Hpar.
    { intros this0. destruct (regions entries) as [sts|] eqn:Hsts; simpl;
        [|done].
      destruct (negb _); [apply next_answers|]. intros [= <-]. simpl.
      by apply Forall_flat_map_each, Hregions. }
    destruct entries as [|[k v] [|e2 rest]]; try apply Hpar.
    apply Forall_cons in IH as [IHv _]. simpl in IHv.
    destruct (getStateNode machine this k) as [[sn|?]|]; simpl; [|done..].
    destruct (_transition machine sn v state _event) as [next_|] eqn:Hnext;
      simpl; [|done].
    destruct (noTransitions next_); [apply next_answers|].
    intros [= ->]. by apply IHv in Hnext.
Qed.

(** ** Raised events are consumed *)

Local Abbreviation consumed :=
  (fun s : SelState => Forall (fun a => isRaised a = false) (st_actions s)).

Lemma microstep_consumed machine (stateTransition : SelStateTransition)
    (cs : option SelState) _event (context : TContext) ms :
  microstep machine stateTransition cs _event context = Ok ms ->
  consumed (ms_nextState ms).
Proof.
  intros Hms. apply microstep_inv in Hms
    as (resolvedActions & _ & _ & _ & _ & _ & _ & _ & Hact & _).
  simpl. rewrite Hact. destruct (ms_resolved ms); [|done].
  apply Forall_forall. intros a [Hna _]%list_elem_of_filter.
  by destruct (isRaised a).
Qed.

Lemma resolveRaisedTransition_consumed
    (transition_ : SelState -> Event -> Result SelState) state e
    originalEvent s' :
  (forall s0 e0 s1, transition_ s0 e0 = Ok s1 -> consumed s1) ->
  consumed state ->
  resolveRaisedTransition transition_ state e originalEvent = Ok s' ->
  consumed s'.
Proof.
  intros Hcb Hstate. unfold resolveRaisedTransition.
  destruct e as [e|]; [|done].
  destruct (transition_ state e) as [state'|] eqn:Hrun; simpl; [|done].
  intros [= <-]. simpl. apply Forall_app. split; [done|].
  by apply (Hcb _ _ _ Hrun).
Qed.

Lemma drainRaised_consumed
    (transition_ : SelState -> Event -> Result SelState) raisedEvents :
  (forall s0 e0 s1, transition_ s0 e0 = Ok s1 -> consumed s1) ->
  forall state _event s',
    consumed state ->
    drainRaised transition_ state raisedEvents _event = Ok s' ->
    consumed s'.
Proof.
  intros Hcb.
  induction raisedEvents as [|raisedEvent rest IH]; intros state _event s'
    Hstate; simpl.
  - by intros [= <-].
  - destruct (resolveRaisedTransition _ state _ _event) as [s1|] eqn:Hstep;
      simpl; [|done].
    apply IH.
    exact (resolveRaisedTransition_consumed _ _ _ _ _ Hcb Hstate Hstep).
Qed.

Lemma resolveTransition_consumed
    (transition_ : SelState -> Event -> Result SelState) machine
    (stateTransition : SelStateTransition) cs _event (context : TContext)
    s' :
  (forall s0 e0 s1, transition_ s0 e0 = Ok s1 -> consumed s1) ->
  resolveTransition transition_ machine stateTransition cs _event context
  = Ok s' ->
  consumed s'.
Proof.
  intros Hcb. unfold resolveTransition.
  destruct (microstep machine stateTransition cs _event context)
    as [ms|] eqn:Hms; cbn [bind]; [|done].
  apply microstep_consumed in Hms.
  destruct (ms_resolved ms); cbn [negb]; [|intros [= <-]; exact Hms].
  destruct (if isTransient machine (ms_stateNodes ms)
            then resolveRaisedTransition transition_ (ms_nextState ms)
                   (Some (EventName NULL_EVENT)) _event
            else Ok (ms_nextState ms)) as [s1|] eqn:Hnull; cbn [bind]; [|done].
  assert (consumed s1) as Hs1.
  { destruct (isTransient machine (ms_stateNodes ms)).
    - exact (resolveRaisedTransition_consumed _ _ _ _ _ Hcb Hms Hnull).
    - injection Hnull as <-. exact Hms. }
  destruct (drainRaised transition_ s1 (ms_raisedEvents ms) _event)
    as [s2|] eqn:Hdrain; cbn [bind]; [|done].
  intros [= <-]. simpl.
  exact (drainRaised_consumed _ _ Hcb _ _ _ Hs1 Hdrain).
Qed.

(** A state that [transition] returns holds no raise action and no send
    action to the internal queue, however many null and raised events
    the step went through: these actions are taken out of the action
    list of every microstep and run as internal events. *)
Theorem transition_no_raised fuel machine (state : StateArg) (event : Event)
    (context : option TContext) (s' : SelState) :
  transition fuel machine state event context = Ok s' ->
  Forall (fun a => isRaised a = false) (st_actions s').
Proof.
  revert state event context s'.
  induction fuel as [|fuel IH]; intros state event context s'; simpl;
    [done|].
  destruct (prepare machine state event context) as [[[cs _event] st]|];
    simpl; [|done].
  apply resolveTransition_consumed.
  intros s0 e0 s1. apply IH.
Qed.

End SelectionExtras.

Section SelectionExamples.
Import Examples.CoreX.


Lemma _transition_answers_witness :
  exists st,
    Core._transition (Examples.CoreX.lightMachine false) []
      (Core.Leaf "green") Examples.CoreX.green (Core.mkSCXML "TIMER" "TIMER")
    = Ok (Some st)
    /\ Forall (fun t =>
                 CoreMore.answersTo "TIMER" t
                 /\ exists ref sn,
                      Core.nodeAt (Examples.CoreX.lightMachine false) ref
                      = Some sn
                      /\ t ∈ Core.transitions sn)
              (Core.tr_transitions st).
Proof.
  eexists. split; [vm_compute; reflexivity|].
  refine (_transition_answers (Examples.CoreX.lightMachine false)
            Examples.CoreX.green (Core.mkSCXML "TIMER" "TIMER")
            (Core.Leaf "green") [] _ _).
  vm_compute. reflexivity.
Defined.

Lemma transition_no_raised_witness :
  exists s',
    Core.transition 3 Examples.CoreX.chainMachine
      (Core.ArgState Examples.CoreX.chainA) (Core.EventName "STEP") None
    = Ok s'
    /\ Core.value s' = Core.Leaf "c"
    /\ Forall (fun a => Core.isRaised a = false) (Core.st_actions s').
Proof.
  eexists. split; [vm_compute; reflexivity|]. split; [reflexivity|].
  refine (transition_no_raised 3 Examples.CoreX.chainMachine
            (Core.ArgState Examples.CoreX.chainA) (Core.EventName "STEP")
            None _ _).
  vm_compute. reflexivity.
Defined.

End SelectionExamples.

(** * Properties of state values and of [State.inert] *)

Section ValueExtras.
Import Core CoreSteps CoreMore CoreFacts.

Local Abbreviation everyIn bEntries :=
  (fix every (entries : list (string * StateValue)) : bool :=
     match entries with
     | [] => true
     | (key, aValue) :: rest =>
         match valueAt bEntries key with
         | Some bValue => stateValuesEqual aValue bValue
         | None => false
         end && every rest
     end).

Local Abbreviation eachUnique :=
  (fix each (entries : list (string * StateValue)) : bool :=
     match entries with
     | [] => true
     | (_, sub) :: rest => uniqueKeys sub && each rest
     end).

Local Abbreviation eachPlain :=
  (fix each (entries : list (string * StateValue)) : bool :=
     match entries with
     | [] => true
     | (key, sub) :: rest =>
         negb (inheritedName key) && plainKeys sub && each rest
     end).

Lemma eachUnique_elem (entries : list (string * StateValue)) k v :
  eachUnique entries = true -> (k, v) ∈ entries -> uniqueKeys v = true.
Proof.
  induction entries as [|[k0 v0] rest IH]; simpl; intros Hu Hin.
  - by apply elem_of_nil in Hin.
  - apply andb_true_iff in Hu as [Hv Hrest].
    apply elem_of_cons in Hin as [[= -> ->]|Hin]; [done|by apply IH].
Qed.

Lemma eachPlain_elem (entries : list (string * StateValue)) k v :
  eachPlain entries = true -> (k, v) ∈ entries ->
  inheritedName k = false /\ plainKeys v = true.
Proof.
  induction entries as [|[k0 v0] rest IH]; simpl; intros Hu Hin.
  - by apply elem_of_nil in Hin.
  - apply andb_true_iff in Hu as [[Hk Hv]%andb_true_iff Hrest].
    apply elem_of_cons in Hin as [[= -> ->]|Hin]; [|by apply IH].
    split; [by apply negb_true_iff|done].
Qed.

Lemma valueAt_plain (bEntries : list (string * StateValue)) k vb :
  NoDup (map fst bEntries) -> inheritedName k = false ->
  valueAt bEntries k = Some vb <-> (k, vb) ∈ bEntries.
Proof.
  intros Hnd Hplain. unfold valueAt. split.
  - destruct (list_find _ bEntries) as [[i [k' vb']]|] eqn:Hfind;
      [|by rewrite Hplain].
    apply list_find_Some in Hfind as (Hi & Hk & _). simpl in Hk. subst k'.
    intros [= <-]. by eapply list_elem_of_lookup_2.
  - intros Hin.
    by destruct (list_find_first_key bEntries k vb Hnd Hin) as [i ->].
Qed.

Lemma everyIn_spec (bEntries part : list (string * StateValue)) :
  NoDup (map fst bEntries) ->
  (forall k va, (k, va) ∈ part -> inheritedName k = false) ->
  everyIn bEntries part = true
  <-> forall k va, (k, va) ∈ part ->
        exists vb, (k, vb) ∈ bEntries /\ stateValuesEqual va vb = true.
Proof.
  intros Hnd. induction part as [|[k v] rest IH]; intros Hplain.
  - split; [|done]. intros _ k va Hin. by apply elem_of_nil in Hin.
  - assert (inheritedName k = false) as Hk by (eapply Hplain; by left).
    rewrite andb_true_iff, IH by (intros ? ? ?; eapply Hplain; by right).
    split.
    + intros [Hhead Hrest] k' va [[= -> ->]|Hin]%elem_of_cons;
        [|by apply Hrest].
      destruct (valueAt bEntries k) as [vb|] eqn:Hat; [|done].
      apply (valueAt_plain _ _ _ Hnd Hk) in Hat. by exists vb.
    + intros Hall. split; [|intros k' va Hin; apply Hall; by right].
      destruct (Hall k v) as (vb & Hin & Heq); [by left|].
      apply (valueAt_plain _ _ _ Hnd Hk) in Hin. by rewrite Hin.
Qed.

Lemma stateValuesEqual_branch (aEntries bEntries : list (string * StateValue)) :
  NoDup (map fst bEntries) ->
  (forall k va, (k, va) ∈ aEntries -> inheritedName k = false) ->
  stateValuesEqual (Branch aEntries) (Branch bEntries) = true
  <-> length aEntries = length bEntries
      /\ forall k va, (k, va) ∈ aEntries ->
           exists vb, (k, vb) ∈ bEntries /\ stateValuesEqual va vb = true.
Proof.
  intros Hnd Hplain. simpl.
  by rewrite andb_true_iff, bool_decide_eq_true,
       (everyIn_spec _ _ Hnd Hplain).
Qed.

Lemma keys_cover (aEntries bEntries : list (string * StateValue)) :
  NoDup (map fst aEntries) ->
  length aEntries = length bEntries ->
  (forall k va, (k, va) ∈ aEntries -> exists vb, (k, vb) ∈ bEntries) ->
  forall k vb, (k, vb) ∈ bEntries -> exists va, (k, va) ∈ aEntries.
Proof.
  intros Hnd Hlen Hsub k vb Hin.
  assert (map fst aEntries ⊆+ map fst bEntries) as Hsubm.
  { apply NoDup_submseteq; [done|]. intros x [[k' va] [-> Ha]]%list_elem_of_fmap.
    destruct (Hsub _ _ Ha) as [vb' Hb]. apply list_elem_of_fmap.
    by exists (k', vb'). }
  apply submseteq_length_Permutation in Hsubm;
    [|by rewrite !length_map, Hlen].
  assert (k ∈ map fst aEntries) as [[k' va] [Hk Ha]]%list_elem_of_fmap.
  { rewrite Hsubm. apply list_elem_of_fmap. by exists (k, vb). }
  simpl in Hk. subst k'. by exists va.
Qed.

Lemma unique_binding (entries : list (string * StateValue)) k v1 v2 :
  NoDup (map fst entries) -> (k, v1) ∈ entries -> (k, v2) ∈ entries ->
  v1 = v2.
Proof.
  intros Hnd H1 H2.
  destruct (list_find_first_key entries k v1 Hnd H1) as [i1 Hf1].
  destruct (list_find_first_key entries k v2 Hnd H2) as [i2 Hf2].
  congruence.
Qed.

Lemma stateValuesEqual_true_iff (a : StateValue) : forall b,
  uniqueKeys a = true -> uniqueKeys b = true ->
  plainKeys a = true -> plainKeys b = true ->
  stateValuesEqual a b = true <-> stateValuesEqual b a = true.
Proof.
  induction a as [x|aEntries IH] using StateValue_nested_ind;
    intros [y|bEntries] Ha Hb Hpa Hpb; try done.
  - simpl. rewrite !String.eqb_eq. split; congruence.
  - simpl in Ha, Hb, Hpa, Hpb.
    apply andb_true_iff in Ha as [Hnda Heacha].
    apply andb_true_iff in Hb as [Hndb Heachb].
    apply bool_decide_eq_true in Hnda, Hndb.
    rewrite Forall_forall in IH.
    rewrite (stateValuesEqual_branch aEntries bEntries Hndb
               (fun k v Hin => proj1 (eachPlain_elem _ _ _ Hpa Hin))).
    rewrite (stateValuesEqual_branch bEntries aEntries Hnda
               (fun k v Hin => proj1 (eachPlain_elem _ _ _ Hpb Hin))).
    split; intros [Hlen Hall]; (split; [done|]).
    + intros k vb Hinb.
      destruct (keys_cover aEntries bEntries Hnda Hlen) with (k := k)
        (vb := vb) as [va Hina]; [|done|].
      { intros k' va' Hin'. destruct (Hall _ _ Hin') as (vb' & ? & _).
        by exists vb'. }
      exists va. split; [done|].
      destruct (Hall _ _ Hina) as (vb' & Hinb' & Heq).
      rewrite (unique_binding _ _ _ _ Hndb Hinb Hinb').
      by apply (IH (k, va) Hina vb' (eachUnique_elem _ _ _ Heacha Hina)
                  (eachUnique_elem _ _ _ Heachb Hinb')
                  (proj2 (eachPlain_elem _ _ _ Hpa Hina))
                  (proj2 (eachPlain_elem _ _ _ Hpb Hinb'))).
    + intros k va Hina.
      destruct (keys_cover bEntries aEntries Hndb Hlen) with (k := k)
        (vb := va) as [vb Hinb]; [|done|].
      { intros k' vb' Hin'. destruct (Hall _ _ Hin') as (va' & ? & _).
        by exists va'. }
      exists vb. split; [done|].
      destruct (Hall _ _ Hinb) as (va' & Hina' & Heq).
      rewrite (unique_binding _ _ _ _ Hnda Hina Hina').
      by apply (IH (k, va') Hina' vb (eachUnique_elem _ _ _ Heacha Hina')
                  (eachUnique_elem _ _ _ Heachb Hinb)
                  (proj2 (eachPlain_elem _ _ _ Hpa Hina'))
                  (proj2 (eachPlain_elem _ _ _ Hpb Hinb))).
Qed.

(** A key that one value has and that the other only inherits from
    [Object.prototype] is found in the second by [b[key]] and not in
    the first: the comparison then depends on which value comes
    first. *)
Lemma stateValuesEqual_inherited_key :
  stateValuesEqual (Branch [("constructor", Branch [])])
    (Branch [("x", Leaf "y")]) = true
  /\ stateValuesEqual (Branch [("x", Leaf "y")])
       (Branch [("constructor", Branch [])]) = false.
Proof. split; reflexivity. Qed.

(** [stateValuesEqual] is symmetric on state values (objects have every
    key once) none of whose keys is the name of a member of
    [Object.prototype]: the order in which the keys of the two values
    are listed does not matter, nor which of the two values is given
    first. *)
Theorem stateValuesEqual_sym (a b : StateValue) :
  uniqueKeys a = true -> uniqueKeys b = true ->
  plainKeys a = true -> plainKeys b = true ->
  stateValuesEqual a b = stateValuesEqual b a.
Proof.
  intros Ha Hb Hpa Hpb.
  pose proof (stateValuesEqual_true_iff a b Ha Hb Hpa Hpb) as Hiff.
  destruct (stateValuesEqual a b), (stateValuesEqual b a); try done.
  - symmetry. by apply Hiff.
  - by apply Hiff.
Qed.

(** ** [toStrings] *)

Local Abbreviation nestedStrings delimiter :=
  (fix nested (entries : list (string * StateValue)) : list string :=
     match entries with
     | [] => []
     | (key, sub) :: rest =>
         map (fun s => key +:+ delimiter +:+ s) (toStrings sub delimiter)
           ++ nested rest
     end).

Local Abbreviation nestedPaths :=
  (fix nested (entries : list (string * StateValue)) : list (list string) :=
     match entries with
     | [] => []
     | (key, sub) :: rest => map (cons key) (leafPaths sub) ++ nested rest
     end).

(** [toStrings] holds, for every path of keys from the top of the state
    value to a leaf, the path and each of its prefixes, written with the
    delimiter. *)
Theorem toStrings_prefixes (v : StateValue) (delimiter : string)
    (p q : list string) :
  p ++ q ∈ leafPaths v -> p <> [] ->
  joinPath delimiter p ∈ toStrings v delimiter.
Proof.
  revert p q.
  induction v as [leaf|entries IH] using StateValue_nested_ind;
    intros p q Hpath Hne; simpl in *.
  - apply list_elem_of_singleton in Hpath.
    destruct p as [|x [|y p]]; [done| |done].
    simpl in Hpath. injection Hpath as -> _. by left.
  - apply elem_of_app.
    induction IH as [|[key sub] rest IHsub _ IHrest]; simpl in *.
    + by apply elem_of_nil in Hpath.
    + apply elem_of_app in Hpath as [Hhere|Hlater].
      * apply list_elem_of_fmap in Hhere as (path & Heq & Hin).
        destruct p as [|x p]; [done|]. simpl in Heq.
        injection Heq as -> <-.
        destruct p as [|y p]; [left; by left|].
        right. apply elem_of_app. left. apply list_elem_of_fmap.
        exists (joinPath delimiter (y :: p)). split; [done|].
        by apply (IHsub (y :: p) q).
      * destruct (IHrest Hlater) as [Hkey|Hnested].
        -- left. by right.
        -- right. apply elem_of_app. by right.
Qed.

End ValueExtras.

Section InertExtras.
Import StateStore StateInert.

Context {StateValue SCXMLEvent HistoryValue ActionObject ActivityMap Meta
         TEvent StateNode TransitionDefinition Actor : Type}.

Variable initEvent : SCXMLEvent.
Variable EMPTY_ACTIVITY_MAP : ActivityMap.
Variable dataOf : SCXMLEvent -> TEvent.

Abbreviation InertState :=
  (@StateStore.State StateValue SCXMLEvent HistoryValue ActionObject
     ActivityMap Meta TEvent StateNode TransitionDefinition Actor).

Lemma inert_again (store : list InertState) (loc : nat) state context :
  store !! loc = Some state -> actions state = [] ->
  inert initEvent EMPTY_ACTIVITY_MAP dataOf store (inl loc) context
  = Some (store, loc).
Proof.
  intros Hloc Hnil. unfold inert.
  change (store !! loc) with (list_lookup loc store).
  change (list_lookup loc store = Some state) in Hloc.
  rewrite Hloc, Hnil. done.
Qed.

(** [State.inert] returns a state without actions and leaves the
    [State] objects that exist as they are; given its own result it
    returns that same object.  Given a [State] without actions it returns
    this object itself and does not look at the context; given one with
    actions, or a plain state value, it makes a new object with the
    value and the context it was given. *)
Theorem inert_no_actions (store : list InertState)
    (stateValue : nat + StateValue) context store' loc :
  inert initEvent EMPTY_ACTIVITY_MAP dataOf store stateValue context
  = Some (store', loc) ->
  store `prefix_of` store'
  /\ exists state',
       store' !! loc = Some state'
       /\ actions state' = []
       /\ (forall context2,
             inert initEvent EMPTY_ACTIVITY_MAP dataOf store' (inl loc)
               context2 = Some (store', loc))
       /\ match stateValue with
          | inl loc0 =>
              exists state,
                store !! loc0 = Some state
                /\ value state' = value state
                /\ if bool_decide (actions state = [])
                   then loc = loc0 /\ store' = store
                   else loc = length store
                        /\ StateStore.context state' = context
          | inr v =>
              loc = length store
              /\ value state' = v /\ StateStore.context state' = context
          end.
Proof.
  unfold inert. destruct stateValue as [loc0|v].
  - change (store !! loc0) with (list_lookup loc0 store).
    destruct (list_lookup loc0 store) as [state|] eqn:Hloc; [|done].
    destruct (actions state) as [|a acts] eqn:Hacts; simpl.
    + intros [= <- <-]. split; [done|]. exists state.
      split; [exact Hloc|]. split; [done|].
      split; [intros; by eapply inert_again|].
      exists state. by rewrite Hacts.
    + intros [= <- <-]. split; [by apply prefix_app_r|].
      eexists. split; [apply list_lookup_middle; done|].
      split; [done|]. split.
      * intros context2. eapply inert_again;
          [apply list_lookup_middle; done|done].
      * exists state. by rewrite Hacts.
  - simpl. intros [= <- <-]. split; [by apply prefix_app_r|].
    eexists. split; [apply list_lookup_middle; done|].
    split; [done|]. split; [|done].
    intros context2. eapply inert_again;
      [apply list_lookup_middle; done|done].
Qed.

End InertExtras.

Lemma inert_no_actions_witness :
  exists fresh,
    StateInert.inert "xstate.init" tt (fun e => e) Examples.StoreX.store
      (inl 0%nat) (StateStore.JsNumber 5)
    = Some (Examples.StoreX.store ++ [fresh], 1%nat)
    /\ Examples.StoreX.store `prefix_of` Examples.StoreX.store ++ [fresh]
    /\ StateStore.actions fresh = []
    /\ StateStore.context fresh = StateStore.JsNumber 5.
Proof.
  eexists. split; [vm_compute; reflexivity|].
  split; [|split; reflexivity].
  refine (proj1 (inert_no_actions "xstate.init" tt (fun e => e)
                   Examples.StoreX.store (inl 0%nat) (StateStore.JsNumber 5)
                   _ 1%nat _)).
  vm_compute. reflexivity.
Defined.

Lemma stateValuesEqual_sym_witness :
  Core.stateValuesEqual MoreExamples.twoRegions MoreExamples.twoRegionsSwapped
  = Core.stateValuesEqual MoreExamples.twoRegionsSwapped
      MoreExamples.twoRegions
  /\ Core.stateValuesEqual MoreExamples.twoRegions
       MoreExamples.twoRegionsSwapped = true.
Proof.
  split; [|vm_compute; reflexivity].
  apply (stateValuesEqual_sym MoreExamples.twoRegions
           MoreExamples.twoRegionsSwapped); vm_compute; reflexivity.
Defined.

Lemma toStrings_prefixes_witness :
  "b.b1" ∈ CoreMore.toStrings MoreExamples.twoRegions "."
  /\ "b.b1.x" ∈ CoreMore.toStrings MoreExamples.twoRegions ".".
Proof.
  split.
  - refine (toStrings_prefixes MoreExamples.twoRegions "." ["b"; "b1"] ["x"]
              _ _).
    + apply (bool_decide_unpack _). vm_compute. exact I.
    + discriminate.
  - refine (toStrings_prefixes MoreExamples.twoRegions "." ["b"; "b1"; "x"] []
              _ _).
    + apply (bool_decide_unpack _). vm_compute. exact I.
    + discriminate.
Defined.

(** * The history of a returned state *)

Section HistoryExtras.
Import Core CoreSteps CoreFacts.

Context {TContext TEvent Payload Activity Data StateIn HistoryValue : Type}.
Context `{!@Imports TContext TEvent Payload Activity Data StateIn HistoryValue}.

Abbreviation HistState :=
  (@Core.State TContext TEvent Payload Activity StateIn HistoryValue).

(** The [history] of the state that [transition] returns for a state is
    that state without its own history, also after null and raised
    events: histories do not chain. *)
Theorem transition_history fuel
    (machine : @Core.StateNode TContext TEvent Payload Activity Data StateIn)
    (s : HistState) (event : Event) (s' : HistState) :
  transition fuel machine (ArgState s) event None = Ok s' ->
  st_history s' = Some (withoutHistory s)
  /\ forall h, st_history s' = Some h -> st_history h = None.
Proof.
  intros Hrun.
  assert (st_history s' = Some (withoutHistory s)) as Hhist.
  { destruct fuel as [|fuel]; simpl in Hrun; [done|].
    destruct (prepare machine (ArgState s) event None) as [[[cs _event] st]|]
      eqn:Hprep; cbn [bind] in Hrun; [|done].
    apply prepare_inv in Hprep
      as (_ & Hcs & _ & selected & prevNodes & _ & _ & _ & Hsrc & _).
    rewrite (Hcs s eq_refl eq_refl) in Hrun.
    unfold resolveTransition in Hrun.
    destruct (microstep machine st (Some s) _event machineContext)
      as [ms|] eqn:Hms; cbn [bind] in Hrun; [|done].
    apply microstep_inv in Hms
      as (resolvedActions & _ & _ & _ & _ & _ & _ & _ & _ & _ & _ & Hh
          & Hnext & _).
    specialize (Hh s eq_refl Hsrc).
    destruct (ms_resolved ms); cbn [negb] in Hrun.
    - destruct (if isTransient machine (ms_stateNodes ms) then _ else _)
        as [s1|]; cbn [bind] in Hrun; [|done].
      destruct (drainRaised _ s1 _ _event) as [s2|]; cbn [bind] in Hrun;
        [|done].
      injection Hrun as <-. exact Hh.
    - injection Hrun as <-. by rewrite Hnext. }
  split; [exact Hhist|]. intros h Hh. rewrite Hhist in Hh.
  by injection Hh as <-.
Qed.

End HistoryExtras.

Section HistoryExamples.
Import Examples.CoreX.

Lemma transition_history_witness :
  exists s',
    Core.transition 3 chainMachine (Core.ArgState chainA)
      (Core.EventName "STEP") None = Ok s'
    /\ Core.st_history s' = Some (Core.withoutHistory chainA).
Proof.
  eexists. split; [vm_compute; reflexivity|].
  refine (proj1 (transition_history 3 chainMachine chainA
                   (Core.EventName "STEP") _ _)).
  vm_compute. reflexivity.
Defined.

End HistoryExamples.
